(** * Content gating service: a shallow embedding and its properties

    The development embeds [backend/services/content-gating.js]
    (class [ContentGatingService]) together with the PL/pgSQL functions
    [calculate_course_completion] and [check_content_access] of the
    database schema, and settles the properties of the gating engine
    against that embedding.

    Conventions of the embedding.
    - SQL tables are lists of rows (bags with an order); a query is a list
      comprehension over them, [rows[0]] is the head of the result.  A query
      without ORDER BY returns its rows in table order.
    - A nullable column is an [option]; a nullable BOOLEAN that the code
      only tests for truthiness is a [bool] (NULL and false behave alike).
      Columns that the service never reads are left out.
    - TIMESTAMP values and [new Date()] are milliseconds in [Z]; every
      operation receives the clock reading [now] as an argument.
    - DECIMAL(5,2) values are integers counting hundredths; averages are
      exact rationals.  PostgreSQL divides numerics to some twenty digits
      and JavaScript reads the average as a double: both agree with the
      exact value on every store of fewer than 10^10 lessons and courses.
    - A thrown JavaScript exception or a raised SQL error is the [Throw]
      case of [result]; asynchronous methods are state-passing functions
      over the store and the cache. *)

From stdpp Require Import gmap strings list fin_maps pretty.
From Stdlib Require Import ZArith QArith Qround Qabs Lia.

Local Open Scope string_scope.
Local Open Scope Z_scope.

(** ** Data model (schema types) *)

Definition uuid := string.
Definition timestamp := Z.

Inductive ContentLevel := beginner | intermediate | advanced.
Inductive SubscriptionStatus := active | cancelled | expired | trial.
Inductive ProgressStatus := not_started | in_progress | completed.

#[global] Instance content_level_eq_dec : EqDecision ContentLevel.
Proof. solve_decision. Defined.
#[global] Instance subscription_status_eq_dec : EqDecision SubscriptionStatus.
Proof. solve_decision. Defined.
#[global] Instance progress_status_eq_dec : EqDecision ProgressStatus.
Proof. solve_decision. Defined.

Record user_row := {
  u_id : uuid;
  u_is_active : bool;
  u_is_verified : bool }.

Record subscription_row := {
  s_user_id : uuid;
  s_plan : string;
  s_status : SubscriptionStatus;
  s_current_period_end : option timestamp;
  s_trial_end : option timestamp }.

Record course_row := {
  c_id : uuid;
  c_title : string;
  c_level : ContentLevel;
  c_is_published : bool;
  c_is_free : bool;
  c_requires_subscription : bool;
  c_prerequisites : option (list uuid) }.

Record module_row := {
  m_id : uuid;
  m_course_id : uuid;
  m_prerequisites : option (list uuid) }.

Record lesson_row := {
  l_id : uuid;
  l_module_id : uuid }.

Record progress_row := {
  up_user_id : uuid;
  up_course_id : uuid;
  up_module_id : option uuid;
  up_lesson_id : option uuid;
  up_status : ProgressStatus }.

Record enrollment_row := {
  e_id : uuid;
  e_user_id : uuid;
  e_course_id : uuid;
  e_is_active : bool;
  e_expires_at : option timestamp }.

Record Database := {
  users : list user_row;
  subscriptions : list subscription_row;
  courses : list course_row;
  modules : list module_row;
  lessons : list lesson_row;
  user_progress : list progress_row;
  enrollments : list enrollment_row }.

(** ** Exceptions *)

Inductive error :=
  | RedisError
  | NumericFieldOverflow
  | UniqueViolation
  | ForeignKeyViolation
  | InvalidEnumValue.

Inductive result (A : Type) :=
  | Ok (a : A)
  | Throw (e : error).
Arguments Ok {A} a.
Arguments Throw {A} e.

#[global] Instance result_ret : MRet result := fun _ a => Ok a.
#[global] Instance result_bind : MBind result := fun _ _ f m =>
  match m with
  | Ok a => f a
  | Throw e => Throw e
  end.

(** [try { body } catch (error) { handler }] with a handler that ignores
    the exception. *)
Definition try_catch {A} (body : result A) (handler : A) : A :=
  match body with
  | Ok a => a
  | Throw _ => handler
  end.

(** ** calculate_course_completion (PL/pgSQL) *)

(** [FROM lessons l JOIN modules m ON l.module_id = m.id
     WHERE m.course_id = p_course_id] *)
Definition course_lessons (db : Database) (p_course_id : uuid)
  : list (lesson_row * module_row) :=
  l ← lessons db;
  m ← modules db;
  if bool_decide (l_module_id l = m_id m ∧ m_course_id m = p_course_id)
  then [(l, m)] else [].

(** [FROM user_progress up JOIN lessons l ON up.lesson_id = l.id
     JOIN modules m ON l.module_id = m.id
     WHERE up.user_id = p_user_id AND m.course_id = p_course_id
       AND up.status = 'completed'] *)
Definition completed_progress (db : Database) (p_user_id p_course_id : uuid)
  : list (progress_row * lesson_row * module_row) :=
  up ← user_progress db;
  l ← lessons db;
  m ← modules db;
  if bool_decide (up_lesson_id up = Some (l_id l)
                  ∧ l_module_id l = m_id m
                  ∧ up_user_id up = p_user_id
                  ∧ m_course_id m = p_course_id
                  ∧ up_status up = completed)
  then [(up, l, m)] else [].

(** Rounding of the non-negative rational [num / den] to the nearest
    integer, halves upwards ([den > 0]). *)
Definition round_div (num den : Z) : Z := (2 * num + den) / (2 * den).

(** The coercion of a numeric value, given in hundredths, to DECIMAL(5,2):
    values of 1000 or more do not fit and raise. *)
Definition to_decimal_5_2 (hundredths : Z) : result Z :=
  if bool_decide (hundredths < 100000) then Ok hundredths
  else Throw NumericFieldOverflow.

(** The result is the DECIMAL(5,2) value in hundredths: [7500] is 75.00.
    [(completed_lessons::DECIMAL / total_lessons::DECIMAL) * 100] is
    rounded to two decimals by the assignment to the DECIMAL(5,2)
    variable. *)
Definition calculate_course_completion (db : Database)
    (p_user_id p_course_id : uuid) : result Z :=
  let total_lessons := Z.of_nat (length (course_lessons db p_course_id)) in
  let completed_lessons :=
    Z.of_nat (length (completed_progress db p_user_id p_course_id)) in
  if bool_decide (total_lessons > 0)
  then to_decimal_5_2 (round_div (completed_lessons * 10000) total_lessons)
  else to_decimal_5_2 0.

(** The rational number denoted by a DECIMAL(5,2) value. *)
Definition decimal_value (hundredths : Z) : Q := hundredths # 100.

(** ** Rows returned to the service *)

(** A row of [getUserWithSubscription]: the user columns and, through the
    LEFT JOIN, the columns of one subscription (all NULL without one). *)
Record User := {
  user_id : uuid;
  is_verified : bool;
  plan : option string;
  subscription_status : option SubscriptionStatus;
  current_period_end : option timestamp;
  trial_end : option timestamp }.

(** A row of [getContentDetails].  [prerequisites] is [None] when the
    column is NULL and also when the query does not select it (lessons);
    [course_id] and [module_id] are the aliased columns of the joins. *)
Record Content := {
  content_id : uuid;
  level : ContentLevel;
  is_published : bool;
  is_free : bool;
  requires_subscription : bool;
  prerequisites : option (list uuid);
  course_id : option uuid;
  module_id : option uuid }.

(** ** Access results *)

Inductive Metadata :=
  | MdEmpty
  | MdLevel (requiredCompletion currentCompletion : Z)
  | MdPrerequisites (incompletePrerequisites : list uuid).

(** The objects returned by the checks: either [{ hasAccess: true }], with
    every other field undefined, or an object of [createAccessResult]. *)
Record AccessResult := {
  hasAccess : bool;
  code : option string;
  message : option string;
  metadata : option Metadata;
  timestamp_of : option timestamp }.

Definition createAccessResult (now : timestamp) (hasAccess : bool)
    (code message : string) (metadata : Metadata) : AccessResult :=
  {| hasAccess := hasAccess;
     code := Some code;
     message := Some message;
     metadata := Some metadata;
     timestamp_of := Some now |}.

(** [{ hasAccess: true }] *)
Definition access_ok : AccessResult :=
  {| hasAccess := true; code := None; message := None;
     metadata := None; timestamp_of := None |}.

(** ** Queries of the service *)

Definition user_of_rows (u : user_row) (s : option subscription_row) : User :=
  {| user_id := u_id u;
     is_verified := u_is_verified u;
     plan := s_plan <$> s;
     subscription_status := s_status <$> s;
     current_period_end := s ≫= s_current_period_end;
     trial_end := s ≫= s_trial_end |}.

Definition getUserWithSubscription (db : Database) (userId : uuid)
  : option User :=
  head (u ← users db;
        if bool_decide (u_id u = userId ∧ u_is_active u = true) then
          match filter (λ s, s_user_id s = u_id u) (subscriptions db) with
          | [] => [user_of_rows u None]
          | ss => (λ s, user_of_rows u (Some s)) <$> ss
          end
        else []).

Definition content_of_course (c : course_row) : Content :=
  {| content_id := c_id c;
     level := c_level c;
     is_published := c_is_published c;
     is_free := c_is_free c;
     requires_subscription := c_requires_subscription c;
     prerequisites := c_prerequisites c;
     course_id := None;
     module_id := None |}.

Definition content_of_module (m : module_row) (c : course_row) : Content :=
  {| content_id := m_id m;
     level := c_level c;
     is_published := c_is_published c;
     is_free := c_is_free c;
     requires_subscription := c_requires_subscription c;
     prerequisites := m_prerequisites m;
     course_id := Some (c_id c);
     module_id := None |}.

Definition content_of_lesson (l : lesson_row) (m : module_row) (c : course_row)
  : Content :=
  {| content_id := l_id l;
     level := c_level c;
     is_published := c_is_published c;
     is_free := c_is_free c;
     requires_subscription := c_requires_subscription c;
     prerequisites := None;
     course_id := Some (c_id c);
     module_id := Some (m_id m) |}.

Definition getContentDetails (db : Database) (contentId : uuid)
    (contentType : string) : option Content :=
  if bool_decide (contentType = "course") then
    head (c ← courses db;
          if bool_decide (c_id c = contentId)
          then [content_of_course c] else [])
  else if bool_decide (contentType = "module") then
    head (m ← modules db;
          c ← courses db;
          if bool_decide (m_course_id m = c_id c ∧ m_id m = contentId)
          then [content_of_module m c] else [])
  else if bool_decide (contentType = "lesson") then
    head (l ← lessons db;
          m ← modules db;
          c ← courses db;
          if bool_decide (l_module_id l = m_id m ∧ m_course_id m = c_id c
                          ∧ l_id l = contentId)
          then [content_of_lesson l m c] else [])
  else None.

(** ** The checks *)

(** [value && new Date(value) > new Date()] *)
Definition in_future (now : timestamp) (t : option timestamp) : bool :=
  match t with
  | Some t => bool_decide (t > now)
  | None => false
  end.

(** [value && new Date(value) < new Date()] *)
Definition in_past (now : timestamp) (t : option timestamp) : bool :=
  match t with
  | Some t => bool_decide (t < now)
  | None => false
  end.

Definition checkSubscriptionAccess (now : timestamp) (user : User)
    (content : Content) : AccessResult :=
  if is_free content then access_ok
  else if requires_subscription content then
    if negb (bool_decide (subscription_status user = Some active)) then
      if in_future now (trial_end user) then access_ok
      else createAccessResult now false "SUBSCRIPTION_REQUIRED"
             "Active subscription required" MdEmpty
    else if in_past now (current_period_end user) then
      createAccessResult now false "SUBSCRIPTION_EXPIRED"
        "Subscription has expired" MdEmpty
    else access_ok
  else access_ok.

(** SQL [AVG] over numeric values: NULL on no rows. *)
Definition AVG (vals : list Q) : option Q :=
  match vals with
  | [] => None
  | _ => Some (foldr Qplus 0%Q vals / inject_Z (Z.of_nat (length vals)))%Q
  end.

(** [Math.round]: the nearest integer, halves towards plus infinity. *)
Definition Math_round (x : Q) : Z := Qfloor (x + (1 # 2))%Q.

Definition getLevelCompletion (db : Database) (userId : uuid)
    (lvl : ContentLevel) : result Z :=
  course_completions ←
    mapM (λ c, calculate_course_completion db userId (c_id c))
         (filter (λ c, c_level c = lvl ∧ c_is_published c = true) (courses db));
  let avg_completion := AVG (decimal_value <$> course_completions) in
  mret (Math_round (default 0%Q avg_completion)).

Definition level_denied (now : timestamp) (name : string) (completion : Z)
  : AccessResult :=
  createAccessResult now false "PREREQUISITE_LEVEL_NOT_COMPLETED"
    (name +:+ " level must be 80% complete. Current: "
          +:+ pretty completion +:+ "%")
    (MdLevel 80 completion).

Definition checkLevelAccess (db : Database) (now : timestamp) (userId : uuid)
    (content : Content) : result AccessResult :=
  match level content with
  | beginner => mret access_ok
  | intermediate =>
      beginnerCompletion ← getLevelCompletion db userId beginner;
      if bool_decide (beginnerCompletion < 80)
      then mret (level_denied now "Beginner" beginnerCompletion)
      else mret access_ok
  | advanced =>
      intermediateCompletion ← getLevelCompletion db userId intermediate;
      if bool_decide (intermediateCompletion < 80)
      then mret (level_denied now "Intermediate" intermediateCompletion)
      else mret access_ok
  end.

(** The column of [user_progress] that the prerequisite query joins on:
    [up.course_id] for a course, [up.module_id] otherwise. *)
Definition joined_column (contentType : string) (up : progress_row)
  : option uuid :=
  if bool_decide (contentType = "course") then Some (up_course_id up)
  else up_module_id up.

(** The ON clause of the LEFT JOIN. *)
Definition progress_matches (contentType : string) (userId prerequisite_id : uuid)
    (up : progress_row) : Prop :=
  up_user_id up = userId
  ∧ joined_column contentType up = Some prerequisite_id
  ∧ up_status up = completed.

#[global] Instance progress_matches_dec t u p up :
  Decision (progress_matches t u p up).
Proof. unfold progress_matches. apply _. Defined.

(** [FROM unnest($1::uuid[]) as prerequisite_id LEFT JOIN user_progress up
     ON ...]: one row per matching progress row, one row with NULLs (so
    [completed = false]) for a prerequisite without a match. *)
Definition prerequisite_rows (db : Database) (contentType : string)
    (userId : uuid) (prerequisiteIds : list uuid) : list (uuid * bool) :=
  prerequisite_id ← prerequisiteIds;
  match filter (progress_matches contentType userId prerequisite_id)
               (user_progress db) with
  | [] => [(prerequisite_id, false)]
  | ups => (λ up, (prerequisite_id, bool_decide (up_status up = completed)))
             <$> ups
  end.

Definition checkPrerequisites (db : Database) (now : timestamp) (userId : uuid)
    (content : Content) (contentType : string) : AccessResult :=
  match prerequisites content with
  | None | Some [] => access_ok
  | Some prerequisiteIds =>
      let rows := prerequisite_rows db contentType userId prerequisiteIds in
      let incompletePrereqs := filter (λ row, row.2 = false) rows in
      if bool_decide (Z.of_nat (length incompletePrereqs) > 0) then
        createAccessResult now false "PREREQUISITES_NOT_MET"
          (pretty (length incompletePrereqs)
             +:+ " prerequisite(s) not completed")
          (MdPrerequisites (fst <$> incompletePrereqs))
      else access_ok
  end.

Definition checkEnrollment (db : Database) (now : timestamp)
    (userId courseId : uuid) : AccessResult :=
  match head (filter (λ e, e_user_id e = userId ∧ e_course_id e = courseId)
                     (enrollments db)) with
  | None =>
      createAccessResult now false "NOT_ENROLLED"
        "User not enrolled in course" MdEmpty
  | Some enrollment =>
      if negb (e_is_active enrollment) then
        createAccessResult now false "ENROLLMENT_INACTIVE"
          "Enrollment is inactive" MdEmpty
      else if in_past now (e_expires_at enrollment) then
        createAccessResult now false "ENROLLMENT_EXPIRED"
          "Enrollment has expired" MdEmpty
      else access_ok
  end.

Definition performAccessChecks (db : Database) (now : timestamp) (user : User)
    (content : Content) (contentType : string) : result AccessResult :=
  if negb (is_published content) then
    mret (createAccessResult now false "CONTENT_NOT_PUBLISHED"
            "Content is not published" MdEmpty)
  else if negb (is_verified user) then
    mret (createAccessResult now false "USER_NOT_VERIFIED"
            "Email verification required" MdEmpty)
  else
    let subscriptionCheck := checkSubscriptionAccess now user content in
    if negb (hasAccess subscriptionCheck) then mret subscriptionCheck
    else
      levelCheck ← checkLevelAccess db now (user_id user) content;
      if negb (hasAccess levelCheck) then mret levelCheck
      else
        let prerequisiteCheck :=
          checkPrerequisites db now (user_id user) content contentType in
        if negb (hasAccess prerequisiteCheck) then mret prerequisiteCheck
        else
          let enrollmentCheck :=
            if bool_decide (contentType = "course")
            then checkEnrollment db now (user_id user) (content_id content)
            else access_ok in
          if negb (hasAccess enrollmentCheck) then mret enrollmentCheck
          else mret (createAccessResult now true "ACCESS_GRANTED"
                       "Access granted" MdEmpty).

Definition user_not_found (now : timestamp) : AccessResult :=
  createAccessResult now false "USER_NOT_FOUND" "User not found" MdEmpty.

Definition content_not_found (now : timestamp) : AccessResult :=
  createAccessResult now false "CONTENT_NOT_FOUND" "Content not found" MdEmpty.

Definition system_error (now : timestamp) : AccessResult :=
  createAccessResult now false "SYSTEM_ERROR" "System error occurred" MdEmpty.

(** The access evaluation proper: the statements of [checkContentAccess]
    between its cache read and its cache write, inside the same
    [try]/[catch].  [checkContentAccess] below returns this decision after
    a cache miss. *)
Definition evaluate (db : Database) (now : timestamp)
    (userId contentId : uuid) (contentType : string) : AccessResult :=
  try_catch
    (match getUserWithSubscription db userId with
     | None => mret (user_not_found now)
     | Some user =>
         match getContentDetails db contentId contentType with
         | None => mret (content_not_found now)
         | Some content =>
             performAccessChecks db now user content contentType
         end
     end)
    (system_error now).

(** ** The cache *)

Inductive redis_command := GET | SETEX | KEYS | DEL.

Record course_summary := {
  cs_id : uuid;
  cs_title : string;
  cs_requiresSubscription : bool;
  cs_isFree : bool }.

(** The two families of keys are kept in two maps:
    [content_access:${userId}:${contentId}:${contentType}] and
    [accessible_content:${userId}:${level}].  Identifiers are UUIDs, which
    contain no [:], so the formatted key determines its components.  Each
    entry carries the instant at which it expires.  [faulty] tells which
    commands raise (an unreachable or failing server). *)
Record Redis := {
  access_entries : gmap (uuid * uuid * string) (AccessResult * timestamp);
  accessible_entries : gmap (uuid * string) (list course_summary * timestamp);
  faulty : redis_command → bool }.

Record World := {
  w_db : Database;
  w_redis : Redis }.

(** Asynchronous methods: they read and write the world and may throw. *)
Definition op (A : Type) : Type := World → result A * World.

#[global] Instance op_ret : MRet op := λ _ a w, (Ok a, w).
#[global] Instance op_bind : MBind op := λ _ _ f m w,
  match m w with
  | (Ok a, w') => f a w'
  | (Throw e, w') => (Throw e, w')
  end.

Definition db_read {A} (query : Database → A) : op A :=
  λ w, (Ok (query (w_db w)), w).

Definition db_query {A} (query : Database → result A) : op A :=
  λ w, (query (w_db w), w).

(** [try { return body } catch (error) { return handler }] *)
Definition catching {A} (body : op A) (handler : A) : World → A * World :=
  λ w, match body w with
       | (Ok a, w') => (a, w')
       | (Throw _, w') => (handler, w')
       end.

(** A method whose body is wrapped in such a [try]/[catch], seen by its
    callers. *)
Definition caught {A} (f : World → A * World) : op A :=
  λ w, let '(a, w') := f w in (Ok a, w').

Definition live {A} (now : timestamp) (entry : option (A * timestamp))
  : option A :=
  match entry with
  | Some (v, expires) => if bool_decide (now < expires) then Some v else None
  | None => None
  end.

Definition set_access_entries
    (m : gmap (uuid * uuid * string) (AccessResult * timestamp)) (r : Redis)
  : Redis :=
  {| access_entries := m;
     accessible_entries := accessible_entries r;
     faulty := faulty r |}.

Definition set_accessible_entries
    (m : gmap (uuid * string) (list course_summary * timestamp)) (r : Redis)
  : Redis :=
  {| access_entries := access_entries r;
     accessible_entries := m;
     faulty := faulty r |}.

Definition with_redis (r : Redis) (w : World) : World :=
  {| w_db := w_db w; w_redis := r |}.

Definition redis_command_op {A} (cmd : redis_command)
    (run : Redis → A * Redis) : op A :=
  λ w, if faulty (w_redis w) cmd then (Throw RedisError, w)
       else let '(a, r) := run (w_redis w) in (Ok a, with_redis r w).

Definition redis_get_access (now : timestamp) (key : uuid * uuid * string)
  : op (option AccessResult) :=
  redis_command_op GET (λ r, (live now (access_entries r !! key), r)).

Definition redis_setex_access (now : timestamp) (key : uuid * uuid * string)
    (seconds : Z) (value : AccessResult) : op unit :=
  redis_command_op SETEX (λ r,
    (tt, set_access_entries
           (<[key := (value, now + seconds * 1000)]> (access_entries r)) r)).

Definition redis_get_accessible (now : timestamp) (key : uuid * string)
  : op (option (list course_summary)) :=
  redis_command_op GET (λ r, (live now (accessible_entries r !! key), r)).

Definition redis_setex_accessible (now : timestamp) (key : uuid * string)
    (seconds : Z) (value : list course_summary) : op unit :=
  redis_command_op SETEX (λ r,
    (tt, set_accessible_entries
           (<[key := (value, now + seconds * 1000)]> (accessible_entries r)) r)).

(** [KEYS content_access:${userId}:*]: the unexpired keys of the user. *)
Definition redis_keys_access (now : timestamp) (userId : uuid)
  : op (list (uuid * uuid * string)) :=
  redis_command_op KEYS (λ r,
    (fst <$> filter (λ kv, kv.1.1.1 = userId ∧ now < kv.2.2)
                    (map_to_list (access_entries r)), r)).

Definition redis_keys_accessible (now : timestamp) (userId : uuid)
  : op (list (uuid * string)) :=
  redis_command_op KEYS (λ r,
    (fst <$> filter (λ kv, kv.1.1 = userId ∧ now < kv.2.2)
                    (map_to_list (accessible_entries r)), r)).

Definition redis_del_access (keys : list (uuid * uuid * string)) : op unit :=
  redis_command_op DEL (λ r,
    (tt, set_access_entries (foldr delete (access_entries r) keys) r)).

Definition redis_del_accessible (keys : list (uuid * string)) : op unit :=
  redis_command_op DEL (λ r,
    (tt, set_accessible_entries (foldr delete (accessible_entries r) keys) r)).

(** ** The public operations *)

Definition checkContentAccess (now : timestamp) (userId contentId : uuid)
    (contentType : string) : World → AccessResult * World :=
  catching
    (let cacheKey := (userId, contentId, contentType) in
     cached ← redis_get_access now cacheKey;
     match cached with
     | Some cached => mret cached
     | None =>
         user ← db_read (λ db, getUserWithSubscription db userId);
         match user with
         | None => mret (user_not_found now)
         | Some user =>
             content ←
               db_read (λ db, getContentDetails db contentId contentType);
             match content with
             | None => mret (content_not_found now)
             | Some content =>
                 accessResult ←
                   db_query (λ db, performAccessChecks db now user content
                                     contentType);
                 redis_setex_access now cacheKey 300 accessResult;;
                 mret accessResult
             end
         end
     end)
    (system_error now).

Definition parse_level (s : string) : option ContentLevel :=
  if bool_decide (s = "beginner") then Some beginner
  else if bool_decide (s = "intermediate") then Some intermediate
  else if bool_decide (s = "advanced") then Some advanced
  else None.

Definition summary_of_course (course : course_row) : course_summary :=
  {| cs_id := c_id course;
     cs_title := c_title course;
     cs_requiresSubscription := c_requires_subscription course;
     cs_isFree := c_is_free course |}.

(** [for (const course of courses) { ... accessibleCourses.push(...) }] *)
Fixpoint accessible_loop (now : timestamp) (userId : uuid)
    (courses : list course_row) (accessibleCourses : list course_summary)
  : op (list course_summary) :=
  match courses with
  | [] => mret accessibleCourses
  | course :: rest =>
      access ← caught (checkContentAccess now userId (c_id course) "course");
      accessible_loop now userId rest
        (if hasAccess access
         then accessibleCourses ++ [summary_of_course course]
         else accessibleCourses)
  end.

(** The courses table is taken to list its rows by [created_at]; a level
    that is not a value of the enumeration makes the query raise. *)
Definition getAccessibleContent (now : timestamp) (userId : uuid)
    (lvl : string) : op (list course_summary) :=
  let cacheKey := (userId, lvl) in
  cached ← redis_get_accessible now cacheKey;
  match cached with
  | Some cached => mret cached
  | None =>
      courses ← db_query (λ db,
        match parse_level lvl with
        | Some l =>
            Ok (filter (λ c, c_level c = l ∧ c_is_published c = true)
                       (courses db))
        | None => Throw InvalidEnumValue
        end);
      accessibleCourses ← accessible_loop now userId courses [];
      redis_setex_accessible now cacheKey 600 accessibleCourses;;
      mret accessibleCourses
  end.

Definition clearUserContentCache (now : timestamp) (userId : uuid) : op unit :=
  keys ← redis_keys_access now userId;
  (if bool_decide (Z.of_nat (length keys) > 0)
   then redis_del_access keys else mret ());;
  accessibleKeys ← redis_keys_accessible now userId;
  if bool_decide (Z.of_nat (length accessibleKeys) > 0)
  then redis_del_accessible accessibleKeys else mret ().

Record EnrollResult := {
  success : bool;
  enroll_message : option string;
  enroll_code : option string;
  enrollmentId : option uuid }.

Definition existing_enrollments (db : Database) (userId courseId : uuid)
  : list enrollment_row :=
  filter (λ e, e_user_id e = userId ∧ e_course_id e = courseId)
         (enrollments db).

Definition with_enrollments (es : list enrollment_row) (db : Database)
  : Database :=
  {| users := users db;
     subscriptions := subscriptions db;
     courses := courses db;
     modules := modules db;
     lessons := lessons db;
     user_progress := user_progress db;
     enrollments := es |}.

(** [INSERT INTO enrollments (user_id, course_id, enrolled_at) ... RETURNING
    id], with the constraints of the table: the primary key, UNIQUE(user_id,
    course_id) and the two foreign keys.  [new_id] is the identifier that
    [uuid_generate_v4()] draws. *)
Definition insert_enrollment (new_id userId courseId : uuid) : op uuid :=
  λ w,
    let db := w_db w in
    if bool_decide (Exists (λ e, e_id e = new_id
                                 ∨ (e_user_id e = userId
                                    ∧ e_course_id e = courseId))
                           (enrollments db))
    then (Throw UniqueViolation, w)
    else if bool_decide (Exists (λ u, u_id u = userId) (users db)
                         ∧ Exists (λ c, c_id c = courseId) (courses db))
    then
      let row := {| e_id := new_id; e_user_id := userId;
                    e_course_id := courseId; e_is_active := true;
                    e_expires_at := None |} in
      (Ok new_id,
       {| w_db := with_enrollments (enrollments db ++ [row]) db;
          w_redis := w_redis w |})
    else (Throw ForeignKeyViolation, w).

Definition enroll_denied (access : AccessResult) : EnrollResult :=
  {| success := false;
     enroll_message := message access;
     enroll_code := code access;
     enrollmentId := None |}.

Definition already_enrolled : EnrollResult :=
  {| success := false;
     enroll_message := Some "User already enrolled in course";
     enroll_code := Some "ALREADY_ENROLLED";
     enrollmentId := None |}.

Definition enroll_system_error : EnrollResult :=
  {| success := false;
     enroll_message := Some "System error occurred";
     enroll_code := Some "SYSTEM_ERROR";
     enrollmentId := None |}.

(** The statements from [// Create enrollment] to the end of the [try]
    block. *)
Definition create_enrollment (new_id : uuid) (now : timestamp)
    (userId courseId : uuid) : op EnrollResult :=
  result ← insert_enrollment new_id userId courseId;
  clearUserContentCache now userId;;
  mret {| success := true;
          enroll_message := Some "Successfully enrolled in course";
          enroll_code := None;
          enrollmentId := Some result |}.

Definition enrollUser (new_id : uuid) (now : timestamp)
    (userId courseId : uuid) : World → EnrollResult * World :=
  catching
    (access ← caught (checkContentAccess now userId courseId "course");
     if negb (hasAccess access) then mret (enroll_denied access)
     else
       existingEnrollment ←
         db_read (λ db, existing_enrollments db userId courseId);
       if bool_decide (Z.of_nat (length existingEnrollment) > 0)
       then mret already_enrolled
       else create_enrollment new_id now userId courseId)
    enroll_system_error.

(** ** check_content_access (PL/pgSQL)

    The level gate as the schema implements it.  The average is assigned to
    a DECIMAL(5,2) variable, hence rounded to two decimals, before it is
    compared with 80. *)
Definition level_average (db : Database) (p_user_id : uuid)
    (lvl : ContentLevel) : result (option Z) :=
  completions ←
    mapM (λ c, calculate_course_completion db p_user_id (c_id c))
         (filter (λ c, c_level c = lvl ∧ c_is_published c = true) (courses db));
  match AVG (decimal_value <$> completions) with
  | None => mret None
  | Some avg =>
      rounded ← to_decimal_5_2 (Qfloor (avg * 100 + (1 # 2))%Q);
      mret (Some rounded)
  end.

Definition check_content_access (db : Database) (p_user_id p_course_id : uuid)
  : result bool :=
  let course_level :=
    c_level <$> head (filter (λ c, c_id c = p_course_id) (courses db)) in
  match course_level with
  | Some beginner => mret true
  | Some intermediate =>
      beginner_completion ← level_average db p_user_id beginner;
      mret (bool_decide (default 0 beginner_completion >= 8000))
  | Some advanced =>
      intermediate_completion ← level_average db p_user_id intermediate;
      mret (bool_decide (default 0 intermediate_completion >= 8000))
  | None => mret false
  end.

(** ** The completion percentage in the words of the specification *)

Definition lesson_completed (db : Database) (userId : uuid) (l : lesson_row)
  : Prop :=
  Exists (λ up, up_user_id up = userId ∧ up_lesson_id up = Some (l_id l)
                ∧ up_status up = completed) (user_progress db).

Definition totalLessonCount (db : Database) (courseId : uuid) : nat :=
  length (course_lessons db courseId).

Definition completedLessonCount (db : Database) (userId courseId : uuid) : nat :=
  length (filter (λ lm, lesson_completed db userId lm.1)
                 (course_lessons db courseId)).

Definition one_record_per_lesson (db : Database) : Prop :=
  ∀ userId lessonId,
    (length (filter (λ up, up_user_id up = userId
                           ∧ up_lesson_id up = Some lessonId)
                    (user_progress db)) ≤ 1)%nat.


Definition lesson_in_course (courseId : uuid) (l : lesson_row)
    (m : module_row) : Prop :=
  l_module_id l = m_id m ∧ m_course_id m = courseId.

Definition progress_on (userId : uuid) (l : lesson_row) (up : progress_row)
  : Prop :=
  up_user_id up = userId ∧ up_lesson_id up = Some (l_id l)
  ∧ up_status up = completed.

#[global] Instance lesson_in_course_dec c l m : Decision (lesson_in_course c l m).
Proof. unfold lesson_in_course. apply _. Defined.
#[global] Instance progress_on_dec u l up : Decision (progress_on u l up).
Proof. unfold progress_on. apply _. Defined.


(** ** The pipeline in the words of the specification *)

(** The first two checks of [performAccessChecks], which the source writes
    inline. *)
Definition check_published (now : timestamp) (content : Content)
  : AccessResult :=
  if is_published content then access_ok
  else createAccessResult now false "CONTENT_NOT_PUBLISHED"
         "Content is not published" MdEmpty.

Definition check_verified (now : timestamp) (user : User) : AccessResult :=
  if is_verified user then access_ok
  else createAccessResult now false "USER_NOT_VERIFIED"
         "Email verification required" MdEmpty.

(** The checks in the published order: published, verified, subscription,
    level gate, prerequisites, enrollment (for a course only). *)
Definition access_checks (db : Database) (now : timestamp) (user : User)
    (content : Content) (contentType : string) : list (result AccessResult) :=
  [ Ok (check_published now content);
    Ok (check_verified now user);
    Ok (checkSubscriptionAccess now user content);
    checkLevelAccess db now (user_id user) content;
    Ok (checkPrerequisites db now (user_id user) content contentType);
    Ok (if bool_decide (contentType = "course")
        then checkEnrollment db now (user_id user) (content_id content)
        else access_ok) ].

Definition passes (check : result AccessResult) : Prop :=
  ∃ r, check = Ok r ∧ hasAccess r = true.

Definition fails_with (check : result AccessResult) (r : AccessResult) : Prop :=
  check = Ok r ∧ hasAccess r = false.

Definition access_granted (now : timestamp) : AccessResult :=
  createAccessResult now true "ACCESS_GRANTED" "Access granted" MdEmpty.

(** Running a list of checks in order and stopping at the first one that
    does not pass. *)
Fixpoint first_failure (now : timestamp) (checks : list (result AccessResult))
  : result AccessResult :=
  match checks with
  | [] => Ok (access_granted now)
  | Ok r :: rest => if hasAccess r then first_failure now rest else Ok r
  | Throw e :: _ => Throw e
  end.

(** Subscription state, as the specification words it. *)
Definition subscription_active (user : User) : Prop :=
  subscription_status user = Some active.

Definition period_elapsed (now : timestamp) (user : User) : Prop :=
  ∃ t, current_period_end user = Some t ∧ t < now.

Definition trial_running (now : timestamp) (user : User) : Prop :=
  ∃ t, trial_end user = Some t ∧ now < t.

(** ** Concrete stores for the examples

    Identifiers are abbreviated: ["u1"] stands for the UUID of a user,
    ["C1"] of a course, ["M1"] of a module, ["L1"] of a lesson. *)

Definition course (id : uuid) (lvl : ContentLevel)
    (published free subscription : bool) (prereqs : list uuid) : course_row :=
  {| c_id := id; c_title := "Course " +:+ id; c_level := lvl;
     c_is_published := published; c_is_free := free;
     c_requires_subscription := subscription;
     c_prerequisites := Some prereqs |}.

Definition progress (userId courseId : uuid) (moduleId lessonId : option uuid)
    (status : ProgressStatus) : progress_row :=
  {| up_user_id := userId; up_course_id := courseId;
     up_module_id := moduleId; up_lesson_id := lessonId;
     up_status := status |}.

Definition with_progress (ups : list progress_row) (db : Database) : Database :=
  {| users := users db;
     subscriptions := subscriptions db;
     courses := courses db;
     modules := modules db;
     lessons := lessons db;
     user_progress := ups;
     enrollments := enrollments db |}.

Definition with_users (us : list user_row) (db : Database) : Database :=
  {| users := us;
     subscriptions := subscriptions db;
     courses := courses db;
     modules := modules db;
     lessons := lessons db;
     user_progress := user_progress db;
     enrollments := enrollments db |}.

(** One free beginner course with two modules of one lesson each, the
    second module requiring the first; an unpublished course; three users:
    ["u1"] active and verified, ["u2"] deactivated, ["u3"] unverified.
    ["u1"] has started module ["M1"]. *)
Definition academy : Database :=
  {| users :=
       [ {| u_id := "u1"; u_is_active := true; u_is_verified := true |};
         {| u_id := "u2"; u_is_active := false; u_is_verified := true |};
         {| u_id := "u3"; u_is_active := true; u_is_verified := false |} ];
     subscriptions := [];
     courses := [ course "C1" beginner true true false [];
                  course "C0" beginner false true false [] ];
     modules := [ {| m_id := "M1"; m_course_id := "C1";
                     m_prerequisites := Some [] |};
                  {| m_id := "M2"; m_course_id := "C1";
                     m_prerequisites := Some ["M1"] |} ];
     lessons := [ {| l_id := "L1"; l_module_id := "M1" |};
                  {| l_id := "L2"; l_module_id := "M2" |} ];
     user_progress := [ progress "u1" "C1" (Some "M1") None in_progress ];
     enrollments := [] |}.

(** The same store once ["u1"] has also completed lesson ["L1"] of module
    ["M1"], the module itself still being in progress. *)
Definition academy_lesson_done : Database :=
  with_progress
    [ progress "u1" "C1" (Some "M1") None in_progress;
      progress "u1" "C1" (Some "M1") (Some "L1") completed ]
    academy.

(** A subscriber whose paid period has lapsed while a trial end date still
    lies ahead, a learner on a trial after cancelling, and a course that
    requires a subscription. *)
Definition lapsed_subscriber : User :=
  {| user_id := "u4"; is_verified := true; plan := Some "pro";
     subscription_status := Some active;
     current_period_end := Some 1000;
     trial_end := Some 3000 |}.

Definition trial_learner : User :=
  {| user_id := "u5"; is_verified := true; plan := Some "pro";
     subscription_status := Some cancelled;
     current_period_end := None;
     trial_end := Some 3000 |}.

Definition premium_course : Content :=
  content_of_course (course "C9" beginner true false true []).

(** [n] lessons of a module, and the progress rows of a user who completed
    the first [k] of them. *)
Definition lessons_of (moduleId : uuid) (n : nat) : list lesson_row :=
  (λ i, {| l_id := moduleId +:+ "-" +:+ pretty i; l_module_id := moduleId |})
    <$> seq 1 n.

Definition completed_lessons (userId courseId moduleId : uuid) (k : nat)
  : list progress_row :=
  (λ i, progress userId courseId (Some moduleId)
          (Some (moduleId +:+ "-" +:+ pretty i)) completed) <$> seq 1 k.

(** Two published beginner courses: ["A"] with 4 lessons, 3 of them
    completed by ["u1"] (75.00), and ["B"] with 13 lessons, 11 of them
    completed (84.62); one intermediate course ["C2"] with a module
    ["MC"]. *)
Definition gate_db : Database :=
  {| users := [ {| u_id := "u1"; u_is_active := true; u_is_verified := true |} ];
     subscriptions := [];
     courses := [ course "A" beginner true true false [];
                  course "B" beginner true true false [];
                  course "C2" intermediate true true false [] ];
     modules := [ {| m_id := "MA"; m_course_id := "A"; m_prerequisites := None |};
                  {| m_id := "MB"; m_course_id := "B"; m_prerequisites := None |};
                  {| m_id := "MC"; m_course_id := "C2";
                     m_prerequisites := None |} ];
     lessons := lessons_of "MA" 4 ++ lessons_of "MB" 13;
     user_progress := completed_lessons "u1" "A" "MA" 3
                        ++ completed_lessons "u1" "B" "MB" 11;
     enrollments := [] |}.

(** Scenario C of the specification: ["A"] is the only published beginner
    course. *)
Definition gate_db_single : Database :=
  {| users := users gate_db;
     subscriptions := [];
     courses := [ course "A" beginner true true false [];
                  course "C2" intermediate true true false [] ];
     modules := modules gate_db;
     lessons := lessons gate_db;
     user_progress := user_progress gate_db;
     enrollments := [] |}.

(** ** Prerequisites in the words of the specification *)

(** The status of a user's progress record at course granularity (no module,
    no lesson) and at module granularity (no lesson). *)
Definition course_level_status (db : Database) (userId courseId : uuid)
  : option ProgressStatus :=
  up_status <$>
    head (filter (λ up, up_user_id up = userId ∧ up_course_id up = courseId
                        ∧ up_module_id up = None ∧ up_lesson_id up = None)
                 (user_progress db)).

Definition module_level_status (db : Database) (userId moduleId : uuid)
  : option ProgressStatus :=
  up_status <$>
    head (filter (λ up, up_user_id up = userId
                        ∧ up_module_id up = Some moduleId
                        ∧ up_lesson_id up = None)
                 (user_progress db)).

(** What the query of [checkPrerequisites] establishes for one
    prerequisite: some completed progress row of the user carries the
    identifier in the joined column. *)
Definition prerequisite_met (db : Database) (contentType : string)
    (userId prerequisite_id : uuid) : Prop :=
  Exists (progress_matches contentType userId prerequisite_id)
         (user_progress db).

Definition incomplete_prerequisites (db : Database) (contentType : string)
    (userId : uuid) (prerequisiteIds : list uuid) : list uuid :=
  filter (λ p, ¬ prerequisite_met db contentType userId p) prerequisiteIds.

(** A progress record at the granularity that matches the content type of
    a prerequisite: a course-level record (no module, no lesson) for a
    course prerequisite, a module-level record (no lesson) otherwise. *)
Definition at_granularity (contentType : string) (up : progress_row) : Prop :=
  up_lesson_id up = None
  ∧ (contentType = "course" → up_module_id up = None).


(** The record of a user for a prerequisite at that granularity. *)
Definition granular_record (contentType : string)
    (userId prerequisite_id : uuid) (up : progress_row) : Prop :=
  up_user_id up = userId
  ∧ joined_column contentType up = Some prerequisite_id
  ∧ at_granularity contentType up.

#[global] Instance granular_record_dec t u p up :
  Decision (granular_record t u p up).
Proof. unfold granular_record, at_granularity. apply _. Defined.

(** Stores whose progress records are kept at the granularity of the
    prerequisites: for each prerequisite, the completed records of the user
    that carry its identifier in the joined column are records at the
    matching granularity, and the user has at most one record at that
    granularity. *)
Definition granular_records (db : Database) (contentType : string)
    (userId : uuid) (prerequisiteIds : list uuid) : Prop :=
  Forall (λ p,
    Forall (λ up, progress_matches contentType userId p up →
                  at_granularity contentType up) (user_progress db)
    ∧ Z.of_nat (length (filter (granular_record contentType userId p)
                               (user_progress db))) ≤ 1)
    prerequisiteIds.

#[global] Instance granular_records_dec db t u ps :
  Decision (granular_records db t u ps).
Proof. unfold granular_records, at_granularity. apply _. Defined.

(** ** Worlds *)

Definition no_faults : redis_command → bool := λ _, false.

(** A cache whose reads fail, and one whose writes fail. *)
Definition reads_fail : redis_command → bool :=
  λ cmd, match cmd with GET => true | _ => false end.

Definition writes_fail : redis_command → bool :=
  λ cmd, match cmd with SETEX => true | _ => false end.

Definition empty_cache (faults : redis_command → bool) : Redis :=
  {| access_entries := ∅; accessible_entries := ∅; faulty := faults |}.

Definition world (db : Database) (faults : redis_command → bool) : World :=
  {| w_db := db; w_redis := empty_cache faults |}.

Definition with_db (db : Database) (w : World) : World :=
  {| w_db := db; w_redis := w_redis w |}.

(** The cache raises during an access check: on its read, or on the write
    that follows a miss and a completed evaluation. *)
Definition cache_raises (now : timestamp) (userId contentId : uuid)
    (contentType : string) (w : World) : Prop :=
  faulty (w_redis w) GET = true
  ∨ (faulty (w_redis w) GET = false
     ∧ live now (access_entries (w_redis w) !! (userId, contentId, contentType))
       = None
     ∧ (∃ user content r,
          getUserWithSubscription (w_db w) userId = Some user
          ∧ getContentDetails (w_db w) contentId contentType = Some content
          ∧ performAccessChecks (w_db w) now user content contentType = Ok r)
     ∧ faulty (w_redis w) SETEX = true).

(** A course of three lessons of which ["u1"] completed one, and a course
    of one lesson for which ["u1"] has two completed progress rows, one
    recorded with the module and one without. *)
Definition thirds_db : Database :=
  {| users := [ {| u_id := "u1"; u_is_active := true; u_is_verified := true |} ];
     subscriptions := [];
     courses := [ course "C1" beginner true true false [] ];
     modules := [ {| m_id := "M1"; m_course_id := "C1";
                     m_prerequisites := None |} ];
     lessons := lessons_of "M1" 3;
     user_progress := completed_lessons "u1" "C1" "M1" 1;
     enrollments := [] |}.

Definition duplicate_db : Database :=
  {| users := users thirds_db;
     subscriptions := [];
     courses := courses thirds_db;
     modules := modules thirds_db;
     lessons := lessons_of "M1" 1;
     user_progress := [ progress "u1" "C1" (Some "M1") (Some "M1-1") completed;
                        progress "u1" "C1" None (Some "M1-1") completed ];
     enrollments := [] |}.

Definition enrolled (id : uuid) : EnrollResult :=
  {| success := true;
     enroll_message := Some "Successfully enrolled in course";
     enroll_code := None;
     enrollmentId := Some id |}.

(** The outcome of the INSERT as a function of the store. *)
Definition insert_outcome (db : Database) (new_id userId courseId : uuid)
  : result uuid :=
  (insert_enrollment new_id userId courseId
     {| w_db := db; w_redis := empty_cache no_faults |}).1.

(** The store once ["u3"] has verified the e-mail address, and the world in
    which the access of ["u3"] to course ["C1"] was checked at instant 1000,
    before that verification. *)
Definition academy_verified : Database :=
  with_users
    [ {| u_id := "u1"; u_is_active := true; u_is_verified := true |};
      {| u_id := "u2"; u_is_active := false; u_is_verified := true |};
      {| u_id := "u3"; u_is_active := true; u_is_verified := true |} ]
    academy.

Definition stale_world : World :=
  with_db academy_verified
    (checkContentAccess 1000 "u3" "C1" "course" (world academy no_faults)).2.

(** A world over [academy] whose cache holds an entry for another key. *)
Definition warm_world : World :=
  (checkContentAccess 1000 "u1" "M1" "module" (world academy no_faults)).2.

(** ** Reachable worlds *)

(** A step of the world: an operation of the service, or a change made by
    the surroundings, which may rewrite every table but [enrollments], may
    drop cache entries (expiry, eviction) and may change the faults of the
    cache. *)
Inductive engine_step : World → World → Prop :=
  | step_checkContentAccess now userId contentId contentType w :
      engine_step w (checkContentAccess now userId contentId contentType w).2
  | step_getAccessibleContent now userId lvl w :
      engine_step w (getAccessibleContent now userId lvl w).2
  | step_clearUserContentCache now userId w :
      engine_step w (clearUserContentCache now userId w).2
  | step_enrollUser new_id now userId courseId w :
      engine_step w (enrollUser new_id now userId courseId w).2
  | step_surroundings w db r :
      enrollments db = enrollments (w_db w) →
      access_entries r ⊆ access_entries (w_redis w) →
      engine_step w {| w_db := db; w_redis := r |}.

(** The worlds reached from an empty cache. *)
Inductive reachable : World → Prop :=
  | reachable_initial db faults : reachable (world db faults)
  | reachable_step w w' : reachable w → engine_step w w' → reachable w'.

(** Every cached decision that grants a course is backed by an enrollment
    row. *)
Definition cache_consistent (w : World) : Prop :=
  ∀ userId courseId v expires,
    access_entries (w_redis w) !! (userId, courseId, "course")
      = Some (v, expires) →
    hasAccess v = true →
    existing_enrollments (w_db w) userId courseId ≠ [].

(** [w'] keeps no cache entry and loses no enrollment with respect to
    [w]. *)
Definition narrows (w w' : World) : Prop :=
  access_entries (w_redis w') ⊆ access_entries (w_redis w)
  ∧ ∀ userId courseId,
      existing_enrollments (w_db w) userId courseId ≠ [] →
      existing_enrollments (w_db w') userId courseId ≠ [].

(** ** Two calls of enrollUser in flight

    A call of [enrollUser] is cut at its own [await]s: the access check,
    the SELECT of an existing enrollment, the INSERT, the clearing of the
    cache.  Between two of these steps the other call may run; the access
    check and the clearing of the cache, which await the store and the
    cache in turn, are taken as one step each.  The [try]/[catch] of the
    method surrounds every step. *)
Inductive enroll_pc :=
  | AtAccessCheck
  | AtSelect
  | AtInsert
  | AtClearCache (id : uuid)
  | Returned (res : EnrollResult).

Definition enroll_step (new_id : uuid) (now : timestamp)
    (userId courseId : uuid) (pc : enroll_pc) (w : World)
  : enroll_pc * World :=
  match pc with
  | AtAccessCheck =>
      let '(access, w1) := checkContentAccess now userId courseId "course" w in
      (if negb (hasAccess access) then Returned (enroll_denied access)
       else AtSelect, w1)
  | AtSelect =>
      (if bool_decide
            (Z.of_nat (length (existing_enrollments (w_db w) userId courseId))
             > 0)
       then Returned already_enrolled else AtInsert, w)
  | AtInsert =>
      match insert_enrollment new_id userId courseId w with
      | (Ok id, w1) => (AtClearCache id, w1)
      | (Throw _, w1) => (Returned enroll_system_error, w1)
      end
  | AtClearCache id =>
      match clearUserContentCache now userId w with
      | (Ok _, w1) => (Returned (enrolled id), w1)
      | (Throw _, w1) => (Returned enroll_system_error, w1)
      end
  | Returned res => (Returned res, w)
  end.

(** Two calls for the same user and course, each with its own clock
    reading and its own fresh identifier, over one world. *)
Record race := {
  call_a : enroll_pc;
  call_b : enroll_pc;
  race_world : World }.

Record race_calls := {
  id_a : uuid; now_a : timestamp;
  id_b : uuid; now_b : timestamp;
  race_user : uuid; race_course : uuid }.

Definition race_start (w : World) : race :=
  {| call_a := AtAccessCheck; call_b := AtAccessCheck; race_world := w |}.

(** One step of the call whose turn it is. *)
Definition race_step (calls : race_calls) (s : race) (turn_a : bool) : race :=
  if turn_a then
    let '(pc, w) := enroll_step (id_a calls) (now_a calls) (race_user calls)
                      (race_course calls) (call_a s) (race_world s) in
    {| call_a := pc; call_b := call_b s; race_world := w |}
  else
    let '(pc, w) := enroll_step (id_b calls) (now_b calls) (race_user calls)
                      (race_course calls) (call_b s) (race_world s) in
    {| call_a := call_a s; call_b := pc; race_world := w |}.

Definition run_race (calls : race_calls) (schedule : list bool) (s : race)
  : race :=
  foldl (race_step calls) s schedule.

(** What a call in flight may be at, in a world where the cache is
    consistent: it has not passed the SELECT. *)
Definition call_held (userId courseId : uuid) (w : World) (pc : enroll_pc)
  : Prop :=
  match pc with
  | AtAccessCheck => True
  | AtSelect => existing_enrollments (w_db w) userId courseId ≠ []
  | AtInsert | AtClearCache _ => False
  | Returned res => success res = false
  end.

(** The store of [academy] with ["u1"] enrolled in ["C1"], and the world in
    which that enrollment was granted and cached at instant 1000 and the
    row was then removed by the surroundings. *)
Definition academy_enrolled : Database :=
  with_enrollments
    [ {| e_id := "E0"; e_user_id := "u1"; e_course_id := "C1";
         e_is_active := true; e_expires_at := None |} ]
    academy.

Definition orphan_world : World :=
  with_db academy
    (checkContentAccess 1000 "u1" "C1" "course"
       (world academy_enrolled no_faults)).2.

Definition two_calls : race_calls :=
  {| id_a := "E1"; now_a := 2000; id_b := "E2"; now_b := 2000;
     race_user := "u1"; race_course := "C1" |}.

(** ** Proof tactics *)

(** Closes a goal whose hypotheses hold a conjunction of facts and the
    negation of a rearrangement of them. *)
Ltac absurd_conj :=
  exfalso;
  first
    [ tauto
    | repeat match goal with H : _ ∧ _ |- _ => destruct H end;
      match goal with H : ¬ _ |- _ => apply H; repeat split; assumption end ].

(** Unfolds the sequencing of asynchronous methods. *)
Ltac op_unfold :=
  unfold catching, caught, mbind, op_bind, mret, op_ret, db_read, db_query,
    redis_command_op.

(** ** Further notions used by the properties of the service *)

(** The decision codes that an evaluation can answer. *)
Definition evaluation_codes : list string :=
  [ "ACCESS_GRANTED"; "CONTENT_NOT_PUBLISHED"; "USER_NOT_VERIFIED";
    "SUBSCRIPTION_REQUIRED"; "SUBSCRIPTION_EXPIRED";
    "PREREQUISITE_LEVEL_NOT_COMPLETED"; "PREREQUISITES_NOT_MET";
    "NOT_ENROLLED"; "ENROLLMENT_INACTIVE"; "ENROLLMENT_EXPIRED";
    "CONTENT_NOT_FOUND"; "USER_NOT_FOUND"; "SYSTEM_ERROR" ].

Definition enrollment_expired (now : timestamp) (e : enrollment_row) : Prop :=
  ∃ t, e_expires_at e = Some t ∧ t < now.

(** The shape of a decision made at instant [now]: a code of the list, a
    message, the instant, [hasAccess] exactly for ACCESS_GRANTED, and the
    metadata that go with the code: the threshold 80 and a completion below
    it for PREREQUISITE_LEVEL_NOT_COMPLETED, a non-empty list of
    identifiers for PREREQUISITES_NOT_MET, none for every other code. *)
Definition decision_shape (now : timestamp) (r : AccessResult) : Prop :=
  timestamp_of r = Some now
  ∧ is_Some (message r)
  ∧ ∃ k, code r = Some k
       ∧ k ∈ evaluation_codes
       ∧ (hasAccess r = true ↔ k = "ACCESS_GRANTED")
       ∧ (k = "PREREQUISITE_LEVEL_NOT_COMPLETED" →
          ∃ current, metadata r = Some (MdLevel 80 current) ∧ current < 80)
       ∧ (k = "PREREQUISITES_NOT_MET" →
          ∃ ids, metadata r = Some (MdPrerequisites ids) ∧ ids ≠ [])
       ∧ (k ≠ "PREREQUISITE_LEVEL_NOT_COMPLETED" →
          k ≠ "PREREQUISITES_NOT_MET" →
          metadata r = Some MdEmpty).

(** The primary keys of the schema: [id] is unique in each of the four
    tables that the lookups read. *)
Record primary_keys (db : Database) : Prop := {
  users_pk : NoDup (u_id <$> users db);
  courses_pk : NoDup (c_id <$> courses db);
  modules_pk : NoDup (m_id <$> modules db);
  lessons_pk : NoDup (l_id <$> lessons db) }.

(** The codes of the enrollment step. *)
Definition enrollment_codes : list string :=
  [ "NOT_ENROLLED"; "ENROLLMENT_INACTIVE"; "ENROLLMENT_EXPIRED" ].

Definition with_courses (cs : list course_row) (db : Database) : Database :=
  {| users := users db;
     subscriptions := subscriptions db;
     courses := cs;
     modules := modules db;
     lessons := lessons db;
     user_progress := user_progress db;
     enrollments := enrollments db |}.

(** [academy] with the premium course ["C9"] added. *)
Definition academy_premium : Database :=
  with_courses (courses academy ++ [course "C9" beginner true false true []])
    academy.

(** The sum of DECIMAL(5,2) values, in hundredths. *)
Definition sum_hundredths (hs : list Z) : Z := foldr Z.add 0 hs.

(** The level below a level; the name under which [checkLevelAccess]
    reports it. *)
Definition lower_level (lvl : ContentLevel) : option (ContentLevel * string) :=
  match lvl with
  | beginner => None
  | intermediate => Some (beginner, "Beginner")
  | advanced => Some (intermediate, "Intermediate")
  end.

(** [gate_db] once ["u1"] has completed every lesson of both beginner
    courses. *)
Definition graduate_db : Database :=
  with_progress
    (completed_lessons "u1" "A" "MA" 4 ++ completed_lessons "u1" "B" "MB" 13)
    gate_db.

(** The progress records of one user. *)
Definition progress_of (userId : uuid) (ups : list progress_row)
  : list progress_row :=
  filter (λ up, up_user_id up = userId) ups.

(** The keys that [KEYS content_access:${userId}:*] and
    [KEYS accessible_content:${userId}:*] return at instant [now]. *)
Definition access_keys_of (now : timestamp) (userId : uuid)
    (m : gmap (uuid * uuid * string) (AccessResult * timestamp))
  : list (uuid * uuid * string) :=
  fst <$> filter (λ kv : (uuid * uuid * string) * (AccessResult * timestamp),
                    kv.1.1.1 = userId ∧ now < kv.2.2) (map_to_list m).

Definition accessible_keys_of (now : timestamp) (userId : uuid)
    (m : gmap (uuid * string) (list course_summary * timestamp))
  : list (uuid * string) :=
  fst <$> filter (λ kv : (uuid * string) * (list course_summary * timestamp),
                    kv.1.1 = userId ∧ now < kv.2.2) (map_to_list m).

(** The cache once the keys of a user are deleted. *)
Definition purged (now : timestamp) (userId : uuid) (r : Redis) : Redis :=
  {| access_entries :=
       foldr delete (access_entries r)
         (access_keys_of now userId (access_entries r));
     accessible_entries :=
       foldr delete (accessible_entries r)
         (accessible_keys_of now userId (accessible_entries r));
     faulty := faulty r |}.

Ltac no_keys H E :=
  match type of H with
  | ¬ Z.of_nat (length ?l) > 0 =>
      assert (l = []) as E by (destruct l; [reflexivity | simpl in H; lia]);
      clear H
  end.

(** The state in which [clearUserContentCache] leaves the world [w]: the
    store and the faults of the cache as they were, no live entry of the
    user in either family of keys, the entries of the other users as they
    were. *)
Definition cleared_for (now : timestamp) (userId : uuid) (w w' : World)
  : Prop :=
  w_db w' = w_db w
  ∧ faulty (w_redis w') = faulty (w_redis w)
  ∧ (∀ now' contentId contentType, now ≤ now' →
       live now' (access_entries (w_redis w')
                    !! (userId, contentId, contentType)) = None)
  ∧ (∀ now' lvl, now ≤ now' →
       live now' (accessible_entries (w_redis w') !! (userId, lvl)) = None)
  ∧ (∀ u contentId contentType, u ≠ userId →
       access_entries (w_redis w') !! (u, contentId, contentType)
       = access_entries (w_redis w) !! (u, contentId, contentType))
  ∧ (∀ u lvl, u ≠ userId →
       accessible_entries (w_redis w') !! (u, lvl)
       = accessible_entries (w_redis w) !! (u, lvl)).

(** The codes of the decisions that [checkContentAccess] returns without
    writing them to the cache. *)
Definition uncached_codes : list string :=
  [ "USER_NOT_FOUND"; "CONTENT_NOT_FOUND"; "SYSTEM_ERROR" ].

(** The row that the INSERT of [enrollUser] adds. *)
Definition new_enrollment (new_id userId courseId : uuid) : enrollment_row :=
  {| e_id := new_id; e_user_id := userId; e_course_id := courseId;
     e_is_active := true; e_expires_at := None |}.

(** The columns of UNIQUE(user_id, course_id). *)
Definition enrollment_key (e : enrollment_row) : uuid * uuid :=
  (e_user_id e, e_course_id e).

(** A cache whose KEYS command fails, and one whose DEL command fails. *)
Definition keys_fail : redis_command → bool :=
  λ cmd, match cmd with KEYS => true | _ => false end.

Definition deletes_fail : redis_command → bool :=
  λ cmd, match cmd with DEL => true | _ => false end.

Definition with_faults (faults : redis_command → bool) (w : World) : World :=
  {| w_db := w_db w;
     w_redis := {| access_entries := access_entries (w_redis w);
                   accessible_entries := accessible_entries (w_redis w);
                   faulty := faults |} |}.

#[global] Instance progress_row_eq_dec : EqDecision progress_row.
Proof. solve_decision. Defined.

(** A store in which ["u1"] has ten completed progress rows for the single
    lesson of the beginner course ["A"]: one recorded under the module of
    the lesson, nine under the modules of another course, as
    UNIQUE(user_id, course_id, module_id, lesson_id) admits. *)
Definition overflow_db : Database :=
  {| users := [ {| u_id := "u1"; u_is_active := true; u_is_verified := true |} ];
     subscriptions := [];
     courses := [ course "A" beginner true true false [];
                  course "C2" intermediate true true false [] ];
     modules := {| m_id := "MA"; m_course_id := "A"; m_prerequisites := None |}
                :: ((λ i, {| m_id := "X" +:+ pretty i; m_course_id := "C2";
                             m_prerequisites := None |}) <$> seq 1 9);
     lessons := lessons_of "MA" 1;
     user_progress :=
       progress "u1" "A" (Some "MA") (Some "MA-1") completed
       :: ((λ i, progress "u1" "C2" (Some ("X" +:+ pretty i)) (Some "MA-1")
                   completed) <$> seq 1 9);
     enrollments := [] |}.

(** [academy_premium] once ["u1"] holds a subscription. *)
Definition academy_subscribed : Database :=
  {| users := users academy_premium;
     subscriptions :=
       [ {| s_user_id := "u1"; s_plan := "pro"; s_status := active;
            s_current_period_end := Some 5000; s_trial_end := None |} ];
     courses := courses academy_premium;
     modules := modules academy_premium;
     lessons := lessons academy_premium;
     user_progress := user_progress academy_premium;
     enrollments := enrollments academy_premium |}.

(** * Properties *)

(** ** Counting over comprehensions *)

Section Counting.
Context {A : Type}.

Lemma sum_list_with_ext (f g : A → nat) (l : list A) :
  (∀ x, x ∈ l → f x = g x) → sum_list_with f l = sum_list_with g l.
Proof.
  induction l as [|x l IH]; intros Hfg; [done|]. simpl.
  rewrite (Hfg x) by left. rewrite IH; [done|].
  intros y Hy. apply Hfg. by right.
Qed.

Lemma sum_list_with_mono (f g : A → nat) (l : list A) :
  (∀ x, x ∈ l → (f x ≤ g x)%nat) →
  (sum_list_with f l ≤ sum_list_with g l)%nat.
Proof.
  induction l as [|x l IH]; intros Hfg; [done|]. simpl.
  specialize (Hfg x (list_elem_of_here _ _)) as Hx.
  assert (sum_list_with f l ≤ sum_list_with g l)%nat.
  { apply IH. intros y Hy. apply Hfg. by right. }
  lia.
Qed.

Lemma sum_list_with_zero (l : list A) : sum_list_with (λ _, 0%nat) l = 0%nat.
Proof. induction l; simpl; lia. Qed.

Lemma sum_list_with_plus (f g : A → nat) (l : list A) :
  sum_list_with (λ x, f x + g x)%nat l
  = (sum_list_with f l + sum_list_with g l)%nat.
Proof. induction l as [|x l IH]; simpl; [done|]. rewrite IH. lia. Qed.

Lemma length_filter_sum (P : A → Prop) `{!∀ x, Decision (P x)} (l : list A) :
  length (filter P l) = sum_list_with (λ x, if decide (P x) then 1 else 0)%nat l.
Proof.
  induction l as [|x l IH]; [done|].
  rewrite filter_cons. simpl. destruct (decide (P x)); simpl; lia.
Qed.
End Counting.

Section CountingPairs.
Context {A B : Type}.

Lemma length_bind (f : A → list B) (l : list A) :
  length (l ≫= f) = sum_list_with (λ x, length (f x)) l.
Proof.
  induction l as [|x l IH]; [done|].
  rewrite bind_cons, length_app, IH. done.
Qed.

Lemma sum_list_with_swap (g : A → B → nat) (xs : list A) (ys : list B) :
  sum_list_with (λ x, sum_list_with (g x) ys) xs
  = sum_list_with (λ y, sum_list_with (λ x, g x y) xs) ys.
Proof.
  induction xs as [|x xs IH]; simpl.
  - induction ys as [|y ys IHy]; simpl; [done|]. by rewrite <- IHy.
  - rewrite IH.
    rewrite <- (sum_list_with_plus (g x)
                  (λ y, sum_list_with (λ x', g x' y) xs) ys).
    done.
Qed.
End CountingPairs.

Section Completion.
Variable db : Database.
Variables userId courseId : uuid.

Lemma total_as_sum :
  length (course_lessons db courseId)
  = sum_list_with (λ l, sum_list_with
      (λ m, if decide (lesson_in_course courseId l m) then 1 else 0)%nat
      (modules db)) (lessons db).
Proof.
  unfold course_lessons. rewrite length_bind.
  apply sum_list_with_ext; intros l _. rewrite length_bind.
  apply sum_list_with_ext; intros m _.
  unfold lesson_in_course. case_bool_decide; destruct (decide _); done.
Qed.

Lemma completed_as_sum :
  length (completed_progress db userId courseId)
  = sum_list_with (λ l, sum_list_with
      (λ m, if decide (lesson_in_course courseId l m)
            then length (filter (progress_on userId l) (user_progress db))
            else 0)%nat (modules db))
      (lessons db).
Proof.
  unfold completed_progress. rewrite length_bind.
  rewrite (sum_list_with_ext _
    (λ up, sum_list_with (λ l, sum_list_with (λ m,
       if decide (lesson_in_course courseId l m ∧ progress_on userId l up)
       then 1 else 0)%nat
       (modules db)) (lessons db))).
  2:{ intros up _. rewrite length_bind.
      apply sum_list_with_ext; intros l _. rewrite length_bind.
      apply sum_list_with_ext; intros m _.
      unfold lesson_in_course, progress_on.
      case_bool_decide; destruct (decide _); try done; absurd_conj. }
  rewrite sum_list_with_swap.
  apply sum_list_with_ext; intros l _.
  rewrite sum_list_with_swap.
  apply sum_list_with_ext; intros m _.
  destruct (decide (lesson_in_course courseId l m)) as [Hin|Hout].
  - rewrite length_filter_sum. apply sum_list_with_ext; intros up _.
    destruct (decide (progress_on userId l up)), (decide (_ ∧ _));
      try done; absurd_conj.
  - rewrite (sum_list_with_ext _ (λ _, 0%nat)); [apply sum_list_with_zero|].
    intros up _. destruct (decide (_ ∧ _)); try done; absurd_conj.
Qed.
End Completion.

Lemma round_div_bounds (num den : Z) :
  0 < den →
  2 * den * round_div num den ≤ 2 * num + den
    < 2 * den * (round_div num den + 1).
Proof.
  intros Hden. unfold round_div.
  pose proof (Z.div_mod (2 * num + den) (2 * den)) as Hdm.
  pose proof (Z.mod_pos_bound (2 * num + den) (2 * den)) as Hmod.
  lia.
Qed.

Lemma length_filter_bind {A B} (P : B → Prop) `{!∀ x, Decision (P x)}
    (f : A → list B) (l : list A) :
  length (filter P (l ≫= f)) = sum_list_with (λ x, length (filter P (f x))) l.
Proof.
  induction l as [|x l IH]; [done|].
  rewrite bind_cons, filter_app, length_app, IH. done.
Qed.

Lemma length_filter_impl {A} (P Q : A → Prop) `{!∀ x, Decision (P x)}
    `{!∀ x, Decision (Q x)} (l : list A) :
  (∀ x, P x → Q x) → (length (filter P l) ≤ length (filter Q l))%nat.
Proof.
  intros HPQ. rewrite !length_filter_sum. apply sum_list_with_mono.
  intros x _. destruct (decide (P x)), (decide (Q x)); try lia.
  exfalso; auto.
Qed.

Lemma completed_rows_of_lesson db userId l :
  one_record_per_lesson db →
  length (filter (progress_on userId l) (user_progress db))
  = if decide (lesson_completed db userId l) then 1%nat else 0%nat.
Proof.
  intros Huniq.
  assert (length (filter (progress_on userId l) (user_progress db)) ≤ 1)%nat
    as Hle.
  { etrans; [|apply (Huniq userId (l_id l))].
    apply length_filter_impl. unfold progress_on. tauto. }
  destruct (decide (lesson_completed db userId l)) as [Hc|Hc].
  - apply Exists_exists in Hc as (up & Hin & Hup).
    assert (up ∈ filter (progress_on userId l) (user_progress db)) as Hmem.
    { apply list_elem_of_filter. split; [exact Hup|exact Hin]. }
    destruct (filter (progress_on userId l) (user_progress db)) as [|? ?].
    + by apply not_elem_of_nil in Hmem.
    + simpl in *. lia.
  - destruct (filter (progress_on userId l) (user_progress db))
      as [|up rest] eqn:Hf; [done|].
    exfalso. apply Hc. apply Exists_exists. exists up.
    assert (up ∈ filter (progress_on userId l) (user_progress db)) as Hmem.
    { rewrite Hf. left. }
    apply list_elem_of_filter in Hmem as [Hup Hin]. split; [exact Hin|exact Hup].
Qed.

Lemma completed_rows_count db userId courseId :
  one_record_per_lesson db →
  length (completed_progress db userId courseId)
  = completedLessonCount db userId courseId.
Proof.
  intros Huniq. rewrite completed_as_sum.
  unfold completedLessonCount, course_lessons.
  rewrite length_filter_bind.
  apply sum_list_with_ext; intros l _.
  rewrite length_filter_bind.
  apply sum_list_with_ext; intros m _.
  rewrite completed_rows_of_lesson by done.
  unfold lesson_in_course.
  case_bool_decide; destruct (decide (_ ∧ _)); try done; try absurd_conj.
  rewrite filter_cons, filter_nil. simpl.
  destruct (decide (lesson_completed db userId l)); done.
Qed.

Lemma completed_le_total db userId courseId :
  (completedLessonCount db userId courseId ≤ totalLessonCount db courseId)%nat.
Proof. apply length_filter. Qed.

Lemma nearest_hundredth (completed total : Z) :
  0 < total → 0 ≤ completed →
  (Qabs (decimal_value (round_div (completed * 10000) total)
         - inject_Z completed / inject_Z total * 100) <= 1 # 200)%Q.
Proof.
  intros Htotal Hcompleted.
  pose proof (round_div_bounds (completed * 10000) total Htotal) as Hb.
  set (h := round_div (completed * 10000) total) in *.
  apply Qabs_Qle_condition.
  destruct total as [|t|t]; try lia.
  unfold decimal_value, Qle, Qminus, Qplus, Qopp, Qdiv, Qmult, Qinv, inject_Z.
  simpl. split; nia.
Qed.

(** C5, amended.  With at most one progress record per user and lesson,
    the completion percentage is completedLessonCount / totalLessonCount *
    100 rounded to two decimals (the function returns a DECIMAL(5,2)); it is
    0 when the course has no lesson, and it lies in [0, 100].  The result
    [h] counts hundredths. *)
Theorem calculate_course_completion_rounded db userId courseId :
  one_record_per_lesson db →
  let total := Z.of_nat (totalLessonCount db courseId) in
  let completed := Z.of_nat (completedLessonCount db userId courseId) in
  ∃ h, calculate_course_completion db userId courseId = Ok h
     ∧ 0 ≤ h ≤ 10000
     ∧ (total = 0 → h = 0)
     ∧ (0 < total →
        (Qabs (decimal_value h - inject_Z completed / inject_Z total * 100)
         <= 1 # 200)%Q).
Proof.
  intros Huniq total completed.
  pose proof (completed_le_total db userId courseId) as Hle.
  unfold calculate_course_completion.
  rewrite (completed_rows_count db userId courseId Huniq).
  fold (totalLessonCount db courseId). fold total completed.
  assert (0 ≤ completed ≤ total) as Hrange by (unfold completed, total; lia).
  case_bool_decide as Hpos.
  - pose proof (round_div_bounds (completed * 10000) total ltac:(lia)) as Hb.
    set (h := round_div (completed * 10000) total) in *.
    assert (0 ≤ h ≤ 10000) as Hh by nia.
    exists h. unfold to_decimal_5_2. rewrite bool_decide_true by lia.
    split_and!; [done|lia|lia|lia|].
    intros _. apply nearest_hundredth; lia.
  - exists 0. unfold to_decimal_5_2. rewrite bool_decide_true by lia.
    split_and!; [done|lia|lia|done|lia].
Qed.

Lemma calculate_course_completion_rounded_witness :
  ∃ h, calculate_course_completion thirds_db "u1" "C1" = Ok h
     ∧ 0 ≤ h ≤ 10000
     ∧ (Z.of_nat (totalLessonCount thirds_db "C1") = 0 → h = 0)
     ∧ (0 < Z.of_nat (totalLessonCount thirds_db "C1") →
        (Qabs (decimal_value h
               - inject_Z (Z.of_nat (completedLessonCount thirds_db "u1" "C1"))
                 / inject_Z (Z.of_nat (totalLessonCount thirds_db "C1")) * 100)
         <= 1 # 200)%Q).
Proof.
  apply (calculate_course_completion_rounded thirds_db "u1" "C1").
  intros userId lessonId. etrans; [apply length_filter|].
  vm_compute. lia.
Defined.

(** C5 as stated fails.  One lesson of three gives 33.33, not 100/3: the
    function returns a DECIMAL(5,2).  And two completed progress rows on the
    only lesson of a course give 200.00, outside [0, 100]: the function
    counts progress rows, not lessons. *)
Lemma completion_not_the_exact_quotient :
  totalLessonCount thirds_db "C1" = 3%nat
  ∧ completedLessonCount thirds_db "u1" "C1" = 1%nat
  ∧ calculate_course_completion thirds_db "u1" "C1" = Ok 3333
  ∧ ¬ (decimal_value 3333 == inject_Z 1 / inject_Z 3 * 100)%Q
  ∧ totalLessonCount duplicate_db "C1" = 1%nat
  ∧ completedLessonCount duplicate_db "u1" "C1" = 1%nat
  ∧ calculate_course_completion duplicate_db "u1" "C1" = Ok 20000
  ∧ ¬ (decimal_value 20000 <= 100)%Q.
Proof.
  split_and!; try (vm_compute; reflexivity).
  - vm_compute. discriminate.
  - vm_compute. intros H. by apply H.
Qed.

(** ** The ordered pipeline *)

Lemma createAccessResult_hasAccess now b c m md :
  hasAccess (createAccessResult now b c m md) = b.
Proof. done. Qed.

Lemma checkSubscriptionAccess_code now user content :
  hasAccess (checkSubscriptionAccess now user content) = false →
  code (checkSubscriptionAccess now user content) = Some "SUBSCRIPTION_REQUIRED"
  ∨ code (checkSubscriptionAccess now user content) = Some "SUBSCRIPTION_EXPIRED".
Proof.
  unfold checkSubscriptionAccess.
  repeat (case_match; simpl; try done); auto.
Qed.

Lemma checkLevelAccess_code db now userId content r :
  checkLevelAccess db now userId content = Ok r →
  hasAccess r = false →
  code r = Some "PREREQUISITE_LEVEL_NOT_COMPLETED".
Proof.
  unfold checkLevelAccess.
  destruct (level content); simpl.
  - intros [= <-]; done.
  - destruct (getLevelCompletion db userId beginner); simpl; [|done].
    case_bool_decide; intros [= <-]; done.
  - destruct (getLevelCompletion db userId intermediate); simpl; [|done].
    case_bool_decide; intros [= <-]; done.
Qed.

Lemma checkPrerequisites_code db now userId content contentType :
  hasAccess (checkPrerequisites db now userId content contentType) = false →
  code (checkPrerequisites db now userId content contentType)
  = Some "PREREQUISITES_NOT_MET".
Proof.
  unfold checkPrerequisites.
  repeat (case_match; simpl; try done).
Qed.

Lemma checkEnrollment_code db now userId courseId :
  hasAccess (checkEnrollment db now userId courseId) = false →
  code (checkEnrollment db now userId courseId) = Some "NOT_ENROLLED"
  ∨ code (checkEnrollment db now userId courseId) = Some "ENROLLMENT_INACTIVE"
  ∨ code (checkEnrollment db now userId courseId) = Some "ENROLLMENT_EXPIRED".
Proof.
  unfold checkEnrollment.
  repeat (case_match; simpl; try done); auto.
Qed.

Lemma performAccessChecks_first_failure db now user content contentType :
  performAccessChecks db now user content contentType
  = first_failure now (access_checks db now user content contentType).
Proof.
  unfold performAccessChecks, access_checks, check_published, check_verified.
  simpl.
  destruct (is_published content); simpl; [|done].
  destruct (is_verified user); simpl; [|done].
  destruct (hasAccess (checkSubscriptionAccess now user content)); simpl;
    [|done].
  destruct (checkLevelAccess db now (user_id user) content) as [lc|e]; simpl;
    [|done].
  destruct (hasAccess lc); simpl; [|done].
  destruct (hasAccess (checkPrerequisites _ _ _ _ _)); simpl; [|done].
  by destruct (hasAccess (if bool_decide _ then _ else _)).
Qed.

Lemma first_failure_at now checks i r :
  checks !! i = Some (Ok r) →
  hasAccess r = false →
  (∀ j c, (j < i)%nat → checks !! j = Some c → passes c) →
  first_failure now checks = Ok r.
Proof.
  revert i. induction checks as [|c checks IH]; intros i Hi Hr Hbefore;
    [done|].
  destruct i as [|i]; simpl in *.
  - injection Hi as ->. by rewrite Hr.
  - destruct (Hbefore 0%nat c ltac:(lia) eq_refl) as (r0 & -> & Hr0).
    rewrite Hr0. apply (IH i); [done..|].
    intros j c Hj Hc. apply (Hbefore (S j) c); [lia|done].
Qed.

Lemma first_failure_granted now checks :
  (∀ r, Ok r ∈ checks → code r ≠ Some "ACCESS_GRANTED" ∨ hasAccess r = true) →
  (∃ r, first_failure now checks = Ok r ∧ code r = Some "ACCESS_GRANTED")
  ↔ Forall passes checks.
Proof.
  induction checks as [|c checks IH]; intros Hcodes; simpl.
  - split; [constructor|]. intros _. by eexists.
  - assert (∀ r, Ok r ∈ checks →
              code r ≠ Some "ACCESS_GRANTED" ∨ hasAccess r = true) as Hrest.
    { intros r Hr. apply Hcodes. by right. }
    destruct c as [r|e].
    + destruct (hasAccess r) eqn:Hr.
      * rewrite (IH Hrest). split.
        -- intros Hall. constructor; [by exists r|done].
        -- by inversion 1.
      * split.
        -- intros (r' & Heq & Hcode). simplify_eq.
           destruct (Hcodes r' ltac:(left)) as [?|?]; congruence.
        -- inversion 1 as [|? ? (r' & Heq & ?) ?]. simplify_eq. congruence.
    + split; [by intros (? & ? & ?)|].
      inversion 1 as [|? ? (? & ? & ?) ?]. done.
Qed.

Lemma access_checks_codes db now user content contentType r :
  Ok r ∈ access_checks db now user content contentType →
  code r ≠ Some "ACCESS_GRANTED" ∨ hasAccess r = true.
Proof.
  unfold access_checks. rewrite !elem_of_cons, elem_of_nil.
  destruct (hasAccess r) eqn:Hr; [by right|left].
  destruct H as [H|[H|[H|[H|[H|[H|[]]]]]]].
  - injection H as ->. unfold check_published in *.
    by destruct (is_published content).
  - injection H as ->. unfold check_verified in *.
    by destruct (is_verified user).
  - injection H as ->.
    destruct (checkSubscriptionAccess_code _ _ _ Hr) as [-> | ->]; done.
  - symmetry in H. by rewrite (checkLevelAccess_code _ _ _ _ _ H Hr).
  - injection H as ->. by rewrite (checkPrerequisites_code _ _ _ _ _ Hr).
  - injection H as ->. case_bool_decide; [|done].
    destruct (checkEnrollment_code _ _ _ _ Hr) as [-> | [-> | ->]]; done.
Qed.

Lemma evaluate_found db now userId contentId contentType user content :
  getUserWithSubscription db userId = Some user →
  getContentDetails db contentId contentType = Some content →
  evaluate db now userId contentId contentType
  = try_catch (performAccessChecks db now user content contentType)
              (system_error now).
Proof. intros Hu Hc. unfold evaluate. by rewrite Hu, Hc. Qed.

(** C1.  With the user and the content found, [evaluate] returns the
    decision of the earliest check that fails in the order published,
    verified, subscription, level gate, prerequisites, enrollment (the last
    one for a course only), and it returns ACCESS_GRANTED if and only if
    every check of that order passes. *)
Theorem evaluate_first_failing_check db now userId contentId contentType
    user content :
  getUserWithSubscription db userId = Some user →
  getContentDetails db contentId contentType = Some content →
  let checks := access_checks db now user content contentType in
  (∀ i c r, checks !! i = Some c → fails_with c r →
     (∀ j c', (j < i)%nat → checks !! j = Some c' → passes c') →
     evaluate db now userId contentId contentType = r)
  ∧ (code (evaluate db now userId contentId contentType)
       = Some "ACCESS_GRANTED"
     ↔ Forall passes checks).
Proof.
  intros Hu Hc checks.
  rewrite (evaluate_found _ _ _ _ _ _ _ Hu Hc).
  rewrite performAccessChecks_first_failure. fold checks. split.
  - intros i c r Hi [-> Hr] Hbefore.
    by rewrite (first_failure_at now checks i r Hi Hr Hbefore).
  - rewrite <- (first_failure_granted now checks)
      by apply access_checks_codes.
    destruct (first_failure now checks) as [r|e]; simpl.
    + split; [by exists r|]. by intros (? & [= <-] & ?).
    + split; [done|]. by intros (? & ? & ?).
Qed.

Lemma evaluate_first_failing_check_witness :
  let checks :=
    access_checks academy 1000
      (user_of_rows {| u_id := "u3"; u_is_active := true;
                       u_is_verified := false |} None)
      (content_of_course (course "C0" beginner false true false []))
      "course" in
  (∀ i c r, checks !! i = Some c → fails_with c r →
     (∀ j c', (j < i)%nat → checks !! j = Some c' → passes c') →
     evaluate academy 1000 "u3" "C0" "course" = r)
  ∧ (code (evaluate academy 1000 "u3" "C0" "course") = Some "ACCESS_GRANTED"
     ↔ Forall passes checks).
Proof.
  apply (evaluate_first_failing_check academy 1000 "u3" "C0" "course");
    reflexivity.
Defined.

(** Three checks fail for the unverified user on the unpublished course;
    the decision is the one of the first. *)
Example evaluate_unpublished_unverified :
  code (evaluate academy 1000 "u3" "C0" "course")
  = Some "CONTENT_NOT_PUBLISHED".
Proof. reflexivity. Qed.

(** ** The subscription check *)

Lemma in_past_elapsed now user :
  in_past now (current_period_end user) = true ↔ period_elapsed now user.
Proof.
  unfold in_past, period_elapsed. destruct (current_period_end user) as [t|].
  - rewrite bool_decide_eq_true. split; [by exists t|].
    by intros (? & [= <-] & ?).
  - split; [done|]. by intros (? & ? & ?).
Qed.

Lemma in_future_running now user :
  in_future now (trial_end user) = true ↔ trial_running now user.
Proof.
  unfold in_future, trial_running. destruct (trial_end user) as [t|].
  - rewrite bool_decide_eq_true. split.
    + intros. exists t. split; [done|lia].
    + intros (? & [= <-] & ?). lia.
  - split; [done|]. by intros (? & ? & ?).
Qed.

Lemma free_content_passes_subscription now user content :
  is_free content = true → checkSubscriptionAccess now user content = access_ok.
Proof. intros Hfree. unfold checkSubscriptionAccess. by rewrite Hfree. Qed.

Lemma free_content_codes db now userId contentId contentType content :
  getContentDetails db contentId contentType = Some content →
  is_free content = true →
  code (evaluate db now userId contentId contentType)
    ≠ Some "SUBSCRIPTION_REQUIRED"
  ∧ code (evaluate db now userId contentId contentType)
    ≠ Some "SUBSCRIPTION_EXPIRED".
Proof.
  intros Hc Hfree. unfold evaluate.
  destruct (getUserWithSubscription db userId) as [user|]; [|done].
  rewrite Hc. unfold performAccessChecks.
  rewrite (free_content_passes_subscription _ _ _ Hfree).
  destruct (is_published content); [|done].
  destruct (is_verified user); [|done]. simpl.
  destruct (checkLevelAccess db now (user_id user) content) as [lc|e] eqn:Hl;
    [|done]. simpl.
  destruct (hasAccess lc) eqn:Hlc; simpl.
  2:{ by rewrite (checkLevelAccess_code _ _ _ _ _ Hl Hlc). }
  destruct (hasAccess (checkPrerequisites _ _ _ _ _)) eqn:Hp; simpl.
  2:{ by rewrite (checkPrerequisites_code _ _ _ _ _ Hp). }
  case_bool_decide; simpl; [|done].
  destruct (hasAccess (checkEnrollment _ _ _ _)) eqn:He; simpl; [done|].
  destruct (checkEnrollment_code _ _ _ _ He) as [-> | [-> | ->]]; done.
Qed.

(** C2, amended.  Free content passes the subscription check whatever the
    subscription, so [evaluate] never answers SUBSCRIPTION_REQUIRED or
    SUBSCRIPTION_EXPIRED for it.  For content that is not free and requires
    a subscription the check passes if and only if the status is active and
    the current period has not elapsed, or the status is not active and the
    trial end lies in the future; it fails with SUBSCRIPTION_EXPIRED exactly
    when the status is active and the period has elapsed, and with
    SUBSCRIPTION_REQUIRED exactly when the status is not active and no trial
    is running. *)
Theorem subscription_check_cases now user content :
  let r := checkSubscriptionAccess now user content in
  (is_free content = true →
     r = access_ok
     ∧ ∀ db userId contentId contentType,
         getContentDetails db contentId contentType = Some content →
         code (evaluate db now userId contentId contentType)
           ≠ Some "SUBSCRIPTION_REQUIRED"
         ∧ code (evaluate db now userId contentId contentType)
           ≠ Some "SUBSCRIPTION_EXPIRED")
  ∧ (is_free content = false → requires_subscription content = true →
     (hasAccess r = true
      ↔ (subscription_active user ∧ ¬ period_elapsed now user)
        ∨ (¬ subscription_active user ∧ trial_running now user))
     ∧ (code r = Some "SUBSCRIPTION_EXPIRED"
        ↔ subscription_active user ∧ period_elapsed now user)
     ∧ (code r = Some "SUBSCRIPTION_REQUIRED"
        ↔ ¬ subscription_active user ∧ ¬ trial_running now user)).
Proof.
  intros r. split.
  - intros Hfree. split; [by apply free_content_passes_subscription|].
    intros db userId contentId contentType Hc.
    by apply (free_content_codes db now userId contentId contentType content).
  - intros Hfree Hreq. subst r. unfold checkSubscriptionAccess.
    rewrite Hfree, Hreq.
    pose proof (in_past_elapsed now user) as Hpast.
    pose proof (in_future_running now user) as Hfut.
    unfold subscription_active.
    case_bool_decide as Hact; simpl;
      destruct (in_past now (current_period_end user)) eqn:Hp;
      destruct (in_future now (trial_end user)) eqn:Hf; simpl;
      intuition (try discriminate; try congruence).
Qed.

Lemma subscription_check_cases_witness :
  (hasAccess (checkSubscriptionAccess 2000 trial_learner premium_course) = true
   ↔ (subscription_active trial_learner
      ∧ ¬ period_elapsed 2000 trial_learner)
     ∨ (¬ subscription_active trial_learner
        ∧ trial_running 2000 trial_learner))
  ∧ checkSubscriptionAccess 2000 trial_learner
      (content_of_course (course "C1" beginner true true true []))
    = access_ok.
Proof.
  split.
  - apply (subscription_check_cases 2000 trial_learner premium_course);
      reflexivity.
  - apply (subscription_check_cases 2000 trial_learner
             (content_of_course (course "C1" beginner true true true [])));
      reflexivity.
Defined.

(** C2 as stated fails: the trial end of this subscriber lies in the
    future, yet the check answers SUBSCRIPTION_EXPIRED, because the trial
    is consulted only when the status is not active. *)
Lemma trial_ignored_for_active_status :
  let r := checkSubscriptionAccess 2000 lapsed_subscriber premium_course in
  is_free premium_course = false
  ∧ requires_subscription premium_course = true
  ∧ code r = Some "SUBSCRIPTION_EXPIRED"
  ∧ ¬ (hasAccess r = true
       ↔ (subscription_active lapsed_subscriber
          ∧ ¬ period_elapsed 2000 lapsed_subscriber)
         ∨ trial_running 2000 lapsed_subscriber).
Proof.
  split_and!; try reflexivity.
  intros [_ Hpass]. discriminate Hpass.
  right. exists 3000. split; [reflexivity|lia].
Qed.

(** Scenarios A and B of the specification. *)
Example trial_overrides_cancellation :
  checkSubscriptionAccess 2000 trial_learner premium_course = access_ok.
Proof. reflexivity. Qed.

Example trial_over_subscription_required :
  code (checkSubscriptionAccess 4000 trial_learner premium_course)
  = Some "SUBSCRIPTION_REQUIRED".
Proof. reflexivity. Qed.

(** ** The level gate *)

Lemma Math_round_ge (x : Q) (n : Z) :
  n ≤ Math_round x ↔ (inject_Z n - (1 # 2) <= x)%Q.
Proof.
  unfold Math_round. split.
  - intros Hn.
    assert (inject_Z n <= x + (1 # 2))%Q as Hle.
    { eapply Qle_trans; [|apply Qfloor_le]. by rewrite <- Zle_Qle. }
    apply (Qplus_le_l _ _ (1 # 2)). ring_simplify. exact Hle.
  - intros Hx. rewrite <- (Qfloor_Z n). apply Qfloor_resp_le.
    apply (Qplus_le_l _ _ (1 # 2)) in Hx. ring_simplify in Hx. exact Hx.
Qed.

(** What the gate decides for intermediate content: it compares the
    rounded average with 80, which admits every average from 79.5 on; a
    denial carries the threshold and the rounded average. *)
Lemma intermediate_gate_threshold db now userId content completions :
  level content = intermediate →
  mapM (λ c, calculate_course_completion db userId (c_id c))
       (filter (λ c, c_level c = beginner ∧ c_is_published c = true)
               (courses db)) = Ok completions →
  let avg := default 0%Q (AVG (decimal_value <$> completions)) in
  ∃ r, checkLevelAccess db now userId content = Ok r
     ∧ (hasAccess r = true ↔ (159 # 2 <= avg)%Q)
     ∧ (hasAccess r = false →
        code r = Some "PREREQUISITE_LEVEL_NOT_COMPLETED"
        ∧ metadata r = Some (MdLevel 80 (Math_round avg))).
Proof.
  intros Hlevel Hcompl avg. unfold checkLevelAccess, getLevelCompletion.
  rewrite Hlevel, Hcompl. simpl. fold avg.
  assert (80 ≤ Math_round avg ↔ (159 # 2 <= avg)%Q) as Hround.
  { rewrite Math_round_ge. unfold Qle. simpl. lia. }
  case_bool_decide as Hlt; eexists; (split; [reflexivity|]); simpl.
  - split; [|done]. split; [done|]. intros Havg.
    apply Hround in Havg. lia.
  - split; [|done]. split; [|done]. intros _. apply Hround. lia.
Qed.

Lemma beginner_always_passes db now userId content :
  level content = beginner →
  checkLevelAccess db now userId content = Ok access_ok.
Proof. intros Hlevel. unfold checkLevelAccess. by rewrite Hlevel. Qed.

(** C3 at the failing input.  The two published beginner courses stand at
    75.00 and 84.62, whose average 79.81 is below 80.  [getLevelCompletion]
    rounds it to 80 before the comparison, so the gate opens and the
    intermediate module is granted, where the schema's own
    [check_content_access] refuses. *)
Theorem level_gate_rounds_before_comparing :
  calculate_course_completion gate_db "u1" "A" = Ok 7500
  ∧ calculate_course_completion gate_db "u1" "B" = Ok 8462
  ∧ (∃ avg, AVG [decimal_value 7500; decimal_value 8462] = Some avg
            ∧ (avg < 80)%Q)
  ∧ getLevelCompletion gate_db "u1" beginner = Ok 80
  ∧ evaluate gate_db 1000 "u1" "MC" "module" = access_granted 1000
  ∧ check_content_access gate_db "u1" "C2" = Ok false.
Proof.
  split_and!; try (vm_compute; reflexivity).
  eexists. split; [reflexivity|]. reflexivity.
Qed.

(** Scenario C of the specification: 3 lessons of 4 in the only published
    beginner course. *)
Example level_gate_scenario :
  calculate_course_completion gate_db_single "u1" "A" = Ok 7500
  ∧ evaluate gate_db_single 1000 "u1" "C2" "course"
    = level_denied 1000 "Beginner" 75.
Proof. split; vm_compute; reflexivity. Qed.

(** ** Prerequisites *)




Lemma incomplete_nil_iff db contentType userId ps :
  incomplete_prerequisites db contentType userId ps = []
  ↔ Forall (prerequisite_met db contentType userId) ps.
Proof.
  unfold incomplete_prerequisites.
  induction ps as [|p ps IH]; [by split; [constructor|]|].
  destruct (decide (prerequisite_met db contentType userId p)) as [Hmet|Hmet].
  - rewrite filter_cons_False by tauto. rewrite IH. split.
    + by constructor.
    + by inversion 1.
  - rewrite filter_cons_True by done. split; [done|]. by inversion 1.
Qed.









(** The join of [checkPrerequisites] has no condition on the granularity
    of the record it meets.  In [academy_lesson_done] the module-level
    record of ["M1"] is still in progress, yet ["M2"] is granted, because
    the completed record of lesson ["L1"] carries ["M1"] in its [module_id]
    column; and a course that requires ["C1"] passes the check through that
    same record, although the user has no course-level record of ["C1"]. *)
Example prerequisite_met_by_finer_record :
  module_level_status academy_lesson_done "u1" "M1" = Some in_progress
  ∧ evaluate academy_lesson_done 1000 "u1" "M2" "module" = access_granted 1000
  ∧ course_level_status academy_lesson_done "u1" "C1" = None
  ∧ checkPrerequisites academy_lesson_done 1000 "u1"
      (content_of_course (course "C3" beginner true true false ["C1"]))
      "course"
    = access_ok.
Proof. split_and!; vm_compute; reflexivity. Qed.

(** ** The cache in front of the evaluation *)

Lemma with_redis_same w : with_redis (w_redis w) w = w.
Proof. by destruct w. Qed.

Lemma checkContentAccess_read_fault now userId contentId contentType w :
  faulty (w_redis w) GET = true →
  checkContentAccess now userId contentId contentType w = (system_error now, w).
Proof.
  intros Hget. unfold checkContentAccess, redis_get_access. op_unfold.
  by rewrite Hget.
Qed.

Lemma checkContentAccess_hit now userId contentId contentType w cached :
  faulty (w_redis w) GET = false →
  live now (access_entries (w_redis w) !! (userId, contentId, contentType))
    = Some cached →
  checkContentAccess now userId contentId contentType w = (cached, w).
Proof.
  intros Hget Hlive. unfold checkContentAccess, redis_get_access. op_unfold.
  rewrite Hget, Hlive. by rewrite with_redis_same.
Qed.

(** After a miss: the evaluation, then the write of its decision. *)
Lemma checkContentAccess_miss now userId contentId contentType w :
  faulty (w_redis w) GET = false →
  live now (access_entries (w_redis w) !! (userId, contentId, contentType))
    = None →
  checkContentAccess now userId contentId contentType w
  = match getUserWithSubscription (w_db w) userId with
    | None => (user_not_found now, w)
    | Some user =>
        match getContentDetails (w_db w) contentId contentType with
        | None => (content_not_found now, w)
        | Some content =>
            match performAccessChecks (w_db w) now user content contentType with
            | Throw _ => (system_error now, w)
            | Ok r =>
                if faulty (w_redis w) SETEX then (system_error now, w)
                else (r, with_redis
                           (set_access_entries
                              (<[(userId, contentId, contentType) :=
                                   (r, now + 300 * 1000)]>
                                 (access_entries (w_redis w)))
                              (w_redis w)) w)
            end
        end
    end.
Proof.
  intros Hget Hlive.
  unfold checkContentAccess, redis_get_access, redis_setex_access. op_unfold.
  rewrite Hget, Hlive, with_redis_same.
  destruct (getUserWithSubscription (w_db w) userId) as [user|]; [|done].
  destruct (getContentDetails (w_db w) contentId contentType) as [content|];
    [|done].
  destruct (performAccessChecks (w_db w) now user content contentType)
    as [r|e]; [|done].
  by destruct (faulty (w_redis w) SETEX).
Qed.

Lemma checkContentAccess_miss_evaluate now userId contentId contentType w :
  faulty (w_redis w) GET = false →
  faulty (w_redis w) SETEX = false →
  live now (access_entries (w_redis w) !! (userId, contentId, contentType))
    = None →
  (checkContentAccess now userId contentId contentType w).1
  = evaluate (w_db w) now userId contentId contentType.
Proof.
  intros Hget Hset Hlive.
  rewrite (checkContentAccess_miss _ _ _ _ _ Hget Hlive). unfold evaluate.
  destruct (getUserWithSubscription (w_db w) userId) as [user|]; [|done].
  destruct (getContentDetails (w_db w) contentId contentType) as [content|];
    [|done].
  destruct (performAccessChecks (w_db w) now user content contentType);
    [|done].
  by rewrite Hset.
Qed.

(** C6, amended.  When the cache raises during an access check, on the
    read or on the write after a miss, [checkContentAccess] returns the
    negative decision SYSTEM_ERROR and leaves the cache as it was: the
    evaluation is not returned. *)
Theorem cache_fault_is_system_error now userId contentId contentType w :
  cache_raises now userId contentId contentType w →
  checkContentAccess now userId contentId contentType w = (system_error now, w).
Proof.
  intros [Hget | (Hget & Hlive & (user & content & r & Hu & Hc & Hr) & Hset)].
  - by apply checkContentAccess_read_fault.
  - rewrite (checkContentAccess_miss _ _ _ _ _ Hget Hlive).
    by rewrite Hu, Hc, Hr, Hset.
Qed.

Lemma cache_fault_is_system_error_witness :
  checkContentAccess 1000 "u1" "M1" "module" (world academy writes_fail)
  = (system_error 1000, world academy writes_fail).
Proof.
  apply (cache_fault_is_system_error 1000 "u1" "M1" "module"
           (world academy writes_fail)).
  right. split_and!; try reflexivity.
  eexists _, _, _. split_and!; reflexivity.
Defined.

(** C6 as stated fails: with a cache whose reads raise, and with one whose
    writes raise, the caller receives SYSTEM_ERROR although the evaluation
    itself grants access. *)
Lemma cache_fault_not_degraded :
  evaluate academy 1000 "u1" "M1" "module" = access_granted 1000
  ∧ (checkContentAccess 1000 "u1" "M1" "module" (world academy reads_fail)).1
    = system_error 1000
  ∧ (checkContentAccess 1000 "u1" "M1" "module" (world academy writes_fail)).1
    = system_error 1000.
Proof. split_and!; vm_compute; reflexivity. Qed.

(** ** Deactivated accounts *)

Lemma list_bind_all_nil {A B} (f : A → list B) (l : list A) :
  (∀ x, x ∈ l → f x = []) → l ≫= f = [].
Proof.
  induction l as [|x l IH]; intros Hall; [done|].
  rewrite bind_cons, (Hall x) by left. apply IH.
  intros y Hy. apply Hall. by right.
Qed.

Lemma NoDup_fmap_agree {A B} (f : A → B) (l : list A) (x y : A) :
  NoDup (f <$> l) → x ∈ l → y ∈ l → f x = f y → x = y.
Proof.
  induction l as [|z l IH]; intros Hnd Hx Hy Hf.
  - by apply not_elem_of_nil in Hx.
  - rewrite fmap_cons in Hnd. apply NoDup_cons in Hnd as [Hz Hnd].
    apply elem_of_cons in Hx as [-> | Hx]; apply elem_of_cons in Hy as [-> | Hy];
      [done | | | by apply IH].
    + exfalso. apply Hz. rewrite Hf. by apply list_elem_of_fmap_2.
    + exfalso. apply Hz. rewrite <- Hf. by apply list_elem_of_fmap_2.
Qed.

Lemma getUserWithSubscription_none db userId :
  (∀ u, u ∈ users db → u_id u = userId → u_is_active u = false) →
  getUserWithSubscription db userId = None.
Proof.
  intros Hinactive. unfold getUserWithSubscription.
  rewrite list_bind_all_nil; [done|].
  intros u Hu. case_bool_decide as Hcond; [|done].
  destruct Hcond as [Hid Hact]. rewrite (Hinactive u Hu Hid) in Hact. done.
Qed.

Lemma evaluate_user_not_found db now userId contentId contentType :
  getUserWithSubscription db userId = None →
  evaluate db now userId contentId contentType = user_not_found now.
Proof. intros Hu. unfold evaluate. by rewrite Hu. Qed.

(** C10.  For a user whose record has [is_active = false], [evaluate]
    returns the negative decision USER_NOT_FOUND for every content and
    content type, the same decision as in the store from which the user is
    absent; no later check contributes.  [checkContentAccess] returns that
    decision, and caches nothing, whenever its cache read misses. *)
Theorem inactive_user_is_not_found db now userId contentId contentType u :
  NoDup (u_id <$> users db) →
  u ∈ users db → u_id u = userId → u_is_active u = false →
  evaluate db now userId contentId contentType = user_not_found now
  ∧ hasAccess (user_not_found now) = false
  ∧ code (user_not_found now) = Some "USER_NOT_FOUND"
  ∧ evaluate (with_users (filter (λ u', u_id u' ≠ userId) (users db)) db)
      now userId contentId contentType
    = evaluate db now userId contentId contentType
  ∧ ∀ r, faulty r GET = false →
         live now (access_entries r !! (userId, contentId, contentType)) = None →
         checkContentAccess now userId contentId contentType
           {| w_db := db; w_redis := r |}
         = (user_not_found now, {| w_db := db; w_redis := r |}).
Proof.
  intros Hpk Hu Hid Hact.
  assert (getUserWithSubscription db userId = None) as Hnone.
  { apply getUserWithSubscription_none. intros u' Hu' Hid'.
    by rewrite (NoDup_fmap_agree u_id (users db) u' u Hpk Hu' Hu)
      by congruence. }
  assert (getUserWithSubscription
            (with_users (filter (λ u', u_id u' ≠ userId) (users db)) db)
            userId = None) as Habsent.
  { apply getUserWithSubscription_none. simpl. intros u' Hu' Hid'.
    apply list_elem_of_filter in Hu' as [Hne _]. done. }
  split_and!; [by apply evaluate_user_not_found|done|done| |].
  - by rewrite !evaluate_user_not_found.
  - intros r Hget Hlive.
    rewrite checkContentAccess_miss by done. simpl. by rewrite Hnone.
Qed.

Lemma inactive_user_is_not_found_witness :
  evaluate academy 1000 "u2" "C1" "course" = user_not_found 1000
  ∧ hasAccess (user_not_found 1000) = false
  ∧ code (user_not_found 1000) = Some "USER_NOT_FOUND"
  ∧ evaluate (with_users (filter (λ u', u_id u' ≠ "u2") (users academy))
                academy) 1000 "u2" "C1" "course"
    = evaluate academy 1000 "u2" "C1" "course"
  ∧ ∀ r, faulty r GET = false →
         live 1000 (access_entries r !! ("u2", "C1", "course")) = None →
         checkContentAccess 1000 "u2" "C1" "course"
           {| w_db := academy; w_redis := r |}
         = (user_not_found 1000, {| w_db := academy; w_redis := r |}).
Proof.
  apply (inactive_user_is_not_found academy 1000 "u2" "C1" "course"
           {| u_id := "u2"; u_is_active := false; u_is_verified := true |}).
  - compute_done.
  - simpl. right. left.
  - reflexivity.
  - reflexivity.
Defined.

(** ** Enrollment *)

Lemma enrollUser_unfold new_id now userId courseId w :
  enrollUser new_id now userId courseId w
  = let '(access, w1) := checkContentAccess now userId courseId "course" w in
    if negb (hasAccess access) then (enroll_denied access, w1)
    else if bool_decide
              (Z.of_nat (length (existing_enrollments (w_db w1) userId courseId))
               > 0)
    then (already_enrolled, w1)
    else catching (create_enrollment new_id now userId courseId)
           enroll_system_error w1.
Proof.
  unfold enrollUser. op_unfold.
  destruct (checkContentAccess now userId courseId "course" w) as [access w1].
  destruct (hasAccess access); simpl; [|done].
  by case_bool_decide.
Qed.

Lemma access_keys_nonempty now userId contentId contentType r v expires :
  access_entries r !! (userId, contentId, contentType) = Some (v, expires) →
  now < expires →
  Z.of_nat (length (fst <$> filter (λ kv : (uuid * uuid * string)
                                          * (AccessResult * timestamp),
                                      kv.1.1.1 = userId ∧ now < kv.2.2)
                               (map_to_list (access_entries r)))) > 0.
Proof.
  intros Hlookup Hlive.
  assert (((userId, contentId, contentType), (v, expires))
          ∈ filter (λ kv : (uuid * uuid * string) * (AccessResult * timestamp),
                      kv.1.1.1 = userId ∧ now < kv.2.2)
                   (map_to_list (access_entries r))) as Hmem.
  { apply list_elem_of_filter. split; [done|].
    by apply elem_of_map_to_list. }
  rewrite length_fmap.
  destruct (filter _ (map_to_list (access_entries r))) as [|kv kvs].
  - by apply not_elem_of_nil in Hmem.
  - simpl. lia.
Qed.

(** Once the user has a live access entry, the outcome of clearing the
    cache depends on the faults of the cache only. *)
Lemma clearUserContentCache_outcome now userId contentId contentType w v
    expires :
  access_entries (w_redis w) !! (userId, contentId, contentType)
    = Some (v, expires) →
  now < expires →
  (clearUserContentCache now userId w).1
  = if faulty (w_redis w) KEYS then Throw RedisError
    else if faulty (w_redis w) DEL then Throw RedisError
    else Ok ().
Proof.
  intros Hlookup Hlive.
  pose proof (access_keys_nonempty now _ _ _ _ _ _ Hlookup Hlive) as Hkeys.
  unfold clearUserContentCache, redis_keys_access, redis_keys_accessible,
    redis_del_access, redis_del_accessible.
  op_unfold.
  destruct (faulty (w_redis w) KEYS) eqn:Hk; [done|]. simpl.
  rewrite bool_decide_true by exact Hkeys. simpl.
  destruct (faulty (w_redis w) DEL) eqn:Hd; [done|]. simpl.
  rewrite Hk. simpl. case_bool_decide; simpl; [|done].
  by rewrite Hd.
Qed.

Lemma insert_enrollment_outcome new_id userId courseId w :
  (insert_enrollment new_id userId courseId w).1
  = insert_outcome (w_db w) new_id userId courseId
  ∧ w_redis (insert_enrollment new_id userId courseId w).2 = w_redis w.
Proof.
  unfold insert_outcome, insert_enrollment. simpl.
  repeat case_bool_decide; done.
Qed.

Lemma create_enrollment_outcome new_id now userId courseId contentId
    contentType w v expires :
  access_entries (w_redis w) !! (userId, contentId, contentType)
    = Some (v, expires) →
  now < expires →
  (catching (create_enrollment new_id now userId courseId)
     enroll_system_error w).1
  = match insert_outcome (w_db w) new_id userId courseId with
    | Throw _ => enroll_system_error
    | Ok id =>
        if faulty (w_redis w) KEYS then enroll_system_error
        else if faulty (w_redis w) DEL then enroll_system_error
        else enrolled id
    end.
Proof.
  intros Hlookup Hlive.
  destruct (insert_enrollment_outcome new_id userId courseId w)
    as [Hout Hredis].
  unfold create_enrollment, catching, mbind, op_bind.
  destruct (insert_enrollment new_id userId courseId w) as [res w1].
  simpl in Hout, Hredis. rewrite <- Hout.
  destruct res as [id|e]; [|done].
  rewrite <- Hredis in Hlookup.
  pose proof (clearUserContentCache_outcome now _ _ _ w1 _ _ Hlookup Hlive)
    as Hclear.
  destruct (clearUserContentCache now userId w1) as [cleared w2].
  simpl in Hclear. rewrite Hclear, Hredis.
  destruct (faulty (w_redis w) KEYS); [done|].
  by destruct (faulty (w_redis w) DEL).
Qed.

(** The result of [enrollUser] after a cache miss, as a function of the
    store and of the faults of the cache. *)
Lemma enrollUser_after_miss new_id now userId courseId w :
  faulty (w_redis w) GET = false →
  live now (access_entries (w_redis w) !! (userId, courseId, "course")) = None →
  (enrollUser new_id now userId courseId w).1
  = if faulty (w_redis w) SETEX
         && bool_decide (is_Some (getUserWithSubscription (w_db w) userId))
         && bool_decide (is_Some (getContentDetails (w_db w) courseId "course"))
    then enroll_denied (system_error now)
    else
      let access := evaluate (w_db w) now userId courseId "course" in
      if negb (hasAccess access) then enroll_denied access
      else if bool_decide
                (Z.of_nat (length (existing_enrollments (w_db w) userId
                                     courseId)) > 0)
      then already_enrolled
      else match insert_outcome (w_db w) new_id userId courseId with
           | Throw _ => enroll_system_error
           | Ok id =>
               if faulty (w_redis w) KEYS then enroll_system_error
               else if faulty (w_redis w) DEL then enroll_system_error
               else enrolled id
           end.
Proof.
  intros Hget Hlive. rewrite enrollUser_unfold.
  rewrite (checkContentAccess_miss _ _ _ _ _ Hget Hlive). unfold evaluate.
  destruct (getUserWithSubscription (w_db w) userId) as [user|];
    [|by rewrite andb_false_r].
  destruct (getContentDetails (w_db w) courseId "course") as [content|];
    [|by rewrite andb_false_r].
  rewrite !bool_decide_true by done. rewrite !andb_true_r.
  destruct (performAccessChecks (w_db w) now user content "course") as [r|e];
    simpl.
  2:{ by destruct (faulty (w_redis w) SETEX). }
  destruct (faulty (w_redis w) SETEX) eqn:Hset; [done|].
  destruct (hasAccess r) eqn:Hr; simpl; [|done].
  case_bool_decide; [done|].
  rewrite (create_enrollment_outcome new_id now userId courseId courseId
             "course" _ r (now + 300 * 1000)).
  - done.
  - simpl. apply lookup_insert_eq.
  - lia.
Qed.

(** C7, amended.  The decision on which [enrollUser] acts is the one of
    [checkContentAccess] for the key (userId, courseId, course): the cached
    decision while the cache holds a live entry for that key, which a
    negative one turns into the result of the enrollment, and the fresh
    evaluation only after a miss.  Two runs on the same store, with the same
    faults and no live entry for that key, return the same result whatever
    else their caches hold. *)
Theorem enroll_gate_reads_cache new_id now userId courseId :
  (∀ w cached,
     faulty (w_redis w) GET = false →
     live now (access_entries (w_redis w) !! (userId, courseId, "course"))
       = Some cached →
     checkContentAccess now userId courseId "course" w = (cached, w)
     ∧ (hasAccess cached = false →
        enrollUser new_id now userId courseId w = (enroll_denied cached, w)))
  ∧ (∀ w,
       faulty (w_redis w) GET = false →
       faulty (w_redis w) SETEX = false →
       live now (access_entries (w_redis w) !! (userId, courseId, "course"))
         = None →
       (checkContentAccess now userId courseId "course" w).1
       = evaluate (w_db w) now userId courseId "course")
  ∧ (∀ db r1 r2,
       (∀ cmd, faulty r1 cmd = faulty r2 cmd) →
       live now (access_entries r1 !! (userId, courseId, "course")) = None →
       live now (access_entries r2 !! (userId, courseId, "course")) = None →
       (enrollUser new_id now userId courseId {| w_db := db; w_redis := r1 |}).1
       = (enrollUser new_id now userId courseId
            {| w_db := db; w_redis := r2 |}).1).
Proof.
  split_and!.
  - intros w cached Hget Hlive.
    pose proof (checkContentAccess_hit _ _ _ _ _ _ Hget Hlive) as Hhit.
    split; [done|]. intros Hdenied.
    rewrite enrollUser_unfold, Hhit. by rewrite Hdenied.
  - intros w Hget Hset Hlive. by apply checkContentAccess_miss_evaluate.
  - intros db r1 r2 Hfaults Hlive1 Hlive2.
    destruct (faulty r1 GET) eqn:Hget.
    + rewrite !enrollUser_unfold.
      rewrite !checkContentAccess_read_fault; [done| |done].
      simpl. by rewrite <- Hfaults.
    + rewrite !enrollUser_after_miss; simpl; try done.
      * by rewrite !Hfaults.
      * by rewrite <- Hfaults.
Qed.

Lemma enroll_gate_reads_cache_witness :
  (enrollUser "E1" 2000 "u1" "C1" (world academy no_faults)).1
  = (enrollUser "E1" 2000 "u1" "C1" warm_world).1.
Proof.
  apply (proj2 (proj2 (enroll_gate_reads_cache "E1" 2000 "u1" "C1"))
           academy (empty_cache no_faults) (w_redis warm_world)).
  - intros cmd. reflexivity.
  - reflexivity.
  - vm_compute. reflexivity.
Defined.

(** C7 as stated fails.  The access of ["u3"] to the course was refused and
    cached before the address was verified.  On the store with the verified
    address the evaluation answers NOT_ENROLLED; [enrollUser] returns the
    cached USER_NOT_VERIFIED in the world that holds the entry and
    NOT_ENROLLED in the world with an empty cache. *)
Lemma enroll_acts_on_cached_decision :
  w_db stale_world = academy_verified
  ∧ code (evaluate academy_verified 2000 "u3" "C1" "course")
    = Some "NOT_ENROLLED"
  ∧ enroll_code (enrollUser "E1" 2000 "u3" "C1" stale_world).1
    = Some "USER_NOT_VERIFIED"
  ∧ enroll_code
      (enrollUser "E1" 2000 "u3" "C1" (world academy_verified no_faults)).1
    = Some "NOT_ENROLLED".
Proof. split_and!; vm_compute; reflexivity. Qed.

(** ** Enrollment never succeeds *)

Lemma getUserWithSubscription_id db userId user :
  getUserWithSubscription db userId = Some user → user_id user = userId.
Proof.
  unfold getUserWithSubscription. intros Hhead.
  apply head_Some_elem_of in Hhead.
  apply list_elem_of_bind in Hhead as (u & Huser & _).
  case_bool_decide as Hcond; [|by apply not_elem_of_nil in Huser].
  destruct Hcond as [Hid _].
  destruct (filter _ (subscriptions db)) as [|s ss].
  - apply list_elem_of_singleton in Huser. by subst.
  - apply list_elem_of_fmap in Huser as (s' & -> & _). done.
Qed.

Lemma getContentDetails_course_id db courseId content :
  getContentDetails db courseId "course" = Some content →
  content_id content = courseId.
Proof.
  unfold getContentDetails. simpl. intros Hhead.
  apply head_Some_elem_of in Hhead.
  apply list_elem_of_bind in Hhead as (c & Hc & _).
  case_bool_decide; [|by apply not_elem_of_nil in Hc].
  apply list_elem_of_singleton in Hc. by subst.
Qed.

Lemma checkEnrollment_not_enrolled db now userId courseId :
  existing_enrollments db userId courseId = [] →
  checkEnrollment db now userId courseId
  = createAccessResult now false "NOT_ENROLLED" "User not enrolled in course"
      MdEmpty.
Proof.
  unfold existing_enrollments, checkEnrollment. by intros ->.
Qed.

Lemma performAccessChecks_granted_enrolled db now user content r :
  performAccessChecks db now user content "course" = Ok r →
  hasAccess r = true →
  existing_enrollments db (user_id user) (content_id content) ≠ [].
Proof.
  intros Hperform Hgranted Hnone.
  unfold performAccessChecks in Hperform.
  rewrite (checkEnrollment_not_enrolled _ _ _ _ Hnone) in Hperform.
  simpl in Hperform.
  repeat match type of Hperform with
  | context [negb ?b] => destruct b eqn:?; simpl in Hperform
  | context [checkLevelAccess ?a ?b ?c ?d] =>
      destruct (checkLevelAccess a b c d); simpl in Hperform
  end; unfold mret, result_ret in Hperform; simplify_eq; simpl in *;
    congruence.
Qed.

Lemma live_Some {A} now (entry : option (A * timestamp)) v :
  live now entry = Some v → ∃ expires, entry = Some (v, expires).
Proof.
  unfold live. destruct entry as [[v' expires]|]; [|done].
  case_bool_decide; [|done]. intros [= ->]. by exists expires.
Qed.

(** What an access check does to the world: nothing, or the write of the
    decision it has just computed. *)
Lemma checkContentAccess_world now userId contentId contentType w :
  let w' := (checkContentAccess now userId contentId contentType w).2 in
  w' = w
  ∨ ∃ user content r,
      getUserWithSubscription (w_db w) userId = Some user
      ∧ getContentDetails (w_db w) contentId contentType = Some content
      ∧ performAccessChecks (w_db w) now user content contentType = Ok r
      ∧ w' = with_redis
               (set_access_entries
                  (<[(userId, contentId, contentType) := (r, now + 300 * 1000)]>
                     (access_entries (w_redis w)))
                  (w_redis w)) w.
Proof.
  destruct (faulty (w_redis w) GET) eqn:Hget.
  { left. by rewrite checkContentAccess_read_fault. }
  destruct (live now (access_entries (w_redis w)
                        !! (userId, contentId, contentType)))
    as [cached|] eqn:Hlive.
  { left. by rewrite (checkContentAccess_hit _ _ _ _ _ _ Hget Hlive). }
  rewrite (checkContentAccess_miss _ _ _ _ _ Hget Hlive).
  destruct (getUserWithSubscription (w_db w) userId) as [user|]; [|by left].
  destruct (getContentDetails (w_db w) contentId contentType) as [content|];
    [|by left].
  destruct (performAccessChecks (w_db w) now user content contentType)
    as [r|e] eqn:Hperform; [|by left].
  destruct (faulty (w_redis w) SETEX); [by left|].
  right. by exists user, content, r.
Qed.

Lemma checkContentAccess_consistent now userId contentId contentType w :
  cache_consistent w →
  cache_consistent (checkContentAccess now userId contentId contentType w).2.
Proof.
  intros Hcons.
  destruct (checkContentAccess_world now userId contentId contentType w)
    as [-> | (user & content & r & Hu & Hc & Hr & ->)]; [done|].
  intros u c v expires Hlookup Hgranted. simpl in *.
  destruct (decide ((userId, contentId, contentType) = (u, c, "course")))
    as [Heq|Hne].
  - injection Heq as -> -> ->.
    rewrite lookup_insert_eq in Hlookup. injection Hlookup as -> _.
    rewrite <- (getUserWithSubscription_id _ _ _ Hu).
    rewrite <- (getContentDetails_course_id _ _ _ Hc).
    by apply (performAccessChecks_granted_enrolled _ now _ _ v).
  - rewrite lookup_insert_ne in Hlookup by done.
    by apply (Hcons u c v expires).
Qed.

Lemma checkContentAccess_db now userId contentId contentType w :
  w_db (checkContentAccess now userId contentId contentType w).2 = w_db w.
Proof.
  destruct (checkContentAccess_world now userId contentId contentType w)
    as [-> | (user & content & r & _ & _ & _ & ->)]; done.
Qed.

(** Under the invariant a granted course has its enrollment row. *)
Lemma checkContentAccess_granted_enrolled now userId courseId w :
  cache_consistent w →
  hasAccess (checkContentAccess now userId courseId "course" w).1 = true →
  existing_enrollments (w_db w) userId courseId ≠ [].
Proof.
  intros Hcons.
  destruct (faulty (w_redis w) GET) eqn:Hget.
  { by rewrite checkContentAccess_read_fault. }
  destruct (live now (access_entries (w_redis w)
                        !! (userId, courseId, "course")))
    as [cached|] eqn:Hlive.
  { rewrite (checkContentAccess_hit _ _ _ _ _ _ Hget Hlive). simpl.
    apply live_Some in Hlive as [expires Hlookup].
    by apply (Hcons userId courseId cached expires). }
  rewrite (checkContentAccess_miss _ _ _ _ _ Hget Hlive).
  destruct (getUserWithSubscription (w_db w) userId) as [user|] eqn:Hu;
    [|done].
  destruct (getContentDetails (w_db w) courseId "course") as [content|] eqn:Hc;
    [|done].
  destruct (performAccessChecks (w_db w) now user content "course")
    as [r|e] eqn:Hperform; [|done].
  destruct (faulty (w_redis w) SETEX); [done|]. simpl. intros Hgranted.
  rewrite <- (getUserWithSubscription_id _ _ _ Hu).
  rewrite <- (getContentDetails_course_id _ _ _ Hc).
  by apply (performAccessChecks_granted_enrolled _ now _ _ r).
Qed.

Lemma narrows_refl w : narrows w w.
Proof. split; [done|auto]. Qed.

Lemma narrows_trans w1 w2 w3 : narrows w1 w2 → narrows w2 w3 → narrows w1 w3.
Proof.
  intros [Hc12 He12] [Hc23 He23]. split; [by etrans|].
  intros u c H. by apply He23, He12.
Qed.

Lemma narrows_consistent w w' :
  narrows w w' → cache_consistent w → cache_consistent w'.
Proof.
  intros [Hcache Henroll] Hcons u c v expires Hlookup Hgranted.
  apply Henroll. apply (Hcons u c v expires); [|done].
  by eapply lookup_weaken.
Qed.

Lemma foldr_delete_subseteq `{Countable K} {A} (m : gmap K A) (ks : list K) :
  foldr delete m ks ⊆ m.
Proof.
  induction ks as [|k ks IH]; simpl; [done|].
  etrans; [apply delete_subseteq|exact IH].
Qed.

Lemma clearUserContentCache_narrows now userId w :
  narrows w (clearUserContentCache now userId w).2.
Proof.
  unfold clearUserContentCache, redis_keys_access, redis_keys_accessible,
    redis_del_access, redis_del_accessible.
  op_unfold.
  destruct (faulty (w_redis w) KEYS) eqn:Hk; [apply narrows_refl|]. simpl.
  case_bool_decide; simpl.
  - destruct (faulty (w_redis w) DEL) eqn:Hd; simpl;
      [rewrite with_redis_same; apply narrows_refl|].
    rewrite Hk. simpl. case_bool_decide; simpl.
    + rewrite Hd. simpl. split; [apply foldr_delete_subseteq|auto].
    + split; [apply foldr_delete_subseteq|auto].
  - rewrite Hk. simpl. case_bool_decide; simpl.
    + destruct (faulty (w_redis w) DEL) eqn:Hd; simpl;
        rewrite ?with_redis_same; split; simpl; try done; auto.
    + rewrite !with_redis_same. apply narrows_refl.
Qed.

Lemma existing_enrollments_app db userId courseId rows :
  existing_enrollments db userId courseId ≠ [] →
  existing_enrollments (with_enrollments (enrollments db ++ rows) db)
    userId courseId ≠ [].
Proof.
  unfold existing_enrollments. simpl. rewrite filter_app.
  destruct (filter _ (enrollments db)); [done|]. by intros _.
Qed.

Lemma insert_enrollment_narrows new_id userId courseId w :
  narrows w (insert_enrollment new_id userId courseId w).2.
Proof.
  unfold insert_enrollment.
  repeat case_bool_decide; simpl; try apply narrows_refl.
  split; simpl; [done|]. intros u c. apply existing_enrollments_app.
Qed.

Lemma create_enrollment_narrows new_id now userId courseId w :
  narrows w (create_enrollment new_id now userId courseId w).2.
Proof.
  unfold create_enrollment, mbind, op_bind.
  pose proof (insert_enrollment_narrows new_id userId courseId w) as Hins.
  destruct (insert_enrollment new_id userId courseId w) as [[id|e] w1];
    simpl in Hins; [|done].
  pose proof (clearUserContentCache_narrows now userId w1) as Hclear.
  destruct (clearUserContentCache now userId w1) as [[[]|e] w2];
    simpl in *; by eapply narrows_trans.
Qed.

Lemma catching_world {A} (body : op A) (handler : A) w :
  (catching body handler w).2 = (body w).2.
Proof. unfold catching. by destruct (body w) as [[a|e] w']. Qed.

Lemma enrollUser_consistent new_id now userId courseId w :
  cache_consistent w →
  cache_consistent (enrollUser new_id now userId courseId w).2.
Proof.
  intros Hcons. rewrite enrollUser_unfold.
  pose proof (checkContentAccess_consistent now userId courseId "course" w
                Hcons) as Hcons1.
  destruct (checkContentAccess now userId courseId "course" w) as [access w1].
  simpl in Hcons1.
  destruct (hasAccess access); simpl; [|done].
  case_bool_decide; [done|].
  rewrite catching_world.
  by eapply narrows_consistent; [apply create_enrollment_narrows|].
Qed.

Lemma accessible_loop_consistent now userId courses acc w :
  cache_consistent w →
  cache_consistent (accessible_loop now userId courses acc w).2.
Proof.
  revert acc w. induction courses as [|course rest IH]; intros acc w Hcons;
    [done|].
  simpl. op_unfold.
  pose proof (checkContentAccess_consistent now userId (c_id course) "course"
                w Hcons) as Hcons1.
  destruct (checkContentAccess now userId (c_id course) "course" w)
    as [access w1].
  by apply IH.
Qed.

Lemma getAccessibleContent_consistent now userId lvl w :
  cache_consistent w →
  cache_consistent (getAccessibleContent now userId lvl w).2.
Proof.
  intros Hcons.
  unfold getAccessibleContent, redis_get_accessible, redis_setex_accessible.
  op_unfold.
  destruct (faulty (w_redis w) GET); [done|]. rewrite with_redis_same.
  destruct (live now _) as [cached|]; [done|].
  destruct (parse_level lvl) as [l|]; [|done].
  pose proof (accessible_loop_consistent now userId
                (filter (λ c, c_level c = l ∧ c_is_published c = true)
                        (courses (w_db w))) [] w Hcons) as Hloop.
  destruct (accessible_loop now userId _ [] w) as [[accessible|e] w1];
    [|done].
  simpl in Hloop.
  destruct (faulty (w_redis w1) SETEX); [done|].
  eapply narrows_consistent; [|exact Hloop].
  split; simpl; [done|auto].
Qed.

(** The invariant of the reachable worlds. *)
Lemma reachable_consistent w : reachable w → cache_consistent w.
Proof.
  induction 1 as [db faults|w w' _ IH Hstep].
  - intros u c v expires Hlookup. simpl in Hlookup.
    by rewrite lookup_empty in Hlookup.
  - destruct Hstep as [now u c t w|now u l w|now u w|id now u c w
                       |w db r Henroll Hcache].
    + by apply checkContentAccess_consistent.
    + by apply getAccessibleContent_consistent.
    + eapply narrows_consistent; [apply clearUserContentCache_narrows|done].
    + by apply enrollUser_consistent.
    + eapply narrows_consistent; [|exact IH].
      split; simpl; [done|].
      intros userId courseId. unfold existing_enrollments.
      by rewrite Henroll.
Qed.

Lemma evaluate_reaches_enrollment db now userId courseId user content :
  getUserWithSubscription db userId = Some user →
  getContentDetails db courseId "course" = Some content →
  existing_enrollments db userId courseId = [] →
  (∀ j c, (j < 5)%nat →
          access_checks db now user content "course" !! j = Some c →
          passes c) →
  evaluate db now userId courseId "course"
  = checkEnrollment db now userId courseId.
Proof.
  intros Hu Hc Hnone Hbefore.
  rewrite (evaluate_found _ _ _ _ _ _ _ Hu Hc).
  rewrite performAccessChecks_first_failure.
  rewrite (first_failure_at now _ 5 (checkEnrollment db now userId courseId));
    [done| | |done].
  - simpl. rewrite (getUserWithSubscription_id _ _ _ Hu).
    by rewrite (getContentDetails_course_id _ _ _ Hc).
  - by rewrite (checkEnrollment_not_enrolled _ _ _ _ Hnone).
Qed.

(** C9, amended.  In every reachable world [enrollUser] does not succeed
    and leaves the enrollments as they are.  Without an enrollment row for
    the user and the course, the access check it performs, which is
    [checkContentAccess] and reads the cache first, is negative, and
    [enrollUser] returns that denial; the denial is NOT_ENROLLED, from the
    enrollment step, when the cache works and holds no live decision for
    the key and the user and the course are found and pass the five checks
    before that step.  With an enrollment row, the result is
    ALREADY_ENROLLED or the denial of the access check. *)
Theorem enroll_refused_in_reachable_worlds w new_id now userId courseId :
  reachable w →
  let access := (checkContentAccess now userId courseId "course" w).1 in
  let res := (enrollUser new_id now userId courseId w).1 in
  success res = false
  ∧ enrollments (w_db (enrollUser new_id now userId courseId w).2)
    = enrollments (w_db w)
  ∧ (existing_enrollments (w_db w) userId courseId = [] →
     hasAccess access = false
     ∧ res = enroll_denied access
     ∧ (faulty (w_redis w) GET = false →
        faulty (w_redis w) SETEX = false →
        live now (access_entries (w_redis w) !! (userId, courseId, "course"))
          = None →
        ∀ user content,
          getUserWithSubscription (w_db w) userId = Some user →
          getContentDetails (w_db w) courseId "course" = Some content →
          (∀ j c, (j < 5)%nat →
                  access_checks (w_db w) now user content "course" !! j
                    = Some c →
                  passes c) →
          access = createAccessResult now false "NOT_ENROLLED"
                     "User not enrolled in course" MdEmpty
          ∧ enroll_code res = Some "NOT_ENROLLED"))
  ∧ (existing_enrollments (w_db w) userId courseId ≠ [] →
     res = already_enrolled
     ∨ (hasAccess access = false ∧ res = enroll_denied access)).
Proof.
  intros Hreach access res.
  pose proof (reachable_consistent w Hreach) as Hcons.
  pose proof (checkContentAccess_granted_enrolled now userId courseId w Hcons)
    as Hgranted.
  pose proof (checkContentAccess_db now userId courseId "course" w) as Hdb.
  pose proof (checkContentAccess_miss_evaluate now userId courseId "course" w)
    as Hmiss.
  subst access res. rewrite enrollUser_unfold.
  destruct (checkContentAccess now userId courseId "course" w)
    as [access w1]. simpl in Hgranted, Hdb, Hmiss. simpl.
  destruct (hasAccess access) eqn:Haccess; simpl.
  - pose proof (Hgranted eq_refl) as Hrow.
    rewrite bool_decide_true.
    2:{ rewrite Hdb.
        destruct (existing_enrollments (w_db w) userId courseId); [done|].
        simpl. lia. }
    simpl. rewrite Hdb. split_and!; [done|done| |by left].
    intros Hnone. done.
  - rewrite Hdb. split_and!; [done|done| |by right].
    intros Hnone. split_and!; [done|done|].
    intros Hget Hset Hlive user content Hu Hc Hbefore.
    rewrite (Hmiss Hget Hset Hlive).
    rewrite (evaluate_reaches_enrollment _ _ _ _ user content Hu Hc Hnone
               Hbefore).
    by rewrite (checkEnrollment_not_enrolled _ _ _ _ Hnone).
Qed.

Lemma enroll_refused_in_reachable_worlds_witness :
  enroll_code (enrollUser "E1" 2000 "u1" "C1" (world academy no_faults)).1
  = Some "NOT_ENROLLED".
Proof.
  refine (proj2 (proj2 (proj2 (proj1 (proj2 (proj2
            (enroll_refused_in_reachable_worlds (world academy no_faults)
               "E1" 2000 "u1" "C1" (reachable_initial academy no_faults))))
            eq_refl))
            eq_refl eq_refl eq_refl
            (user_of_rows {| u_id := "u1"; u_is_active := true;
                             u_is_verified := true |} None)
            (content_of_course (course "C1" beginner true true false []))
            eq_refl eq_refl _)).
  intros [|[|[|[|[|j]]]]] c Hj Hc; try lia;
    vm_compute in Hc; injection Hc as <-; by eexists.
Defined.

Lemma stale_world_reachable : reachable stale_world.
Proof.
  eapply reachable_step.
  - eapply reachable_step; [apply (reachable_initial academy no_faults)|].
    apply (step_checkContentAccess 1000 "u3" "C1" "course").
  - by apply (step_surroundings _ academy_verified).
Qed.

(** C9 as stated fails.  The world [stale_world] is reachable and holds no
    enrollment row of ["u3"] for ["C1"]; there the user and the course pass
    the five checks before the enrollment step, so the evaluation of the
    store answers NOT_ENROLLED, yet the access check that [enrollUser]
    performs reads the cached decision, and the denial returned is
    USER_NOT_VERIFIED.  In the initial world over [academy] the same user,
    not yet verified and without a row, is refused with USER_NOT_VERIFIED
    by the evaluation itself, before its enrollment step. *)
Lemma enroll_denial_not_always_not_enrolled :
  reachable stale_world
  ∧ existing_enrollments (w_db stale_world) "u3" "C1" = []
  ∧ code (evaluate (w_db stale_world) 2000 "u3" "C1" "course")
    = Some "NOT_ENROLLED"
  ∧ enroll_code (enrollUser "E1" 2000 "u3" "C1" stale_world).1
    = Some "USER_NOT_VERIFIED"
  ∧ reachable (world academy no_faults)
  ∧ existing_enrollments academy "u3" "C1" = []
  ∧ enroll_code (enrollUser "E1" 2000 "u3" "C1" (world academy no_faults)).1
    = Some "USER_NOT_VERIFIED".
Proof.
  split_and!; try (vm_compute; reflexivity).
  - exact stale_world_reachable.
  - apply reachable_initial.
Qed.

(** The learner of [academy] passes every check before the enrollment step
    and is refused at it, so cannot enroll. *)
Example enroll_refused_for_want_of_enrollment :
  (enrollUser "E1" 2000 "u1" "C1" (world academy no_faults)).1
  = enroll_denied (createAccessResult 2000 false "NOT_ENROLLED"
                     "User not enrolled in course" MdEmpty).
Proof. vm_compute. reflexivity. Qed.

(** ** Two calls in flight *)

(** The steps of one call, run without interruption, are [enrollUser]. *)
Lemma enroll_steps_sequential new_id now userId courseId w :
  let step := λ s : enroll_pc * World,
                enroll_step new_id now userId courseId s.1 s.2 in
  step (step (step (step (AtAccessCheck, w))))
  = (Returned (enrollUser new_id now userId courseId w).1,
     (enrollUser new_id now userId courseId w).2).
Proof.
  simpl. rewrite enrollUser_unfold.
  destruct (checkContentAccess now userId courseId "course" w) as [access w1].
  destruct (hasAccess access); simpl; [|done].
  case_bool_decide; simpl; [done|].
  unfold catching, create_enrollment, mbind, op_bind.
  destruct (insert_enrollment new_id userId courseId w1) as [[id|e] w2];
    simpl; [|done].
  by destruct (clearUserContentCache now userId w2) as [[[]|e] w3].
Qed.

Lemma enroll_step_held new_id now userId courseId pc w :
  cache_consistent w →
  call_held userId courseId w pc →
  let '(pc', w') := enroll_step new_id now userId courseId pc w in
  cache_consistent w' ∧ w_db w' = w_db w ∧ call_held userId courseId w' pc'.
Proof.
  intros Hcons Hheld. destruct pc as [| | |id|res]; simpl in *; try done.
  - pose proof (checkContentAccess_consistent now userId courseId "course" w
                  Hcons) as Hcons1.
    pose proof (checkContentAccess_granted_enrolled now userId courseId w
                  Hcons) as Hgranted.
    pose proof (checkContentAccess_db now userId courseId "course" w) as Hdb.
    destruct (checkContentAccess now userId courseId "course" w)
      as [access w1]. simpl in *.
    split_and!; [done|done|].
    destruct (hasAccess access); simpl; [|done].
    rewrite Hdb. by apply Hgranted.
  - split_and!; [done|done|].
    rewrite bool_decide_true; [done|].
    destruct (existing_enrollments (w_db w) userId courseId); [done|].
    simpl. lia.
Qed.

Lemma call_held_same_db userId courseId w w' pc :
  w_db w' = w_db w →
  call_held userId courseId w pc → call_held userId courseId w' pc.
Proof. intros Hdb. destruct pc; simpl; try done. by rewrite Hdb. Qed.

Lemma race_step_held calls s turn_a :
  cache_consistent (race_world s) →
  call_held (race_user calls) (race_course calls) (race_world s) (call_a s) →
  call_held (race_user calls) (race_course calls) (race_world s) (call_b s) →
  let s' := race_step calls s turn_a in
  cache_consistent (race_world s')
  ∧ call_held (race_user calls) (race_course calls) (race_world s') (call_a s')
  ∧ call_held (race_user calls) (race_course calls) (race_world s') (call_b s').
Proof.
  intros Hcons Ha Hb. unfold race_step. destruct turn_a.
  - pose proof (enroll_step_held (id_a calls) (now_a calls) _ _ _ _ Hcons Ha)
      as Hstep.
    destruct (enroll_step _ _ _ _ (call_a s) (race_world s)) as [pc w].
    destruct Hstep as (Hcons' & Hdb & Hpc). simpl.
    split_and!; [done|done|]. by eapply call_held_same_db.
  - pose proof (enroll_step_held (id_b calls) (now_b calls) _ _ _ _ Hcons Hb)
      as Hstep.
    destruct (enroll_step _ _ _ _ (call_b s) (race_world s)) as [pc w].
    destruct Hstep as (Hcons' & Hdb & Hpc). simpl.
    split_and!; [done| |done]. by eapply call_held_same_db.
Qed.

(** From a world with a consistent cache, whatever the schedule, neither
    call passes the SELECT, and a call that has returned has not
    succeeded. *)
Lemma race_never_succeeds calls schedule s :
  cache_consistent (race_world s) →
  call_held (race_user calls) (race_course calls) (race_world s) (call_a s) →
  call_held (race_user calls) (race_course calls) (race_world s) (call_b s) →
  let s' := run_race calls schedule s in
  cache_consistent (race_world s')
  ∧ call_held (race_user calls) (race_course calls) (race_world s') (call_a s')
  ∧ call_held (race_user calls) (race_course calls) (race_world s') (call_b s').
Proof.
  revert s. induction schedule as [|turn_a schedule IH];
    intros s Hcons Ha Hb; [done|].
  destruct (race_step_held calls s turn_a Hcons Ha Hb) as (? & ? & ?).
  simpl. by apply IH.
Qed.

Lemma race_from_reachable_never_succeeds calls schedule w res :
  reachable w →
  call_a (run_race calls schedule (race_start w)) = Returned res
  ∨ call_b (run_race calls schedule (race_start w)) = Returned res →
  success res = false.
Proof.
  intros Hreach Hres.
  destruct (race_never_succeeds calls schedule (race_start w)
              (reachable_consistent w Hreach) I I) as (_ & Ha & Hb).
  destruct Hres as [Hres|Hres]; rewrite Hres in *; done.
Qed.

(** C8 at the failing input.  Two calls for ["u1"] and ["C1"] on the store
    without an enrollment row return NOT_ENROLLED both, in either order:
    none succeeds and none is answered ALREADY_ENROLLED.  And where both
    calls do reach the INSERT (a cached grant whose row is gone), the one
    that loses on the uniqueness constraint returns SYSTEM_ERROR. *)
Theorem concurrent_enrolls_both_refused :
  let refused :=
    Returned (enroll_denied
                (createAccessResult 2000 false "NOT_ENROLLED"
                   "User not enrolled in course" MdEmpty)) in
  (∀ a_first : bool,
     let s := run_race two_calls [a_first; negb a_first]
                (race_start (world academy no_faults)) in
     call_a s = refused ∧ call_b s = refused)
  ∧ (let s := run_race two_calls
                [true; false; true; false; true; false; true]
                (race_start orphan_world) in
     call_a s = Returned (enrolled "E1")
     ∧ call_b s = Returned enroll_system_error).
Proof.
  split.
  - intros [|]; split; vm_compute; reflexivity.
  - split; vm_compute; reflexivity.
Qed.

(** * Further properties of the service *)

(** ** What a granted evaluation has checked *)

Lemma performAccessChecks_granted db now user content contentType r :
  performAccessChecks db now user content contentType = Ok r →
  hasAccess r = true →
  r = access_granted now
  ∧ is_published content = true
  ∧ is_verified user = true
  ∧ hasAccess (checkSubscriptionAccess now user content) = true
  ∧ (∃ lc, checkLevelAccess db now (user_id user) content = Ok lc
           ∧ hasAccess lc = true)
  ∧ hasAccess (checkPrerequisites db now (user_id user) content contentType)
    = true
  ∧ (contentType = "course" →
     hasAccess (checkEnrollment db now (user_id user) (content_id content))
     = true).
Proof.
  unfold performAccessChecks, mret, result_ret. intros Hperform Hgranted.
  destruct (is_published content); simpl in Hperform;
    [|simplify_eq; done].
  destruct (is_verified user); simpl in Hperform; [|simplify_eq; done].
  destruct (hasAccess (checkSubscriptionAccess now user content)) eqn:Hs;
    simpl in Hperform; [|simplify_eq; congruence].
  destruct (checkLevelAccess db now (user_id user) content) as [lc|e];
    simpl in Hperform; [|done].
  destruct (hasAccess lc) eqn:Hlc; simpl in Hperform;
    [|simplify_eq; congruence].
  destruct (hasAccess (checkPrerequisites _ _ _ _ _)) eqn:Hp;
    simpl in Hperform; [|simplify_eq; congruence].
  destruct (hasAccess (if bool_decide _ then _ else _)) eqn:He;
    simpl in Hperform; [|simplify_eq; congruence].
  injection Hperform as <-.
  split_and!; try done; [by exists lc|].
  intros ->. by rewrite bool_decide_true in He.
Qed.

Lemma performAccessChecks_all_pass db now user content contentType lc :
  is_published content = true →
  is_verified user = true →
  hasAccess (checkSubscriptionAccess now user content) = true →
  checkLevelAccess db now (user_id user) content = Ok lc →
  hasAccess lc = true →
  hasAccess (checkPrerequisites db now (user_id user) content contentType)
    = true →
  (contentType = "course" →
   hasAccess (checkEnrollment db now (user_id user) (content_id content))
   = true) →
  performAccessChecks db now user content contentType
  = Ok (access_granted now).
Proof.
  intros Hpub Hver Hsub Hlevel Hlc Hpre Henr. unfold performAccessChecks.
  rewrite Hpub, Hver, Hsub, Hlevel. simpl. rewrite Hlc, Hpre. simpl.
  case_bool_decide as Hcourse; [|done].
  by rewrite (Henr Hcourse).
Qed.

Lemma evaluate_granted db now userId contentId contentType :
  hasAccess (evaluate db now userId contentId contentType) = true →
  ∃ user content,
    getUserWithSubscription db userId = Some user
    ∧ getContentDetails db contentId contentType = Some content
    ∧ performAccessChecks db now user content contentType
      = Ok (access_granted now).
Proof.
  unfold evaluate.
  destruct (getUserWithSubscription db userId) as [user|]; [|done].
  destruct (getContentDetails db contentId contentType) as [content|];
    [|done].
  destruct (performAccessChecks db now user content contentType) as [r|e]
    eqn:Hperform; [|done].
  simpl. intros Hgranted. exists user, content. split_and!; [done|done|].
  by destruct (performAccessChecks_granted _ _ _ _ _ _ Hperform Hgranted)
    as [-> _].
Qed.

(** ** The shape of a decision *)

Lemma plain_decision_shape now granted k msg :
  k ∈ evaluation_codes →
  k ≠ "PREREQUISITE_LEVEL_NOT_COMPLETED" →
  k ≠ "PREREQUISITES_NOT_MET" →
  (granted = true ↔ k = "ACCESS_GRANTED") →
  decision_shape now (createAccessResult now granted k msg MdEmpty).
Proof.
  intros Hk Hlevel Hprerequisites Hgranted.
  split_and!; [done|by eexists|].
  exists k. split_and!; done.
Qed.

Lemma checkSubscriptionAccess_shape now user content :
  hasAccess (checkSubscriptionAccess now user content) = false →
  decision_shape now (checkSubscriptionAccess now user content).
Proof.
  unfold checkSubscriptionAccess.
  repeat case_match; simpl; try done; intros _;
    apply plain_decision_shape; try compute_done; done.
Qed.

Lemma checkEnrollment_shape db now userId courseId :
  hasAccess (checkEnrollment db now userId courseId) = false →
  decision_shape now (checkEnrollment db now userId courseId).
Proof.
  unfold checkEnrollment.
  repeat case_match; simpl; try done; intros _;
    apply plain_decision_shape; try compute_done; done.
Qed.

Lemma checkLevelAccess_shape db now userId content r :
  checkLevelAccess db now userId content = Ok r →
  hasAccess r = false →
  decision_shape now r.
Proof.
  unfold checkLevelAccess.
  assert (∀ name c, c < 80 → decision_shape now (level_denied now name c))
    as Hdenied.
  { intros name c Hc. split_and!; [done|by eexists|].
    eexists. split_and!; [done|compute_done|done| |done|done].
    intros _. by exists c. }
  destruct (level content); simpl.
  - intros [= <-]; done.
  - destruct (getLevelCompletion db userId beginner) as [c|]; simpl; [|done].
    case_bool_decide; intros [= <-]; [|done]. intros _. by apply Hdenied.
  - destruct (getLevelCompletion db userId intermediate) as [c|]; simpl;
      [|done].
    case_bool_decide; intros [= <-]; [|done]. intros _. by apply Hdenied.
Qed.

Lemma checkPrerequisites_shape db now userId content contentType :
  hasAccess (checkPrerequisites db now userId content contentType) = false →
  decision_shape now (checkPrerequisites db now userId content contentType).
Proof.
  unfold checkPrerequisites.
  destruct (prerequisites content) as [[|p ps]|]; [done| |done].
  cbv zeta.
  generalize (filter (λ row : uuid * bool, row.2 = false)
                (prerequisite_rows db contentType userId (p :: ps))).
  intros [|row rows]; [done|].
  rewrite bool_decide_true by (simpl; lia). intros _.
  split_and!; [done|by eexists|].
  eexists. split_and!; [done|compute_done|done|done| |done].
  intros _. by eexists.
Qed.

Lemma performAccessChecks_shape db now user content contentType r :
  performAccessChecks db now user content contentType = Ok r →
  decision_shape now r.
Proof.
  unfold performAccessChecks, mret, result_ret. intros Hperform.
  destruct (is_published content); simpl in Hperform.
  2:{ simplify_eq. by apply plain_decision_shape; [compute_done..|]. }
  destruct (is_verified user); simpl in Hperform.
  2:{ simplify_eq. by apply plain_decision_shape; [compute_done..|]. }
  destruct (hasAccess (checkSubscriptionAccess now user content)) eqn:Hs;
    simpl in Hperform.
  2:{ simplify_eq. by apply checkSubscriptionAccess_shape. }
  destruct (checkLevelAccess db now (user_id user) content) as [lc|e] eqn:Hl;
    simpl in Hperform; [|done].
  destruct (hasAccess lc) eqn:Hlc; simpl in Hperform.
  2:{ simplify_eq. by eapply checkLevelAccess_shape. }
  destruct (hasAccess (checkPrerequisites _ _ _ _ _)) eqn:Hp;
    simpl in Hperform.
  2:{ simplify_eq. by apply checkPrerequisites_shape. }
  destruct (hasAccess (if bool_decide _ then _ else _)) eqn:He;
    simpl in Hperform.
  - simplify_eq. by apply plain_decision_shape; [compute_done..|].
  - simplify_eq. case_bool_decide; [|done].
    by apply checkEnrollment_shape.
Qed.

(** X1.  Every decision of [evaluate] carries one of the thirteen decision
    codes, a message and the instant of the evaluation; it grants access
    exactly when its code is ACCESS_GRANTED; its metadata are empty except
    for PREREQUISITE_LEVEL_NOT_COMPLETED, which carries the threshold 80 and
    a completion below it, and PREREQUISITES_NOT_MET, which carries a
    non-empty list of identifiers. *)
Theorem evaluate_decision_shape db now userId contentId contentType :
  decision_shape now (evaluate db now userId contentId contentType).
Proof.
  unfold evaluate.
  destruct (getUserWithSubscription db userId) as [user|].
  2:{ by apply plain_decision_shape; [compute_done..|]. }
  destruct (getContentDetails db contentId contentType) as [content|].
  2:{ by apply plain_decision_shape; [compute_done..|]. }
  destruct (performAccessChecks db now user content contentType) as [r|e]
    eqn:Hperform; simpl.
  - by eapply performAccessChecks_shape.
  - by apply plain_decision_shape; [compute_done..|].
Qed.

(** ** Enrollment and the content types *)

(** X2.  The decision for a module or a lesson, and for any content type
    other than course, does not depend on the enrollments: whatever rows the
    table holds, the evaluation is the same. *)
Theorem evaluation_ignores_enrollments_unless_course db es now userId contentId
    contentType :
  contentType ≠ "course" →
  evaluate (with_enrollments es db) now userId contentId contentType
  = evaluate db now userId contentId contentType.
Proof.
  intros Hother. unfold evaluate, performAccessChecks.
  rewrite !bool_decide_false by done. reflexivity.
Qed.

Lemma evaluation_ignores_enrollments_unless_course_witness :
  evaluate (with_enrollments [] academy_enrolled) 1000 "u1" "M1" "module"
  = evaluate academy_enrolled 1000 "u1" "M1" "module".
Proof.
  apply (evaluation_ignores_enrollments_unless_course academy_enrolled []
           1000 "u1" "M1" "module").
  discriminate.
Defined.

(** X3.  A course is granted only to a user whose enrollment row for it, the
    first that the store returns, is active and has not expired. *)
Theorem course_grant_needs_live_enrollment db now userId courseId :
  hasAccess (evaluate db now userId courseId "course") = true →
  ∃ e, head (existing_enrollments db userId courseId) = Some e
     ∧ e_is_active e = true
     ∧ ¬ enrollment_expired now e.
Proof.
  intros Hgranted.
  destruct (evaluate_granted _ _ _ _ _ Hgranted)
    as (user & content & Hu & Hc & Hperform).
  destruct (performAccessChecks_granted _ _ _ _ _ _ Hperform eq_refl)
    as (_ & _ & _ & _ & _ & _ & Henr).
  specialize (Henr eq_refl).
  rewrite (getUserWithSubscription_id _ _ _ Hu) in Henr.
  rewrite (getContentDetails_course_id _ _ _ Hc) in Henr.
  unfold checkEnrollment in Henr. fold (existing_enrollments db userId courseId) in Henr.
  destruct (head (existing_enrollments db userId courseId)) as [e|];
    [|done].
  exists e. destruct (e_is_active e); [|done]. simpl in Henr.
  split_and!; [done|done|].
  intros (t & Ht & Hpast). rewrite Ht in Henr. simpl in Henr.
  by rewrite bool_decide_true in Henr.
Qed.

Lemma course_grant_needs_live_enrollment_witness :
  ∃ e, head (existing_enrollments academy_enrolled "u1" "C1") = Some e
     ∧ e_is_active e = true
     ∧ ¬ enrollment_expired 1000 e.
Proof.
  apply (course_grant_needs_live_enrollment academy_enrolled 1000 "u1" "C1").
  reflexivity.
Defined.

(** ** The passing of time *)

Lemma in_future_earlier now now' t :
  now ≤ now' → in_future now' t = true → in_future now t = true.
Proof.
  unfold in_future. destruct t as [t|]; [|done].
  rewrite !bool_decide_eq_true. lia.
Qed.

Lemma in_past_earlier now now' t :
  now ≤ now' → in_past now' t = false → in_past now t = false.
Proof.
  unfold in_past. destruct t as [t|]; [|done].
  rewrite !bool_decide_eq_false. lia.
Qed.

Lemma checkSubscriptionAccess_earlier now now' user content :
  now ≤ now' →
  hasAccess (checkSubscriptionAccess now' user content) = true →
  hasAccess (checkSubscriptionAccess now user content) = true.
Proof.
  intros Hle. unfold checkSubscriptionAccess.
  destruct (is_free content); [done|].
  destruct (requires_subscription content); [|done].
  destruct (negb (bool_decide (subscription_status user = Some active))).
  - destruct (in_future now' (trial_end user)) eqn:Hf; [|done].
    by rewrite (in_future_earlier now now' _ Hle Hf).
  - destruct (in_past now' (current_period_end user)) eqn:Hp; [done|].
    by rewrite (in_past_earlier now now' _ Hle Hp).
Qed.

Lemma checkEnrollment_earlier db now now' userId courseId :
  now ≤ now' →
  hasAccess (checkEnrollment db now' userId courseId) = true →
  hasAccess (checkEnrollment db now userId courseId) = true.
Proof.
  intros Hle. unfold checkEnrollment.
  destruct (head _) as [e|]; [|done].
  destruct (negb (e_is_active e)); [done|].
  destruct (in_past now' (e_expires_at e)) eqn:Hp; [done|].
  by rewrite (in_past_earlier now now' _ Hle Hp).
Qed.

Lemma checkLevelAccess_any_time db now now' userId content lc :
  checkLevelAccess db now' userId content = Ok lc →
  hasAccess lc = true →
  checkLevelAccess db now userId content = Ok access_ok.
Proof.
  unfold checkLevelAccess. destruct (level content); simpl; [done| |].
  - destruct (getLevelCompletion db userId beginner); simpl; [|done].
    case_bool_decide; [|done]. by intros [= <-].
  - destruct (getLevelCompletion db userId intermediate); simpl; [|done].
    case_bool_decide; [|done]. by intros [= <-].
Qed.

Lemma checkPrerequisites_any_time db now now' userId content contentType :
  hasAccess (checkPrerequisites db now' userId content contentType)
  = hasAccess (checkPrerequisites db now userId content contentType).
Proof.
  unfold checkPrerequisites.
  destruct (prerequisites content) as [[|p ps]|]; [done| |done].
  cbv zeta. by case_bool_decide.
Qed.

(** X4.  On a store that does not change, access is only lost as time
    passes: an evaluation that grants at some instant grants at every
    earlier instant too.  Trial ends, period ends and enrollment expiries
    are the only readings of the clock. *)
Theorem access_granted_at_earlier_instants db now now' userId contentId
    contentType :
  now ≤ now' →
  hasAccess (evaluate db now' userId contentId contentType) = true →
  evaluate db now userId contentId contentType = access_granted now.
Proof.
  intros Hle Hgranted.
  destruct (evaluate_granted _ _ _ _ _ Hgranted)
    as (user & content & Hu & Hc & Hperform).
  destruct (performAccessChecks_granted _ _ _ _ _ _ Hperform eq_refl)
    as (_ & Hpub & Hver & Hsub & (lc & Hlevel & Hlc) & Hpre & Henr).
  rewrite (evaluate_found _ _ _ _ _ _ _ Hu Hc).
  rewrite (performAccessChecks_all_pass db now user content contentType
             access_ok); try done.
  - by eapply checkSubscriptionAccess_earlier.
  - by eapply checkLevelAccess_any_time.
  - by rewrite <- (checkPrerequisites_any_time db now now').
  - intros Hcourse. eapply checkEnrollment_earlier; [done|]. by apply Henr.
Qed.

Lemma access_granted_at_earlier_instants_witness :
  evaluate academy 500 "u1" "M1" "module" = access_granted 500.
Proof.
  apply (access_granted_at_earlier_instants academy 500 1000 "u1" "M1"
           "module").
  - lia.
  - reflexivity.
Defined.

(** ** Lookups under the primary keys *)

Lemma bind_unique {A B K} (key : A → K) (f : A → list B) (l : list A) (x : A) :
  NoDup (key <$> l) →
  x ∈ l →
  (∀ y, y ∈ l → key y ≠ key x → f y = []) →
  l ≫= f = f x.
Proof.
  induction l as [|y l IH]; intros Hnd Hx Hother.
  - by apply not_elem_of_nil in Hx.
  - rewrite fmap_cons in Hnd. apply NoDup_cons in Hnd as [Hy Hnd].
    rewrite bind_cons.
    apply elem_of_cons in Hx as [-> | Hx].
    + rewrite list_bind_all_nil; [by rewrite app_nil_r|].
      intros z Hz. apply Hother; [by right|].
      intros Hkey. apply Hy. rewrite <- Hkey. by apply list_elem_of_fmap_2.
    + rewrite (Hother y); [|by left|].
      * apply IH; [done|done|]. intros z Hz. apply Hother. by right.
      * intros Hkey. apply Hy. rewrite Hkey. by apply list_elem_of_fmap_2.
Qed.

Lemma getUserWithSubscription_found db u :
  primary_keys db →
  u ∈ users db →
  u_is_active u = true →
  getUserWithSubscription db (u_id u)
  = Some (user_of_rows u
            (head (filter (λ s, s_user_id s = u_id u) (subscriptions db)))).
Proof.
  intros Hpk Hu Hactive. unfold getUserWithSubscription.
  rewrite (bind_unique u_id _ (users db) u (users_pk db Hpk) Hu).
  - rewrite bool_decide_true by done.
    by destruct (filter _ (subscriptions db)).
  - intros y _ Hne. rewrite bool_decide_false; [done|]. by intros [? _].
Qed.

Lemma getContentDetails_course_found db c :
  primary_keys db →
  c ∈ courses db →
  getContentDetails db (c_id c) "course" = Some (content_of_course c).
Proof.
  intros Hpk Hc. unfold getContentDetails. simpl.
  rewrite (bind_unique c_id _ (courses db) c (courses_pk db Hpk) Hc).
  - by rewrite bool_decide_true.
  - intros y _ Hne. by rewrite bool_decide_false.
Qed.

Lemma getContentDetails_module_found db m c :
  primary_keys db →
  m ∈ modules db → c ∈ courses db → m_course_id m = c_id c →
  getContentDetails db (m_id m) "module" = Some (content_of_module m c).
Proof.
  intros Hpk Hm Hc Hlink. unfold getContentDetails. simpl.
  rewrite (bind_unique m_id _ (modules db) m (modules_pk db Hpk) Hm).
  - rewrite (bind_unique c_id _ (courses db) c (courses_pk db Hpk) Hc).
    + by rewrite bool_decide_true.
    + intros y _ Hne. rewrite bool_decide_false; [done|].
      intros [? _]. congruence.
  - intros y _ Hne. apply list_bind_all_nil. intros c' _.
    rewrite bool_decide_false; [done|]. by intros [_ ?].
Qed.

Lemma getContentDetails_lesson_found db l m c :
  primary_keys db →
  l ∈ lessons db → m ∈ modules db → c ∈ courses db →
  l_module_id l = m_id m → m_course_id m = c_id c →
  getContentDetails db (l_id l) "lesson" = Some (content_of_lesson l m c).
Proof.
  intros Hpk Hl Hm Hc Hlm Hmc. unfold getContentDetails. simpl.
  rewrite (bind_unique l_id _ (lessons db) l (lessons_pk db Hpk) Hl).
  - rewrite (bind_unique m_id _ (modules db) m (modules_pk db Hpk) Hm).
    + rewrite (bind_unique c_id _ (courses db) c (courses_pk db Hpk) Hc).
      * by rewrite bool_decide_true.
      * intros y _ Hne. rewrite bool_decide_false; [done|].
        intros (_ & ? & _). congruence.
    + intros y _ Hne. apply list_bind_all_nil. intros c' _.
      rewrite bool_decide_false; [done|]. intros (? & _ & _). congruence.
  - intros y _ Hne. apply list_bind_all_nil. intros m' _.
    apply list_bind_all_nil. intros c' _.
    rewrite bool_decide_false; [done|]. by intros (_ & _ & ?).
Qed.

Lemma getContentDetails_course_row db courseId content :
  getContentDetails db courseId "course" = Some content →
  ∃ c, c ∈ courses db ∧ c_id c = courseId ∧ content = content_of_course c.
Proof.
  unfold getContentDetails. simpl. intros Hhead.
  apply head_Some_elem_of in Hhead.
  apply list_elem_of_bind in Hhead as (c & Hcontent & Hc).
  case_bool_decide; [|by apply not_elem_of_nil in Hcontent].
  apply list_elem_of_singleton in Hcontent. by exists c.
Qed.

(** X5.  Under the primary keys of the schema the content lookup finds the
    row with the identifier asked for and joins it with its parents: a
    course is described by its own row, a module by its row and the row of
    its course, a lesson by its row, the row of its module and the row of
    the course of that module.  The level, the publication flag and the two
    pricing flags of a module or a lesson are therefore those of its
    course, and a lesson has no prerequisite list. *)
Theorem content_lookup_joins_parents db l m c :
  primary_keys db →
  l ∈ lessons db → m ∈ modules db → c ∈ courses db →
  l_module_id l = m_id m → m_course_id m = c_id c →
  getContentDetails db (c_id c) "course" = Some (content_of_course c)
  ∧ getContentDetails db (m_id m) "module" = Some (content_of_module m c)
  ∧ getContentDetails db (l_id l) "lesson" = Some (content_of_lesson l m c)
  ∧ ∀ content,
      content = content_of_module m c ∨ content = content_of_lesson l m c →
      level content = c_level c
      ∧ is_published content = c_is_published c
      ∧ is_free content = c_is_free c
      ∧ requires_subscription content = c_requires_subscription c.
Proof.
  intros Hpk Hl Hm Hc Hlm Hmc. split_and!.
  - by apply getContentDetails_course_found.
  - by apply getContentDetails_module_found.
  - by apply getContentDetails_lesson_found.
  - by intros content [-> | ->].
Qed.

Lemma academy_primary_keys : primary_keys academy.
Proof. split; compute_done. Defined.

Lemma content_lookup_joins_parents_witness :
  getContentDetails academy "L2" "lesson"
  = Some (content_of_lesson {| l_id := "L2"; l_module_id := "M2" |}
            {| m_id := "M2"; m_course_id := "C1";
               m_prerequisites := Some ["M1"] |}
            (course "C1" beginner true true false [])).
Proof.
  apply (content_lookup_joins_parents academy
           {| l_id := "L2"; l_module_id := "M2" |}
           {| m_id := "M2"; m_course_id := "C1";
              m_prerequisites := Some ["M1"] |}
           (course "C1" beginner true true false [])
           academy_primary_keys).
  - simpl. right. left.
  - simpl. right. left.
  - simpl. left.
  - reflexivity.
  - reflexivity.
Defined.

(** ** What enrollment does not protect *)

Lemma enrollment_code_rest_passed db now user content r k :
  performAccessChecks db now user content "course" = Ok r →
  code r = Some k → k ∈ enrollment_codes →
  is_published content = true
  ∧ is_verified user = true
  ∧ hasAccess (checkSubscriptionAccess now user content) = true
  ∧ (∃ lc, checkLevelAccess db now (user_id user) content = Ok lc
           ∧ hasAccess lc = true).
Proof.
  unfold performAccessChecks, mret, result_ret. intros Hperform Hcode Hk.
  assert (∀ k', k' ∉ enrollment_codes → code r = Some k' → False) as Hnot.
  { intros k' Hk' Hcode'. rewrite Hcode in Hcode'. by simplify_eq. }
  destruct (is_published content); simpl in Hperform.
  2:{ simplify_eq. exfalso.
      eapply (Hnot "CONTENT_NOT_PUBLISHED"); [compute_done|done]. }
  destruct (is_verified user); simpl in Hperform.
  2:{ simplify_eq. exfalso.
      eapply (Hnot "USER_NOT_VERIFIED"); [compute_done|done]. }
  destruct (hasAccess (checkSubscriptionAccess now user content)) eqn:Hs;
    simpl in Hperform.
  2:{ simplify_eq. exfalso.
      destruct (checkSubscriptionAccess_code _ _ _ Hs) as [Hc|Hc];
        eapply Hnot; try exact Hc; compute_done. }
  destruct (checkLevelAccess db now (user_id user) content) as [lc|e] eqn:Hl;
    simpl in Hperform; [|done].
  destruct (hasAccess lc) eqn:Hlc; simpl in Hperform.
  2:{ simplify_eq. exfalso.
      eapply Hnot; [|exact (checkLevelAccess_code _ _ _ _ _ Hl Hlc)].
      compute_done. }
  split_and!; try done. by exists lc.
Qed.

(** X6.  Enrollment gates the course row only.  When the evaluation of a
    course stops at the enrollment step (NOT_ENROLLED, ENROLLMENT_INACTIVE
    or ENROLLMENT_EXPIRED), every lesson of every module of that course is
    granted to the same user at the same instant. *)
Theorem lessons_granted_without_enrollment db now userId courseId l m k :
  primary_keys db →
  l ∈ lessons db → m ∈ modules db →
  l_module_id l = m_id m → m_course_id m = courseId →
  code (evaluate db now userId courseId "course") = Some k →
  k ∈ enrollment_codes →
  evaluate db now userId (l_id l) "lesson" = access_granted now.
Proof.
  intros Hpk Hl Hm Hlm Hmc Hcode Hk. unfold evaluate in Hcode.
  destruct (getUserWithSubscription db userId) as [user|] eqn:Hu.
  2:{ simpl in Hcode. simplify_eq. exfalso.
      assert ("USER_NOT_FOUND" ∉ enrollment_codes) as Hn by compute_done.
      by apply Hn. }
  destruct (getContentDetails db courseId "course") as [content|] eqn:Hc.
  2:{ simpl in Hcode. simplify_eq. exfalso.
      assert ("CONTENT_NOT_FOUND" ∉ enrollment_codes) as Hn by compute_done.
      by apply Hn. }
  destruct (performAccessChecks db now user content "course") as [r|e]
    eqn:Hperform.
  2:{ simpl in Hcode. simplify_eq. exfalso.
      assert ("SYSTEM_ERROR" ∉ enrollment_codes) as Hn by compute_done.
      by apply Hn. }
  simpl in Hcode.
  destruct (enrollment_code_rest_passed _ _ _ _ _ _ Hperform Hcode Hk)
    as (Hpub & Hver & Hsub & (lc & Hlevel & Hlc)).
  destruct (getContentDetails_course_row _ _ _ Hc) as (c & Hcin & Hcid & ->).
  assert (getContentDetails db (l_id l) "lesson"
          = Some (content_of_lesson l m c)) as Hlesson.
  { apply getContentDetails_lesson_found; try done. congruence. }
  rewrite (evaluate_found _ _ _ _ _ _ _ Hu Hlesson).
  by rewrite (performAccessChecks_all_pass db now user _ "lesson" lc).
Qed.

Lemma lessons_granted_without_enrollment_witness :
  evaluate academy 1000 "u1" "L2" "lesson" = access_granted 1000.
Proof.
  apply (lessons_granted_without_enrollment academy 1000 "u1" "C1"
           {| l_id := "L2"; l_module_id := "M2" |}
           {| m_id := "M2"; m_course_id := "C1";
              m_prerequisites := Some ["M1"] |}
           "NOT_ENROLLED" academy_primary_keys).
  - simpl. right. left.
  - simpl. right. left.
  - reflexivity.
  - reflexivity.
  - reflexivity.
  - compute_done.
Defined.

Lemma filter_none {A} (P : A → Prop) `{!∀ x, Decision (P x)} (l : list A) :
  (∀ x, x ∈ l → ¬ P x) → filter P l = [].
Proof.
  induction l as [|x l IH]; intros Hnone; [done|].
  rewrite filter_cons_False by (apply Hnone; left).
  apply IH. intros y Hy. apply Hnone. by right.
Qed.

(** X7.  A verified, active user without any subscription row is refused a
    published course that is not free and requires a subscription with
    SUBSCRIPTION_REQUIRED, whatever the level, the prerequisites and the
    enrollments. *)
Theorem premium_refused_without_subscription db now u c :
  primary_keys db →
  u ∈ users db → u_is_active u = true → u_is_verified u = true →
  (∀ s, s ∈ subscriptions db → s_user_id s ≠ u_id u) →
  c ∈ courses db → c_is_published c = true →
  c_is_free c = false → c_requires_subscription c = true →
  evaluate db now (u_id u) (c_id c) "course"
  = createAccessResult now false "SUBSCRIPTION_REQUIRED"
      "Active subscription required" MdEmpty.
Proof.
  intros Hpk Hu Hactive Hverified Hnosub Hc Hpub Hfree Hreq.
  rewrite (evaluate_found db now _ _ _ _ _
             (getUserWithSubscription_found db u Hpk Hu Hactive)
             (getContentDetails_course_found db c Hpk Hc)).
  assert (filter (λ s, s_user_id s = u_id u) (subscriptions db) = []) as ->.
  { apply filter_none. intros s Hs. by apply Hnosub. }
  unfold performAccessChecks, checkSubscriptionAccess. simpl.
  by rewrite Hpub, Hverified, Hfree, Hreq.
Qed.

Lemma academy_premium_primary_keys : primary_keys academy_premium.
Proof. split; compute_done. Defined.

Lemma premium_refused_without_subscription_witness :
  evaluate academy_premium 1000 "u1" "C9" "course"
  = createAccessResult 1000 false "SUBSCRIPTION_REQUIRED"
      "Active subscription required" MdEmpty.
Proof.
  apply (premium_refused_without_subscription academy_premium 1000
           {| u_id := "u1"; u_is_active := true; u_is_verified := true |}
           (course "C9" beginner true false true [])
           academy_premium_primary_keys).
  - simpl. left.
  - reflexivity.
  - reflexivity.
  - intros s Hs. simpl in Hs. by apply not_elem_of_nil in Hs.
  - simpl. right. right. left.
  - reflexivity.
  - reflexivity.
  - reflexivity.
Defined.

(** ** The level gate in integers *)

Lemma sum_decimal_values hs :
  (foldr Qplus 0 (decimal_value <$> hs) == sum_hundredths hs # 100)%Q.
Proof.
  induction hs as [|h hs IH]; [reflexivity|].
  rewrite fmap_cons. simpl. rewrite IH.
  unfold decimal_value, Qeq, Qplus. simpl. lia.
Qed.

Lemma Math_round_AVG hs :
  hs ≠ [] →
  Math_round (default 0%Q (AVG (decimal_value <$> hs)))
  = round_div (sum_hundredths hs) (100 * Z.of_nat (length hs)).
Proof.
  intros Hne. unfold AVG.
  assert (0 < Z.of_nat (length hs)) as Hlen by (destruct hs; simpl; [done|lia]).
  destruct (decimal_value <$> hs) as [|q qs] eqn:Hmap.
  { by apply fmap_nil_inv in Hmap. }
  rewrite <- Hmap. cbn [from_option id]. rewrite length_fmap.
  clear Hmap Hne. unfold Math_round.
  destruct (Z.of_nat (length hs)) as [|n|n] eqn:Hn; try lia.
  assert ((foldr Qplus 0 (decimal_value <$> hs) / inject_Z (Z.pos n) + (1 # 2)
           == (2 * sum_hundredths hs + 100 * Z.pos n) # (200 * n))%Q) as Heq.
  { rewrite sum_decimal_values.
    unfold Qeq, Qplus, Qdiv, Qmult, Qinv, inject_Z. simpl. lia. }
  rewrite Heq. unfold Qfloor, round_div.
  f_equal; lia.
Qed.

Lemma rounded_AVG_hundredths hs :
  hs ≠ [] →
  Qfloor (default 0%Q (AVG (decimal_value <$> hs)) * 100 + (1 # 2))%Q
  = round_div (sum_hundredths hs) (Z.of_nat (length hs)).
Proof.
  intros Hne. unfold AVG.
  assert (0 < Z.of_nat (length hs)) as Hlen by (destruct hs; simpl; [done|lia]).
  destruct (decimal_value <$> hs) as [|q qs] eqn:Hmap.
  { by apply fmap_nil_inv in Hmap. }
  rewrite <- Hmap. cbn [from_option id]. rewrite length_fmap.
  clear Hmap Hne.
  destruct (Z.of_nat (length hs)) as [|n|n] eqn:Hn; try lia.
  assert ((foldr Qplus 0 (decimal_value <$> hs) / inject_Z (Z.pos n) * 100
           + (1 # 2)
           == (2 * sum_hundredths hs + Z.pos n) # (2 * n))%Q) as Heq.
  { rewrite sum_decimal_values.
    unfold Qeq, Qplus, Qdiv, Qmult, Qinv, inject_Z. simpl. lia. }
  rewrite Heq. unfold Qfloor, round_div.
  f_equal; lia.
Qed.

Lemma mapM_result_Forall {A B} (f : A → result B) (P : B → Prop) (l : list A) :
  (∀ x, x ∈ l → ∃ y, f x = Ok y ∧ P y) →
  ∃ ys, mapM f l = Ok ys ∧ Forall P ys ∧ length ys = length l.
Proof.
  induction l as [|x l IH]; intros Hall.
  - exists []. by split_and!.
  - destruct (Hall x ltac:(left)) as (y & Hy & HP).
    destruct IH as (ys & Hys & HPs & Hlen).
    { intros z Hz. apply Hall. by right. }
    exists (y :: ys). simpl. rewrite Hy. simpl. rewrite Hys. simpl.
    split_and!; [done|by constructor|by rewrite Hlen].
Qed.

Lemma getLevelCompletion_rounded db userId lvl hs :
  mapM (λ c, calculate_course_completion db userId (c_id c))
       (filter (λ c, c_level c = lvl ∧ c_is_published c = true) (courses db))
  = Ok hs →
  getLevelCompletion db userId lvl
  = Ok (if decide (hs = []) then 0
        else round_div (sum_hundredths hs) (100 * Z.of_nat (length hs))).
Proof.
  intros Hmap. unfold getLevelCompletion. rewrite Hmap. simpl.
  unfold mret, result_ret. f_equal.
  destruct (decide (hs = [])) as [-> | Hne]; [done|].
  by apply Math_round_AVG.
Qed.

Lemma sum_hundredths_bounds hs lo hi :
  Forall (λ h, lo ≤ h ≤ hi) hs →
  lo * Z.of_nat (length hs) ≤ sum_hundredths hs ≤ hi * Z.of_nat (length hs).
Proof.
  induction 1 as [|h hs Hh _ IH]; simpl; [lia|].
  unfold sum_hundredths in *. simpl. lia.
Qed.

Lemma calculate_course_completion_range db userId courseId :
  one_record_per_lesson db →
  ∃ h, calculate_course_completion db userId courseId = Ok h ∧ 0 ≤ h ≤ 10000.
Proof.
  intros Huniq.
  pose proof (completed_le_total db userId courseId) as Hle.
  unfold calculate_course_completion.
  rewrite (completed_rows_count db userId courseId Huniq).
  fold (totalLessonCount db courseId).
  set (total := Z.of_nat (totalLessonCount db courseId)) in *.
  set (completed := Z.of_nat (completedLessonCount db userId courseId)) in *.
  assert (0 ≤ completed ≤ total) as Hrange by (unfold completed, total; lia).
  case_bool_decide as Hpos.
  - pose proof (round_div_bounds (completed * 10000) total ltac:(lia)) as Hb.
    set (h := round_div (completed * 10000) total) in *.
    assert (0 ≤ h ≤ 10000) as Hh by nia.
    exists h. unfold to_decimal_5_2. by rewrite bool_decide_true by lia.
  - exists 0. unfold to_decimal_5_2. rewrite bool_decide_true by lia.
    split; [done|lia].
Qed.

(** X8.  With at most one progress record per user and lesson, the level
    completion is computed without error and lies between 0 and 100, so the
    level gate never raises and a refusal reports a completion between 0
    and 79. *)
Theorem level_completion_in_range db now userId lvl content :
  one_record_per_lesson db →
  (∃ c, getLevelCompletion db userId lvl = Ok c ∧ 0 ≤ c ≤ 100)
  ∧ ∃ r, checkLevelAccess db now userId content = Ok r
       ∧ (hasAccess r = false →
          ∃ c, metadata r = Some (MdLevel 80 c) ∧ 0 ≤ c < 80).
Proof.
  intros Huniq.
  assert (∀ l, ∃ c, getLevelCompletion db userId l = Ok c ∧ 0 ≤ c ≤ 100)
    as Hrange.
  { intros l.
    destruct (mapM_result_Forall
                (λ c, calculate_course_completion db userId (c_id c))
                (λ h, 0 ≤ h ≤ 10000)
                (filter (λ c, c_level c = l ∧ c_is_published c = true)
                        (courses db)))
      as (hs & Hmap & Hall & _).
    { intros c _. by apply calculate_course_completion_range. }
    rewrite (getLevelCompletion_rounded _ _ _ _ Hmap).
    eexists. split; [done|].
    destruct (decide (hs = [])) as [|Hne]; [lia|].
    pose proof (sum_hundredths_bounds hs 0 10000 Hall) as Hsum.
    assert (0 < Z.of_nat (length hs)) as Hlen
      by (destruct hs; simpl; [done|lia]).
    pose proof (round_div_bounds (sum_hundredths hs)
                  (100 * Z.of_nat (length hs)) ltac:(lia)) as Hb.
    nia. }
  split; [apply Hrange|].
  unfold checkLevelAccess. destruct (level content); simpl.
  - by exists access_ok.
  - destruct (Hrange beginner) as (c & -> & Hc). simpl.
    case_bool_decide; eexists; (split; [done|]); simpl; [|done].
    intros _. exists c. split; [done|lia].
  - destruct (Hrange intermediate) as (c & -> & Hc). simpl.
    case_bool_decide; eexists; (split; [done|]); simpl; [|done].
    intros _. exists c. split; [done|lia].
Qed.

Lemma thirds_db_one_record : one_record_per_lesson thirds_db.
Proof.
  intros userId lessonId. etrans; [apply length_filter|].
  vm_compute. lia.
Defined.

Lemma level_completion_in_range_witness :
  ∃ c, getLevelCompletion thirds_db "u1" beginner = Ok c ∧ 0 ≤ c ≤ 100.
Proof.
  apply (level_completion_in_range thirds_db 1000 "u1" beginner
           (content_of_course (course "C2" intermediate true true false []))
           thirds_db_one_record).
Defined.

Lemma checkLevelAccess_lower db now userId content lower name :
  lower_level (level content) = Some (lower, name) →
  checkLevelAccess db now userId content
  = (c ← getLevelCompletion db userId lower;
     if bool_decide (c < 80) then mret (level_denied now name c)
     else mret access_ok).
Proof.
  unfold checkLevelAccess, lower_level.
  destruct (level content); intros Hlower; by simplify_eq.
Qed.

Lemma level_locked_at_zero db now userId lower name :
  getLevelCompletion db userId lower = Ok 0 →
  (∀ content,
     lower_level (level content) = Some (lower, name) →
     checkLevelAccess db now userId content = Ok (level_denied now name 0))
  ∧ (∀ contentId contentType content,
       getContentDetails db contentId contentType = Some content →
       lower_level (level content) = Some (lower, name) →
       hasAccess (evaluate db now userId contentId contentType) = false).
Proof.
  intros Hzero.
  assert (∀ content,
            lower_level (level content) = Some (lower, name) →
            ∀ u, u = userId →
            checkLevelAccess db now u content = Ok (level_denied now name 0))
    as Hdenied.
  { intros content Hlower u ->.
    rewrite (checkLevelAccess_lower _ _ _ _ _ _ Hlower), Hzero. done. }
  split; [by intros content Hlower; apply Hdenied|].
  intros contentId contentType content Hc Hlower.
  destruct (hasAccess (evaluate db now userId contentId contentType))
    eqn:Hgranted; [exfalso|done].
  destruct (evaluate_granted _ _ _ _ _ Hgranted)
    as (user & content' & Hu & Hc' & Hperform).
  rewrite Hc in Hc'. injection Hc' as <-.
  destruct (performAccessChecks_granted _ _ _ _ _ _ Hperform eq_refl)
    as (_ & _ & _ & _ & (lc & Hlevel & Hlc) & _).
  rewrite (Hdenied content Hlower _ (getUserWithSubscription_id _ _ _ Hu))
    in Hlevel.
  by simplify_eq.
Qed.

Lemma completion_zero_without_completed_record db userId courseId :
  (∀ up, up ∈ user_progress db → up_user_id up = userId →
         up_status up ≠ completed) →
  calculate_course_completion db userId courseId = Ok 0.
Proof.
  intros Hnone. unfold calculate_course_completion.
  assert (completed_progress db userId courseId = []) as ->.
  { unfold completed_progress. apply list_bind_all_nil. intros up Hup.
    apply list_bind_all_nil. intros l _.
    apply list_bind_all_nil. intros m _.
    rewrite bool_decide_false; [done|].
    intros (_ & _ & Huser & _ & Hstatus). by apply (Hnone up). }
  simpl. case_bool_decide as Hpos; [|done].
  unfold round_div. rewrite Z.div_small by lia. done.
Qed.

Lemma round_div_zero den : 0 < den → round_div 0 den = 0.
Proof. intros Hden. unfold round_div. apply Z.div_small. lia. Qed.

Lemma sum_hundredths_zero hs : Forall (λ h, h = 0) hs → sum_hundredths hs = 0.
Proof.
  intros Hall. pose proof (sum_hundredths_bounds hs 0 0) as Hb.
  assert (Forall (λ h, 0 ≤ h ≤ 0) hs) as Hall'
    by (eapply Forall_impl; [exact Hall|]; simpl; lia).
  specialize (Hb Hall'). lia.
Qed.

(** X9.  A user without any completed progress record has completion 0 at
    every level, whatever the courses: intermediate content is refused with
    PREREQUISITE_LEVEL_NOT_COMPLETED and currentCompletion 0 at the level
    gate, likewise advanced content, and no evaluation grants such content
    to that user. *)
Theorem nothing_completed_locks_higher_levels db now userId :
  (∀ up, up ∈ user_progress db → up_user_id up = userId →
         up_status up ≠ completed) →
  (∀ lvl, getLevelCompletion db userId lvl = Ok 0)
  ∧ (∀ content lower name,
       lower_level (level content) = Some (lower, name) →
       checkLevelAccess db now userId content = Ok (level_denied now name 0))
  ∧ (∀ contentId contentType content,
       getContentDetails db contentId contentType = Some content →
       level content ≠ beginner →
       hasAccess (evaluate db now userId contentId contentType) = false).
Proof.
  intros Hnone.
  assert (∀ lvl, getLevelCompletion db userId lvl = Ok 0) as Hzero.
  { intros lvl.
    destruct (mapM_result_Forall
                (λ c, calculate_course_completion db userId (c_id c))
                (λ h, h = 0)
                (filter (λ c, c_level c = lvl ∧ c_is_published c = true)
                        (courses db)))
      as (hs & Hmap & Hall & _).
    { intros c _. exists 0. split; [|done].
      by apply completion_zero_without_completed_record. }
    rewrite (getLevelCompletion_rounded _ _ _ _ Hmap). f_equal.
    destruct (decide (hs = [])) as [|Hne]; [done|].
    rewrite (sum_hundredths_zero hs Hall). apply round_div_zero.
    destruct hs; simpl; [done|lia]. }
  split_and!; [done| |].
  - intros content lower name Hlower.
    by apply (level_locked_at_zero db now userId lower name (Hzero lower)).
  - intros contentId contentType content Hc Hlevel.
    destruct (lower_level (level content)) as [[lower name]|] eqn:Hlower.
    + by apply (proj2 (level_locked_at_zero db now userId lower name
                         (Hzero lower)) contentId contentType content).
    + by destruct (level content).
Qed.

Lemma nothing_completed_locks_higher_levels_witness :
  getLevelCompletion academy "u1" beginner = Ok 0.
Proof.
  apply (proj1 (nothing_completed_locks_higher_levels academy 1000 "u1"
                  ltac:(intros up Hup _; simpl in Hup;
                        apply list_elem_of_singleton in Hup; by subst))).
Defined.

(** X10.  While no course of the level below is published, the level gate
    cannot open: the average over no course is NULL, which counts as 0, so
    every user is refused the content of the level above with
    currentCompletion 0. *)
Theorem empty_lower_level_locks_gate db now userId lower name :
  (∀ c, c ∈ courses db → c_level c = lower → c_is_published c = false) →
  getLevelCompletion db userId lower = Ok 0
  ∧ (∀ content,
       lower_level (level content) = Some (lower, name) →
       checkLevelAccess db now userId content = Ok (level_denied now name 0))
  ∧ (∀ contentId contentType content,
       getContentDetails db contentId contentType = Some content →
       lower_level (level content) = Some (lower, name) →
       hasAccess (evaluate db now userId contentId contentType) = false).
Proof.
  intros Hnone.
  assert (getLevelCompletion db userId lower = Ok 0) as Hzero.
  { unfold getLevelCompletion. rewrite filter_none; [done|].
    intros c Hc [Hlevel Hpub]. by rewrite (Hnone c Hc Hlevel) in Hpub. }
  split; [done|]. by apply level_locked_at_zero.
Qed.

Lemma empty_lower_level_locks_gate_witness :
  getLevelCompletion academy "u1" intermediate = Ok 0.
Proof.
  apply (empty_lower_level_locks_gate academy 1000 "u1" intermediate
           "Intermediate").
  intros c Hc Hlevel. simpl in Hc.
  repeat (apply elem_of_cons in Hc as [-> | Hc]; [done|]).
  by apply not_elem_of_nil in Hc.
Defined.

(** ** The two level gates *)

Lemma head_bind_filter {A B} (P : A → Prop) `{!∀ x, Decision (P x)}
    (g : A → B) (l : list A) :
  head (l ≫= λ x, if bool_decide (P x) then [g x] else [])
  = g <$> head (filter P l).
Proof.
  induction l as [|x l IH]; [done|].
  rewrite bind_cons. destruct (decide (P x)).
  - rewrite bool_decide_true, filter_cons_True by done. done.
  - rewrite bool_decide_false, filter_cons_False by done. done.
Qed.

Lemma level_average_rounded db userId lvl avg :
  level_average db userId lvl = Ok (Some avg) →
  ∃ hs, mapM (λ c, calculate_course_completion db userId (c_id c))
             (filter (λ c, c_level c = lvl ∧ c_is_published c = true)
                     (courses db)) = Ok hs
      ∧ hs ≠ []
      ∧ avg = round_div (sum_hundredths hs) (Z.of_nat (length hs)).
Proof.
  unfold level_average.
  destruct (mapM _ _) as [hs|e]; simpl; [|done].
  destruct (decide (hs = [])) as [-> | Hne]; [done|].
  pose proof (rounded_AVG_hundredths hs Hne) as Hrounded.
  destruct (AVG (decimal_value <$> hs)) as [q|] eqn:Havg.
  - simpl in Hrounded. unfold mret, result_ret. simpl.
    rewrite Hrounded. unfold to_decimal_5_2. case_bool_decide; simpl; [|done].
    intros [= <-]. by exists hs.
  - exfalso. unfold AVG in Havg.
    destruct (decimal_value <$> hs) eqn:Hmap; [|done].
    by apply fmap_nil_inv in Hmap.
Qed.

(** X11.  The level gate of the schema is at least as strict as the one of
    the service: whenever [check_content_access] answers TRUE for a user and
    a course, [checkLevelAccess] grants the content of that course to that
    user. *)
Theorem schema_gate_implies_service_gate db now userId courseId content :
  check_content_access db userId courseId = Ok true →
  getContentDetails db courseId "course" = Some content →
  checkLevelAccess db now userId content = Ok access_ok.
Proof.
  unfold check_content_access, getContentDetails. simpl.
  rewrite (head_bind_filter (λ c, c_id c = courseId) content_of_course).
  destruct (head (filter (λ c, c_id c = courseId) (courses db))) as [c|];
    simpl; [|done].
  intros Hschema [= <-]. unfold checkLevelAccess. simpl.
  assert (∀ lvl avg,
            level_average db userId lvl = Ok avg →
            default 0 avg >= 8000 →
            ∃ completion, getLevelCompletion db userId lvl = Ok completion
                          ∧ 80 ≤ completion) as Hgate.
  { intros lvl [avg|] Havg Hge; [|simpl in Hge; lia].
    destruct (level_average_rounded _ _ _ _ Havg) as (hs & Hmap & Hne & ->).
    rewrite (getLevelCompletion_rounded _ _ _ _ Hmap).
    rewrite decide_False by done. eexists. split; [done|].
    simpl in Hge.
    assert (0 < Z.of_nat (length hs)) as Hlen
      by (destruct hs; simpl; [done|lia]).
    pose proof (round_div_bounds (sum_hundredths hs) (Z.of_nat (length hs))
                  Hlen) as Hb1.
    pose proof (round_div_bounds (sum_hundredths hs)
                  (100 * Z.of_nat (length hs)) ltac:(lia)) as Hb2.
    nia. }
  destruct (c_level c); [done| |].
  - destruct (level_average db userId beginner) as [avg|e] eqn:Havg;
      simpl in Hschema; [|done].
    unfold mret, result_ret in Hschema. injection Hschema as Hge.
    apply bool_decide_eq_true in Hge.
    destruct (Hgate _ _ Havg Hge) as (completion & -> & Hcompletion).
    simpl. by rewrite bool_decide_false by lia.
  - destruct (level_average db userId intermediate) as [avg|e] eqn:Havg;
      simpl in Hschema; [|done].
    unfold mret, result_ret in Hschema. injection Hschema as Hge.
    apply bool_decide_eq_true in Hge.
    destruct (Hgate _ _ Havg Hge) as (completion & -> & Hcompletion).
    simpl. by rewrite bool_decide_false by lia.
Qed.

Lemma schema_gate_implies_service_gate_witness :
  checkLevelAccess graduate_db 1000 "u1"
    (content_of_course (course "C2" intermediate true true false []))
  = Ok access_ok.
Proof.
  apply (schema_gate_implies_service_gate graduate_db 1000 "u1" "C2");
    vm_compute; reflexivity.
Defined.

(** ** The progress of other users *)

Lemma bind_filter {A B} (P : A → Prop) `{!∀ x, Decision (P x)}
    (f : A → list B) (l : list A) :
  (∀ x, ¬ P x → f x = []) → l ≫= f = filter P l ≫= f.
Proof.
  intros Hf. induction l as [|x l IH]; [done|].
  rewrite bind_cons. destruct (decide (P x)).
  - rewrite filter_cons_True by done. by rewrite bind_cons, IH.
  - rewrite filter_cons_False by done. by rewrite (Hf x).
Qed.

Lemma filter_filter_impl {A} (P Q : A → Prop) `{!∀ x, Decision (P x)}
    `{!∀ x, Decision (Q x)} (l : list A) :
  (∀ x, P x → Q x) → filter P l = filter P (filter Q l).
Proof.
  intros HPQ. induction l as [|x l IH]; [done|].
  destruct (decide (Q x)).
  - rewrite (filter_cons_True Q) by done.
    destruct (decide (P x)).
    + rewrite !(filter_cons_True P) by done. by rewrite IH.
    + rewrite !(filter_cons_False P) by done. done.
  - rewrite (filter_cons_False Q) by done.
    rewrite (filter_cons_False P) by auto. done.
Qed.

Lemma completed_progress_of_user db ups userId courseId :
  progress_of userId ups = progress_of userId (user_progress db) →
  completed_progress (with_progress ups db) userId courseId
  = completed_progress db userId courseId.
Proof.
  intros Hsame. unfold completed_progress. simpl.
  rewrite (bind_filter (λ up, up_user_id up = userId) _ ups).
  2:{ intros up Hother. apply list_bind_all_nil. intros l _.
      apply list_bind_all_nil. intros m _.
      rewrite bool_decide_false; [done|]. by intros (_ & _ & ? & _). }
  rewrite (bind_filter (λ up, up_user_id up = userId) _ (user_progress db)).
  2:{ intros up Hother. apply list_bind_all_nil. intros l _.
      apply list_bind_all_nil. intros m _.
      rewrite bool_decide_false; [done|]. by intros (_ & _ & ? & _). }
  fold (progress_of userId ups). fold (progress_of userId (user_progress db)).
  by rewrite Hsame.
Qed.

Lemma prerequisite_rows_of_user db ups userId contentType ids :
  progress_of userId ups = progress_of userId (user_progress db) →
  prerequisite_rows (with_progress ups db) contentType userId ids
  = prerequisite_rows db contentType userId ids.
Proof.
  intros Hsame. unfold prerequisite_rows. simpl.
  apply list_bind_ext; [|done]. intros p.
  rewrite (filter_filter_impl (progress_matches contentType userId p)
             (λ up, up_user_id up = userId) ups) by (by intros up [? _]).
  rewrite (filter_filter_impl (progress_matches contentType userId p)
             (λ up, up_user_id up = userId) (user_progress db))
    by (by intros up [? _]).
  fold (progress_of userId ups). fold (progress_of userId (user_progress db)).
  by rewrite Hsame.
Qed.

Lemma mapM_ext_result {A B} (f g : A → result B) (l : list A) :
  (∀ x, f x = g x) → mapM f l = mapM g l.
Proof.
  intros Hfg. induction l as [|x l IH]; [done|].
  simpl. by rewrite Hfg, IH.
Qed.

(** X12.  A decision for a user depends on the progress table through the
    records of that user only: two stores whose progress tables hold the
    same records for the user, in the same order, and agree on every other
    table give the same evaluation, whatever other users have completed. *)
Theorem evaluation_reads_own_progress_only db ups now userId contentId
    contentType :
  progress_of userId ups = progress_of userId (user_progress db) →
  evaluate (with_progress ups db) now userId contentId contentType
  = evaluate db now userId contentId contentType.
Proof.
  intros Hsame. unfold evaluate.
  change (getUserWithSubscription (with_progress ups db) userId)
    with (getUserWithSubscription db userId).
  change (getContentDetails (with_progress ups db) contentId contentType)
    with (getContentDetails db contentId contentType).
  destruct (getUserWithSubscription db userId) as [user|] eqn:Hu; [|done].
  destruct (getContentDetails db contentId contentType) as [content|];
    [|done].
  pose proof (getUserWithSubscription_id _ _ _ Hu) as Hid.
  f_equal. unfold performAccessChecks.
  assert (∀ lvl, getLevelCompletion (with_progress ups db) (user_id user) lvl
                 = getLevelCompletion db (user_id user) lvl) as Hlevel.
  { intros lvl. unfold getLevelCompletion. simpl.
    rewrite (mapM_ext_result _
               (λ c, calculate_course_completion db (user_id user) (c_id c))).
    - done.
    - intros c. unfold calculate_course_completion.
      rewrite completed_progress_of_user by (by rewrite Hid). done. }
  assert (checkLevelAccess (with_progress ups db) now (user_id user) content
          = checkLevelAccess db now (user_id user) content) as ->.
  { unfold checkLevelAccess. by rewrite !Hlevel. }
  assert (checkPrerequisites (with_progress ups db) now (user_id user) content
            contentType
          = checkPrerequisites db now (user_id user) content contentType)
    as ->.
  { unfold checkPrerequisites.
    destruct (prerequisites content) as [[|p ps]|]; [done| |done].
    cbv zeta. by rewrite prerequisite_rows_of_user by (by rewrite Hid). }
  done.
Qed.

Lemma evaluation_reads_own_progress_only_witness :
  evaluate (with_progress
              (user_progress academy
                 ++ [progress "u3" "C1" (Some "M1") (Some "L1") completed])
              academy) 1000 "u1" "M2" "module"
  = evaluate academy 1000 "u1" "M2" "module".
Proof.
  apply (evaluation_reads_own_progress_only academy
           (user_progress academy
              ++ [progress "u3" "C1" (Some "M1") (Some "L1") completed])
           1000 "u1" "M2" "module").
  reflexivity.
Defined.

(** ** Clearing the cache of a user *)

Lemma lookup_foldr_delete `{Countable K} {A} (m : gmap K A) (ks : list K) k :
  foldr delete m ks !! k = if decide (k ∈ ks) then None else m !! k.
Proof.
  induction ks as [|k' ks IH].
  - destruct (decide (k ∈ [])) as [Hin|]; [|done].
    by apply elem_of_nil in Hin.
  - cbn [foldr]. destruct (decide (k' = k)) as [-> | Hne].
    + rewrite lookup_delete_eq.
      destruct (decide (k ∈ k :: ks)) as [|Hn]; [done|].
      exfalso. apply Hn. left.
    + rewrite lookup_delete_ne by done. rewrite IH.
      destruct (decide (k ∈ ks)) as [Hin|Hn];
        destruct (decide (k ∈ k' :: ks)) as [Hin'|Hn']; try done.
      * exfalso. apply Hn'. by right.
      * apply elem_of_cons in Hin' as [?|?]; congruence.
Qed.

Lemma clearUserContentCache_Ok now userId w w' :
  clearUserContentCache now userId w = (Ok (), w') →
  w' = with_redis (purged now userId (w_redis w)) w.
Proof.
  unfold clearUserContentCache, redis_keys_access, redis_keys_accessible,
    redis_del_access, redis_del_accessible, purged, access_keys_of,
    accessible_keys_of.
  op_unfold.
  destruct (faulty (w_redis w) KEYS) eqn:Hk; [done|]. simpl.
  case_bool_decide as Hkeys; simpl.
  - destruct (faulty (w_redis w) DEL) eqn:Hd; [done|]. simpl.
    rewrite Hk. simpl.
    case_bool_decide as Hkeys'; simpl.
    + rewrite Hd. simpl. by intros [= <-].
    + intros [= <-]. unfold with_redis, set_access_entries. simpl.
      no_keys Hkeys' E. do 2 f_equal.
      exact (eq_sym (f_equal (foldr delete (accessible_entries (w_redis w)))
                       E)).
  - rewrite Hk. simpl. no_keys Hkeys E.
    case_bool_decide as Hkeys'; simpl.
    + destruct (faulty (w_redis w) DEL) eqn:Hd; [done|]. simpl.
      intros [= <-]. unfold with_redis, set_accessible_entries. simpl.
      do 2 f_equal.
      exact (eq_sym (f_equal (foldr delete (access_entries (w_redis w))) E)).
    + intros [= <-]. no_keys Hkeys' E'.
      destruct w as [db [m1 m2 f]]. unfold with_redis. simpl in *.
      do 2 f_equal.
      * exact (eq_sym (f_equal (foldr delete m1) E)).
      * exact (eq_sym (f_equal (foldr delete m2) E')).
Qed.

Lemma purged_access_lookup now userId r key :
  access_entries (purged now userId r) !! key
  = match access_entries r !! key with
    | Some (v, expires) =>
        if decide (key.1.1 = userId ∧ now < expires) then None
        else Some (v, expires)
    | None => None
    end.
Proof.
  unfold purged. simpl. rewrite lookup_foldr_delete.
  destruct (access_entries r !! key) as [[v expires]|] eqn:Hlookup.
  - destruct (decide (key.1.1 = userId ∧ now < expires)) as [Hp|Hp].
    + rewrite decide_True; [done|]. unfold access_keys_of.
      apply list_elem_of_fmap. exists (key, (v, expires)). split; [done|].
      apply list_elem_of_filter. split; [done|].
      by apply elem_of_map_to_list.
    + rewrite decide_False; [done|]. unfold access_keys_of.
      intros Hin. apply list_elem_of_fmap in Hin as ([k [v' e']] & -> & Hin).
      apply list_elem_of_filter in Hin as [Hcond Hin].
      apply elem_of_map_to_list in Hin. simpl in *.
      assert (Some (v', e') = Some (v, expires)) as [= -> ->]
        by (etrans; [symmetry; exact Hin | exact Hlookup]).
      done.
  - by destruct (decide _).
Qed.

Lemma purged_accessible_lookup now userId r key :
  accessible_entries (purged now userId r) !! key
  = match accessible_entries r !! key with
    | Some (v, expires) =>
        if decide (key.1 = userId ∧ now < expires) then None
        else Some (v, expires)
    | None => None
    end.
Proof.
  unfold purged. simpl. rewrite lookup_foldr_delete.
  destruct (accessible_entries r !! key) as [[v expires]|] eqn:Hlookup.
  - destruct (decide (key.1 = userId ∧ now < expires)) as [Hp|Hp].
    + rewrite decide_True; [done|]. unfold accessible_keys_of.
      apply list_elem_of_fmap. exists (key, (v, expires)). split; [done|].
      apply list_elem_of_filter. split; [done|].
      by apply elem_of_map_to_list.
    + rewrite decide_False; [done|]. unfold accessible_keys_of.
      intros Hin. apply list_elem_of_fmap in Hin as ([k [v' e']] & -> & Hin).
      apply list_elem_of_filter in Hin as [Hcond Hin].
      apply elem_of_map_to_list in Hin. simpl in *.
      assert (Some (v', e') = Some (v, expires)) as [= -> ->]
        by (etrans; [symmetry; exact Hin | exact Hlookup]).
      done.
  - by destruct (decide _).
Qed.

Lemma live_dead_later {A} now now' (v : A) expires :
  now ≤ now' → ¬ now < expires → live now' (Some (v, expires)) = None.
Proof. intros Hle Hdead. simpl. rewrite bool_decide_false; [done|lia]. Qed.

Lemma clearUserContentCache_post now userId w w' :
  clearUserContentCache now userId w = (Ok (), w') →
  cleared_for now userId w w'.
Proof.
  intros Hclear. apply clearUserContentCache_Ok in Hclear as ->.
  unfold cleared_for, with_redis. cbn [w_db w_redis]. split_and!; try done.
  - intros now' contentId contentType Hle. rewrite purged_access_lookup.
    destruct (access_entries (w_redis w) !! _) as [[v expires]|]; [|done].
    simpl. destruct (decide _) as [|Hn]; [done|].
    apply (live_dead_later now); [done|]. intros Hlt. by apply Hn.
  - intros now' lvl Hle. rewrite purged_accessible_lookup.
    destruct (accessible_entries (w_redis w) !! _) as [[v expires]|]; [|done].
    simpl. destruct (decide _) as [|Hn]; [done|].
    apply (live_dead_later now); [done|]. intros Hlt. by apply Hn.
  - intros u contentId contentType Hne. rewrite purged_access_lookup.
    destruct (access_entries (w_redis w) !! _) as [[v expires]|]; [|done].
    simpl. destruct (decide _) as [[? ?]|]; done.
  - intros u lvl Hne. rewrite purged_accessible_lookup.
    destruct (accessible_entries (w_redis w) !! _) as [[v expires]|]; [|done].
    simpl. destruct (decide _) as [[? ?]|]; done.
Qed.

Lemma clearUserContentCache_no_faults now userId w :
  faulty (w_redis w) KEYS = false →
  faulty (w_redis w) DEL = false →
  (clearUserContentCache now userId w).1 = Ok ().
Proof.
  intros Hk Hd.
  unfold clearUserContentCache, redis_keys_access, redis_keys_accessible,
    redis_del_access, redis_del_accessible.
  op_unfold. rewrite Hk. simpl.
  case_bool_decide; simpl; rewrite ?Hd; simpl; rewrite Hk; simpl;
    case_bool_decide; simpl; rewrite ?Hd; done.
Qed.

(** X13.  With a cache whose KEYS and DEL commands work,
    [clearUserContentCache] completes and leaves no live entry of the user,
    neither a decision nor a course list, now or at any later instant; the
    entries of every other user, the store and the faults of the cache are
    as they were.  The next access check of the user is therefore a fresh
    evaluation of the store. *)
Theorem cache_cleared_for_user now userId w :
  faulty (w_redis w) KEYS = false →
  faulty (w_redis w) DEL = false →
  ∃ w', clearUserContentCache now userId w = (Ok (), w')
        ∧ cleared_for now userId w w'
        ∧ ∀ now' contentId contentType,
            now ≤ now' →
            faulty (w_redis w) GET = false →
            faulty (w_redis w) SETEX = false →
            (checkContentAccess now' userId contentId contentType w').1
            = evaluate (w_db w) now' userId contentId contentType.
Proof.
  intros Hk Hd.
  pose proof (clearUserContentCache_no_faults now userId w Hk Hd) as Hok.
  destruct (clearUserContentCache now userId w) as [res w'] eqn:Hclear.
  simpl in Hok. subst res. exists w'. split; [done|].
  pose proof (clearUserContentCache_post _ _ _ _ Hclear) as Hpost.
  split; [done|].
  destruct Hpost as (Hdb & Hfaulty & Hdead & _).
  intros now' contentId contentType Hle Hget Hset.
  rewrite checkContentAccess_miss_evaluate; rewrite ?Hfaulty, ?Hdb; auto.
Qed.

Lemma cache_cleared_for_user_witness :
  ∃ w', clearUserContentCache 2000 "u1" warm_world = (Ok (), w')
        ∧ cleared_for 2000 "u1" warm_world w'
        ∧ ∀ now' contentId contentType,
            2000 ≤ now' →
            faulty (w_redis warm_world) GET = false →
            faulty (w_redis warm_world) SETEX = false →
            (checkContentAccess now' "u1" contentId contentType w').1
            = evaluate (w_db warm_world) now' "u1" contentId contentType.
Proof.
  apply (cache_cleared_for_user 2000 "u1" warm_world); reflexivity.
Defined.

(** ** The cache of decisions *)

Lemma performAccessChecks_cached_code db now user content contentType r k :
  performAccessChecks db now user content contentType = Ok r →
  code r = Some k →
  k ∉ uncached_codes.
Proof.
  intros Hperform Hcode.
  assert (k ∈ [ "ACCESS_GRANTED"; "CONTENT_NOT_PUBLISHED";
                "USER_NOT_VERIFIED"; "SUBSCRIPTION_REQUIRED";
                "SUBSCRIPTION_EXPIRED"; "PREREQUISITE_LEVEL_NOT_COMPLETED";
                "PREREQUISITES_NOT_MET"; "NOT_ENROLLED";
                "ENROLLMENT_INACTIVE"; "ENROLLMENT_EXPIRED" ]) as Hk.
  2:{ intros Hin. revert Hk.
      unfold uncached_codes in Hin.
      repeat (apply elem_of_cons in Hin as [->|Hin]); try compute_done.
      by apply elem_of_nil in Hin. }
  revert Hperform. unfold performAccessChecks, mret, result_ret.
  intros Hperform.
  destruct (is_published content); simpl in Hperform.
  2:{ simplify_eq. simpl in Hcode. simplify_eq. compute_done. }
  destruct (is_verified user); simpl in Hperform.
  2:{ simplify_eq. simpl in Hcode. simplify_eq. compute_done. }
  destruct (hasAccess (checkSubscriptionAccess now user content)) eqn:Hs;
    simpl in Hperform.
  2:{ simplify_eq.
      destruct (checkSubscriptionAccess_code _ _ _ Hs) as [Hc|Hc];
        rewrite Hc in Hcode; simplify_eq; compute_done. }
  destruct (checkLevelAccess db now (user_id user) content) as [lc|e] eqn:Hl;
    simpl in Hperform; [|done].
  destruct (hasAccess lc) eqn:Hlc; simpl in Hperform.
  2:{ simplify_eq. rewrite (checkLevelAccess_code _ _ _ _ _ Hl Hlc) in Hcode.
      simplify_eq. compute_done. }
  destruct (hasAccess (checkPrerequisites _ _ _ _ _)) eqn:Hp;
    simpl in Hperform.
  2:{ simplify_eq. rewrite (checkPrerequisites_code _ _ _ _ _ Hp) in Hcode.
      simplify_eq. compute_done. }
  destruct (hasAccess (if bool_decide _ then _ else _)) eqn:He;
    simpl in Hperform.
  - simplify_eq. simpl in Hcode. simplify_eq. compute_done.
  - simplify_eq. case_bool_decide; [|done].
    destruct (checkEnrollment_code _ _ _ _ He) as [Hc|[Hc|Hc]];
      rewrite Hc in Hcode; simplify_eq; compute_done.
Qed.

(** X14.  A call of [checkContentAccess] changes neither the store, nor the
    cached course lists, nor the faults of the cache, nor the cached decision
    of any other key; and when it answers USER_NOT_FOUND, CONTENT_NOT_FOUND
    or SYSTEM_ERROR it leaves the whole world as it was: these three
    decisions are never written to the cache. *)
Theorem checkContentAccess_frame now userId contentId contentType w :
  let r := (checkContentAccess now userId contentId contentType w).1 in
  let w' := (checkContentAccess now userId contentId contentType w).2 in
  w_db w' = w_db w
  ∧ accessible_entries (w_redis w') = accessible_entries (w_redis w)
  ∧ faulty (w_redis w') = faulty (w_redis w)
  ∧ (∀ key, key ≠ (userId, contentId, contentType) →
       access_entries (w_redis w') !! key = access_entries (w_redis w) !! key)
  ∧ (∀ k, code r = Some k → k ∈ uncached_codes → w' = w).
Proof.
  intros r w'. subst r w'.
  destruct (faulty (w_redis w) GET) eqn:Hget.
  { by rewrite checkContentAccess_read_fault. }
  destruct (live now (access_entries (w_redis w)
                        !! (userId, contentId, contentType)))
    as [cached|] eqn:Hlive.
  { by rewrite (checkContentAccess_hit _ _ _ _ _ _ Hget Hlive). }
  rewrite (checkContentAccess_miss _ _ _ _ _ Hget Hlive).
  destruct (getUserWithSubscription (w_db w) userId) as [user|]; [|done].
  destruct (getContentDetails (w_db w) contentId contentType) as [content|];
    [|done].
  destruct (performAccessChecks (w_db w) now user content contentType)
    as [r|e] eqn:Hperform; [|done].
  destruct (faulty (w_redis w) SETEX); [done|]. simpl.
  split_and!; try done.
  - intros key Hne. by rewrite lookup_insert_ne.
  - intros k Hcode Hk.
    by destruct (performAccessChecks_cached_code _ _ _ _ _ _ _ Hperform Hcode).
Qed.

(** X15.  A decision computed after a cache miss is served again to every
    call for the same user, content and content type made less than 300
    seconds after it, whatever the store has become in the meantime; from
    300 seconds on the entry is dead and the call evaluates the store it
    finds. *)
Theorem decision_cached_for_five_minutes now now' userId contentId contentType
    w db' user content r :
  faulty (w_redis w) GET = false →
  faulty (w_redis w) SETEX = false →
  live now (access_entries (w_redis w) !! (userId, contentId, contentType))
    = None →
  getUserWithSubscription (w_db w) userId = Some user →
  getContentDetails (w_db w) contentId contentType = Some content →
  performAccessChecks (w_db w) now user content contentType = Ok r →
  let w1 :=
    with_db db' (checkContentAccess now userId contentId contentType w).2 in
  (now' < now + 300000 →
     checkContentAccess now' userId contentId contentType w1 = (r, w1))
  ∧ (now + 300000 ≤ now' →
     (checkContentAccess now' userId contentId contentType w1).1
     = evaluate db' now' userId contentId contentType).
Proof.
  intros Hget Hset Hlive Hu Hc Hperform.
  rewrite (checkContentAccess_miss _ _ _ _ _ Hget Hlive), Hu, Hc, Hperform,
    Hset.
  cbn zeta. cbn [snd]. set (w1 := with_db db' _). split.
  - intros Hfresh. apply checkContentAccess_hit; [done|].
    subst w1. simpl. rewrite lookup_insert_eq. simpl.
    rewrite bool_decide_true; [done|lia].
  - intros Hold.
    rewrite checkContentAccess_miss_evaluate; try done.
    subst w1. simpl. rewrite lookup_insert_eq. simpl.
    rewrite bool_decide_false; [done|lia].
Qed.

Lemma decision_cached_for_five_minutes_witness :
  let w1 :=
    with_db academy_verified
      (checkContentAccess 1000 "u3" "M1" "module" (world academy no_faults)).2
  in
  (299000 < 1000 + 300000 →
     checkContentAccess 299000 "u3" "M1" "module" w1
     = (createAccessResult 1000 false "USER_NOT_VERIFIED"
          "Email verification required" MdEmpty, w1))
  ∧ (1000 + 300000 ≤ 299000 →
     (checkContentAccess 299000 "u3" "M1" "module" w1).1
     = evaluate academy_verified 299000 "u3" "M1" "module").
Proof.
  eapply (decision_cached_for_five_minutes 1000 299000 "u3" "M1" "module"
            (world academy no_faults) academy_verified);
    reflexivity.
Defined.

(** ** The list of accessible courses *)

Lemma checkContentAccess_keeps now userId contentId contentType w :
  let w' := (checkContentAccess now userId contentId contentType w).2 in
  w_db w' = w_db w
  ∧ accessible_entries (w_redis w') = accessible_entries (w_redis w)
  ∧ faulty (w_redis w') = faulty (w_redis w).
Proof.
  intros w'.
  destruct (checkContentAccess_world now userId contentId contentType w)
    as [Hw | (user & content & r & _ & _ & _ & Hw)];
    fold w' in Hw; by rewrite Hw.
Qed.

Lemma accessible_loop_spec now userId courses acc w :
  ∃ l w',
    accessible_loop now userId courses acc w = (Ok (acc ++ l)%list, w')
    ∧ w_db w' = w_db w
    ∧ accessible_entries (w_redis w') = accessible_entries (w_redis w)
    ∧ faulty (w_redis w') = faulty (w_redis w)
    ∧ sublist l (summary_of_course <$> courses)
    ∧ (cache_consistent w →
       ∀ s, s ∈ l → existing_enrollments (w_db w) userId (cs_id s) ≠ []).
Proof.
  revert acc w. induction courses as [|course rest IH]; intros acc w.
  { exists [], w. rewrite app_nil_r. split_and!; try done.
    intros _ s Hs. by apply elem_of_nil in Hs. }
  cbn [accessible_loop]. op_unfold.
  pose proof (checkContentAccess_keeps now userId (c_id course) "course" w)
    as (Hdb & Hlists & Hfaults).
  pose proof (checkContentAccess_consistent now userId (c_id course) "course"
                w) as Hcons1.
  pose proof (checkContentAccess_granted_enrolled now userId (c_id course) w)
    as Henrolled.
  destruct (checkContentAccess now userId (c_id course) "course" w)
    as [access w1].
  cbn [fst snd] in *.
  destruct (hasAccess access).
  - destruct (IH (acc ++ [summary_of_course course])%list w1)
      as (l & w' & Hloop & Hdb' & Hlists' & Hfaults' & Hsub & Hrows).
    exists (summary_of_course course :: l), w'.
    rewrite Hloop, <- app_assoc. split_and!; try congruence; try done.
    + by apply sublist_skip.
    + intros Hcons s Hs. apply elem_of_cons in Hs as [-> | Hs].
      * by apply Henrolled.
      * rewrite <- Hdb. by apply Hrows; [apply Hcons1|].
  - destruct (IH acc w1)
      as (l & w' & Hloop & Hdb' & Hlists' & Hfaults' & Hsub & Hrows).
    exists l, w'. rewrite Hloop. split_and!; try congruence; try done.
    + by apply sublist_cons.
    + intros Hcons s Hs. rewrite <- Hdb. by apply Hrows; [apply Hcons1|].
Qed.

Lemma getAccessibleContent_hit now userId lvl w cached :
  faulty (w_redis w) GET = false →
  live now (accessible_entries (w_redis w) !! (userId, lvl)) = Some cached →
  getAccessibleContent now userId lvl w = (Ok cached, w).
Proof.
  intros Hget Hlive.
  unfold getAccessibleContent, redis_get_accessible. op_unfold.
  by rewrite Hget, Hlive, with_redis_same.
Qed.

Lemma getAccessibleContent_miss now userId lvl w :
  faulty (w_redis w) GET = false →
  live now (accessible_entries (w_redis w) !! (userId, lvl)) = None →
  match parse_level lvl with
  | None => getAccessibleContent now userId lvl w = (Throw InvalidEnumValue, w)
  | Some level =>
      ∃ l w1,
        getAccessibleContent now userId lvl w
        = (if faulty (w_redis w) SETEX then (Throw RedisError, w1)
           else (Ok l,
                 with_redis
                   (set_accessible_entries
                      (<[(userId, lvl) := (l, now + 600 * 1000)]>
                         (accessible_entries (w_redis w)))
                      (w_redis w1)) w1))
        ∧ w_db w1 = w_db w
        ∧ accessible_entries (w_redis w1) = accessible_entries (w_redis w)
        ∧ faulty (w_redis w1) = faulty (w_redis w)
        ∧ sublist l (summary_of_course
                       <$> filter (λ c, c_level c = level
                                        ∧ c_is_published c = true)
                                  (courses (w_db w)))
        ∧ (cache_consistent w →
           ∀ s, s ∈ l →
                existing_enrollments (w_db w) userId (cs_id s) ≠ [])
  end.
Proof.
  intros Hget Hlive.
  unfold getAccessibleContent, redis_get_accessible, redis_setex_accessible.
  op_unfold. rewrite Hget, Hlive, with_redis_same.
  destruct (parse_level lvl) as [level|]; [|done].
  destruct (accessible_loop_spec now userId
              (filter (λ c, c_level c = level ∧ c_is_published c = true)
                      (courses (w_db w))) [] w)
    as (l & w1 & Hloop & Hdb & Hlists & Hfaults & Hsub & Hrows).
  exists l, w1. rewrite Hloop. simpl. rewrite Hfaults, Hlists.
  split_and!; try done.
  by destruct (faulty (w_redis w) SETEX).
Qed.

(** X16.  In a world whose cached course decisions are backed by enrollment
    rows, as every world reached from an empty cache is, the list that
    [getAccessibleContent] computes after a cache miss holds only published
    courses of the requested level, in the order of the table, and only
    courses for which the user already has an enrollment row. *)
Theorem accessible_courses_are_enrolled now userId lvl w l :
  cache_consistent w →
  live now (accessible_entries (w_redis w) !! (userId, lvl)) = None →
  (getAccessibleContent now userId lvl w).1 = Ok l →
  ∃ level,
    parse_level lvl = Some level
    ∧ sublist l (summary_of_course
                   <$> filter (λ c, c_level c = level
                                    ∧ c_is_published c = true)
                              (courses (w_db w)))
    ∧ ∀ s, s ∈ l → existing_enrollments (w_db w) userId (cs_id s) ≠ [].
Proof.
  intros Hcons Hlive Hlist.
  destruct (faulty (w_redis w) GET) eqn:Hget.
  { revert Hlist. unfold getAccessibleContent, redis_get_accessible.
    op_unfold. by rewrite Hget. }
  pose proof (getAccessibleContent_miss now userId lvl w Hget Hlive) as Hmiss.
  destruct (parse_level lvl) as [level|].
  2:{ by rewrite Hmiss in Hlist. }
  destruct Hmiss as (l' & w1 & Hcall & _ & _ & _ & Hsub & Hrows).
  rewrite Hcall in Hlist.
  destruct (faulty (w_redis w) SETEX); [done|].
  simpl in Hlist. simplify_eq. exists level. auto.
Qed.

Lemma accessible_courses_are_enrolled_witness :
  ∃ level,
    parse_level "beginner" = Some level
    ∧ sublist [summary_of_course (course "C1" beginner true true false [])]
        (summary_of_course
           <$> filter (λ c, c_level c = level ∧ c_is_published c = true)
                      (courses (w_db (world academy_enrolled no_faults))))
    ∧ ∀ s, s ∈ [summary_of_course (course "C1" beginner true true false [])] →
           existing_enrollments (w_db (world academy_enrolled no_faults))
             "u1" (cs_id s) ≠ [].
Proof.
  apply (accessible_courses_are_enrolled 1000 "u1" "beginner"
           (world academy_enrolled no_faults)).
  - intros u c v expires Hlookup. simpl in Hlookup.
    by rewrite lookup_empty in Hlookup.
  - reflexivity.
  - vm_compute. reflexivity.
Defined.

(** X17.  [getAccessibleContent] has no handler of its own: it raises
    exactly when the cache read fails, or when after a miss the level is not
    a value of the enumeration or the cache write fails.  The access checks
    of its loop never make it raise, and a call that raises leaves the
    cached course lists as they were. *)
Theorem getAccessibleContent_raises now userId lvl w :
  ((∃ e, (getAccessibleContent now userId lvl w).1 = Throw e)
   ↔ faulty (w_redis w) GET = true
     ∨ (live now (accessible_entries (w_redis w) !! (userId, lvl)) = None
        ∧ (parse_level lvl = None ∨ faulty (w_redis w) SETEX = true)))
  ∧ ((∃ e, (getAccessibleContent now userId lvl w).1 = Throw e) →
     accessible_entries (w_redis (getAccessibleContent now userId lvl w).2)
     = accessible_entries (w_redis w)).
Proof.
  destruct (faulty (w_redis w) GET) eqn:Hget.
  { assert (getAccessibleContent now userId lvl w = (Throw RedisError, w))
      as ->.
    { unfold getAccessibleContent, redis_get_accessible. op_unfold.
      by rewrite Hget. }
    split; [|done]. split; [by left|by eexists]. }
  destruct (live now (accessible_entries (w_redis w) !! (userId, lvl)))
    as [cached|] eqn:Hlive.
  { rewrite (getAccessibleContent_hit _ _ _ _ _ Hget Hlive).
    split; [|done]. split; [by intros [e ?]|]. by intros [?|[? _]]. }
  pose proof (getAccessibleContent_miss now userId lvl w Hget Hlive) as Hmiss.
  destruct (parse_level lvl) as [level|].
  2:{ rewrite Hmiss. split; [|done]. split; [auto|by eexists]. }
  destruct Hmiss as (l & w1 & -> & _ & Hlists & _).
  destruct (faulty (w_redis w) SETEX); simpl.
  - split; [|done]. split; [auto|by eexists].
  - split; [|by intros [e ?]].
    split; [by intros [e ?]|]. by intros [?|[_ [?|?]]].
Qed.

(** X18.  A course list computed after a cache miss is returned again to
    every call for the same user and level made less than 600 seconds after
    it, whatever the store has become in the meantime, and that call changes
    nothing. *)
Theorem course_list_cached_for_ten_minutes now now' userId lvl w db' l :
  live now (accessible_entries (w_redis w) !! (userId, lvl)) = None →
  (getAccessibleContent now userId lvl w).1 = Ok l →
  now' < now + 600000 →
  let w1 := with_db db' (getAccessibleContent now userId lvl w).2 in
  getAccessibleContent now' userId lvl w1 = (Ok l, w1).
Proof.
  intros Hlive Hlist Hfresh.
  destruct (faulty (w_redis w) GET) eqn:Hget.
  { revert Hlist. unfold getAccessibleContent, redis_get_accessible.
    op_unfold. by rewrite Hget. }
  pose proof (getAccessibleContent_miss now userId lvl w Hget Hlive) as Hmiss.
  destruct (parse_level lvl) as [level|].
  2:{ by rewrite Hmiss in Hlist. }
  destruct Hmiss as (l' & w2 & Hcall & _ & _ & Hfaults & _).
  rewrite Hcall in Hlist |- *.
  destruct (faulty (w_redis w) SETEX); [done|].
  simpl in Hlist. simplify_eq. cbn zeta. cbn [snd].
  apply getAccessibleContent_hit; simpl.
  - congruence.
  - rewrite lookup_insert_eq. simpl. rewrite bool_decide_true; [done|lia].
Qed.

Lemma course_list_cached_for_ten_minutes_witness :
  let w1 :=
    with_db academy
      (getAccessibleContent 1000 "u1" "beginner"
         (world academy_enrolled no_faults)).2 in
  getAccessibleContent 600999 "u1" "beginner" w1
  = (Ok [summary_of_course (course "C1" beginner true true false [])], w1).
Proof.
  apply (course_list_cached_for_ten_minutes 1000 600999 "u1" "beginner"
           (world academy_enrolled no_faults) academy).
  - reflexivity.
  - vm_compute. reflexivity.
  - lia.
Defined.

(** ** Enrollment *)

Lemma insert_enrollment_effect new_id userId courseId w :
  match (insert_enrollment new_id userId courseId w).1 with
  | Ok id =>
      id = new_id
      ∧ existing_enrollments (w_db w) userId courseId = []
      ∧ (new_id ∉ e_id <$> enrollments (w_db w))
      ∧ (insert_enrollment new_id userId courseId w).2
        = with_db (with_enrollments
                     (enrollments (w_db w)
                        ++ [new_enrollment new_id userId courseId])
                     (w_db w)) w
  | Throw _ => (insert_enrollment new_id userId courseId w).2 = w
  end.
Proof.
  unfold insert_enrollment. cbv zeta.
  case_bool_decide as Hexists; [done|].
  case_bool_decide; [|done]. cbn [fst snd].
  rewrite Exists_exists in Hexists.
  split_and!; try done.
  - apply filter_none. intros e He Hkey. apply Hexists.
    exists e. split; [done|by right].
  - intros Hin. apply list_elem_of_fmap in Hin as (e & Hid & He).
    apply Hexists. exists e. split; [done|by left].
Qed.

Lemma clearUserContentCache_db now userId w :
  w_db (clearUserContentCache now userId w).2 = w_db w.
Proof.
  unfold clearUserContentCache, redis_keys_access, redis_keys_accessible,
    redis_del_access, redis_del_accessible.
  op_unfold.
  destruct (faulty (w_redis w) KEYS) eqn:Hk; [done|]. simpl.
  case_bool_decide; simpl.
  - destruct (faulty (w_redis w) DEL) eqn:Hd; simpl; [done|].
    rewrite Hk. simpl. case_bool_decide; simpl; [|done].
    by rewrite Hd.
  - rewrite Hk. simpl. case_bool_decide; simpl; [|done].
    by destruct (faulty (w_redis w) DEL).
Qed.

Lemma create_enrollment_db new_id now userId courseId w :
  w_db (create_enrollment new_id now userId courseId w).2
  = w_db (insert_enrollment new_id userId courseId w).2.
Proof.
  unfold create_enrollment, mbind, op_bind, mret, op_ret.
  destruct (insert_enrollment new_id userId courseId w) as [[id|e] w1];
    [|done].
  pose proof (clearUserContentCache_db now userId w1) as Hdb.
  by destruct (clearUserContentCache now userId w1) as [[[]|e] w2].
Qed.

Lemma existing_enrollments_new db new_id userId courseId :
  existing_enrollments db userId courseId = [] →
  existing_enrollments
    (with_enrollments
       (enrollments db ++ [new_enrollment new_id userId courseId]) db)
    userId courseId
  = [new_enrollment new_id userId courseId].
Proof.
  unfold existing_enrollments. cbn [enrollments with_enrollments].
  intros Hnone. rewrite filter_app, Hnone.
  by rewrite filter_cons_True.
Qed.

Lemma enrollUser_db new_id now userId courseId w :
  let db' := w_db (enrollUser new_id now userId courseId w).2 in
  db' = w_db w
  ∨ (existing_enrollments (w_db w) userId courseId = []
     ∧ (new_id ∉ e_id <$> enrollments (w_db w))
     ∧ db' = with_enrollments
               (enrollments (w_db w)
                  ++ [new_enrollment new_id userId courseId])
               (w_db w)).
Proof.
  cbv zeta. rewrite enrollUser_unfold.
  pose proof (checkContentAccess_db now userId courseId "course" w) as Hdb.
  destruct (checkContentAccess now userId courseId "course" w) as [access w1].
  cbn [snd] in Hdb.
  destruct (hasAccess access); cbn [negb]; [|by left].
  case_bool_decide; [by left|].
  rewrite catching_world, create_enrollment_db.
  pose proof (insert_enrollment_effect new_id userId courseId w1) as Hins.
  destruct (insert_enrollment new_id userId courseId w1) as [[id|e] w2];
    cbn [fst snd] in *.
  - destruct Hins as (_ & Hnone & Hfresh & ->). rewrite Hdb in *.
    by right.
  - left. by rewrite Hins.
Qed.

(** X19.  [enrollUser] changes the store by at most one row of
    [enrollments]: the row of the user and the course, active and without
    expiry, appended under the drawn identifier, and only when no row of
    that user and course exists and the identifier is unused.  When a row
    exists the call fails and the store is as it was.  Hence the uniqueness
    of (user_id, course_id) and of the identifiers is preserved. *)
Theorem enrollUser_adds_at_most_one_row new_id now userId courseId w :
  let res := (enrollUser new_id now userId courseId w).1 in
  let db' := w_db (enrollUser new_id now userId courseId w).2 in
  (db' = w_db w
   ∨ (existing_enrollments (w_db w) userId courseId = []
      ∧ (new_id ∉ e_id <$> enrollments (w_db w))
      ∧ db' = with_enrollments
                (enrollments (w_db w)
                   ++ [new_enrollment new_id userId courseId])
                (w_db w)))
  ∧ (existing_enrollments (w_db w) userId courseId ≠ [] →
     success res = false ∧ db' = w_db w)
  ∧ (NoDup (enrollment_key <$> enrollments (w_db w)) →
     NoDup (enrollment_key <$> enrollments db'))
  ∧ (NoDup (e_id <$> enrollments (w_db w)) →
     NoDup (e_id <$> enrollments db')).
Proof.
  cbv zeta.
  pose proof (enrollUser_db new_id now userId courseId w) as Hdb.
  cbv zeta in Hdb. split_and!.
  - exact Hdb.
  - intros Hrow. split; [|by destruct Hdb as [?|(? & _)]].
    rewrite enrollUser_unfold.
    pose proof (checkContentAccess_db now userId courseId "course" w) as Hdb1.
    destruct (checkContentAccess now userId courseId "course" w)
      as [access w1].
    cbn [snd] in Hdb1.
    destruct (hasAccess access); cbn [negb]; [|done].
    rewrite bool_decide_true; [done|]. rewrite Hdb1.
    destruct (existing_enrollments (w_db w) userId courseId); [done|].
    simpl. lia.
  - intros Hunique. destruct Hdb as [-> | (Hnone & _ & ->)]; [done|].
    cbn [enrollments with_enrollments]. rewrite fmap_app.
    apply NoDup_app. split_and!; [done| |apply NoDup_singleton].
    intros key Hkey Hnew. apply list_elem_of_fmap in Hkey as (e & -> & He).
    apply list_elem_of_singleton in Hnew.
    unfold enrollment_key in Hnew. simpl in Hnew.
    assert (e ∈ existing_enrollments (w_db w) userId courseId) as Hin.
    { apply list_elem_of_filter. split; [|done]. by simplify_eq. }
    rewrite Hnone in Hin. by apply elem_of_nil in Hin.
  - intros Hunique. destruct Hdb as [-> | (_ & Hfresh & ->)]; [done|].
    cbn [enrollments with_enrollments]. rewrite fmap_app.
    apply NoDup_app. split_and!; [done| |apply NoDup_singleton].
    intros id Hid Hnew. apply list_elem_of_singleton in Hnew.
    simpl in Hnew. by subst id.
Qed.

Lemma checkContentAccess_granted_live now userId contentId contentType w :
  hasAccess (checkContentAccess now userId contentId contentType w).1 = true →
  ∃ v expires,
    access_entries
      (w_redis (checkContentAccess now userId contentId contentType w).2)
      !! (userId, contentId, contentType) = Some (v, expires)
    ∧ now < expires.
Proof.
  destruct (faulty (w_redis w) GET) eqn:Hget.
  { by rewrite checkContentAccess_read_fault. }
  destruct (live now (access_entries (w_redis w)
                        !! (userId, contentId, contentType)))
    as [cached|] eqn:Hlive.
  { rewrite (checkContentAccess_hit _ _ _ _ _ _ Hget Hlive). intros _.
    cbn [snd]. unfold live in Hlive.
    destruct (access_entries (w_redis w) !! _) as [[v expires]|]; [|done].
    case_bool_decide; [|done]. by exists v, expires. }
  rewrite (checkContentAccess_miss _ _ _ _ _ Hget Hlive).
  destruct (getUserWithSubscription (w_db w) userId) as [user|]; [|done].
  destruct (getContentDetails (w_db w) contentId contentType) as [content|];
    [|done].
  destruct (performAccessChecks (w_db w) now user content contentType)
    as [r|e]; [|done].
  destruct (faulty (w_redis w) SETEX); [done|]. intros _.
  exists r, (now + 300 * 1000). simpl. rewrite lookup_insert_eq.
  split; [done|lia].
Qed.

(** X20.  When [enrollUser] succeeds, it returns the identifier of the row
    it has inserted; no row of the user and the course existed before and
    exactly that one exists after; no decision and no course list of the
    user is live in the cache any more; and from then on the enrollment
    check of the user for the course passes at every instant. *)
Theorem enrollUser_success new_id now userId courseId w :
  success (enrollUser new_id now userId courseId w).1 = true →
  let w' := (enrollUser new_id now userId courseId w).2 in
  (enrollUser new_id now userId courseId w).1 = enrolled new_id
  ∧ existing_enrollments (w_db w) userId courseId = []
  ∧ w_db w' = with_enrollments
                (enrollments (w_db w)
                   ++ [new_enrollment new_id userId courseId])
                (w_db w)
  ∧ existing_enrollments (w_db w') userId courseId
    = [new_enrollment new_id userId courseId]
  ∧ (∀ now', checkEnrollment (w_db w') now' userId courseId = access_ok)
  ∧ (∀ now' contentId contentType, now ≤ now' →
       live now' (access_entries (w_redis w')
                    !! (userId, contentId, contentType)) = None)
  ∧ (∀ now' lvl, now ≤ now' →
       live now' (accessible_entries (w_redis w') !! (userId, lvl)) = None).
Proof.
  cbv zeta. rewrite enrollUser_unfold.
  pose proof (checkContentAccess_db now userId courseId "course" w) as Hdb.
  destruct (checkContentAccess now userId courseId "course" w) as [access w1].
  cbn [snd] in Hdb.
  destruct (hasAccess access); cbn [negb]; [|done].
  case_bool_decide; [done|].
  unfold catching, create_enrollment, mbind, op_bind, mret, op_ret.
  pose proof (insert_enrollment_effect new_id userId courseId w1) as Hins.
  destruct (insert_enrollment new_id userId courseId w1) as [[id|e] w2];
    cbn [fst snd] in *; [|done].
  destruct Hins as (-> & Hnone & _ & ->). rewrite Hdb in *.
  destruct (clearUserContentCache now userId _) as [[[]|e] w3] eqn:Hclear;
    [|done].
  intros _. cbn [fst snd].
  apply clearUserContentCache_post in Hclear
    as (Hdb3 & _ & Hdecisions & Hlists & _).
  cbn [w_db with_db] in Hdb3. rewrite Hdb3.
  pose proof (existing_enrollments_new (w_db w) new_id userId courseId Hnone)
    as Hrow.
  split_and!; try done.
  intros now'. unfold checkEnrollment.
  unfold existing_enrollments in Hrow. by rewrite Hrow.
Qed.

Lemma enrollUser_success_witness :
  let w' := (enrollUser "E1" 2000 "u1" "C1" orphan_world).2 in
  (enrollUser "E1" 2000 "u1" "C1" orphan_world).1 = enrolled "E1"
  ∧ existing_enrollments (w_db orphan_world) "u1" "C1" = []
  ∧ w_db w' = with_enrollments
                (enrollments (w_db orphan_world)
                   ++ [new_enrollment "E1" "u1" "C1"])
                (w_db orphan_world)
  ∧ existing_enrollments (w_db w') "u1" "C1" = [new_enrollment "E1" "u1" "C1"]
  ∧ (∀ now', checkEnrollment (w_db w') now' "u1" "C1" = access_ok)
  ∧ (∀ now' contentId contentType, 2000 ≤ now' →
       live now' (access_entries (w_redis w')
                    !! ("u1", contentId, contentType)) = None)
  ∧ (∀ now' lvl, 2000 ≤ now' →
       live now' (accessible_entries (w_redis w') !! ("u1", lvl)) = None).
Proof.
  apply (enrollUser_success "E1" 2000 "u1" "C1" orphan_world).
  vm_compute. reflexivity.
Defined.

(** X21.  The INSERT and the clearing of the cache are not one transaction.
    When the access check grants the course, no row exists, the INSERT is
    accepted and the KEYS or the DEL command of the cache fails,
    [enrollUser] answers SYSTEM_ERROR although the enrollment row has been
    inserted and stays in the store. *)
Theorem enrollUser_row_survives_cache_fault new_id now userId courseId w id :
  hasAccess (checkContentAccess now userId courseId "course" w).1 = true →
  existing_enrollments (w_db w) userId courseId = [] →
  insert_outcome (w_db w) new_id userId courseId = Ok id →
  faulty (w_redis w) KEYS = true ∨ faulty (w_redis w) DEL = true →
  (enrollUser new_id now userId courseId w).1 = enroll_system_error
  ∧ existing_enrollments (w_db (enrollUser new_id now userId courseId w).2)
      userId courseId
    = [new_enrollment new_id userId courseId].
Proof.
  intros Hgranted Hnone Hinsert Hfault.
  rewrite enrollUser_unfold.
  pose proof (checkContentAccess_db now userId courseId "course" w) as Hdb.
  pose proof (checkContentAccess_keeps now userId courseId "course" w)
    as (_ & _ & Hfaults).
  pose proof (checkContentAccess_granted_live now userId courseId "course" w
                Hgranted) as (v & expires & Hlookup & Hlive).
  destruct (checkContentAccess now userId courseId "course" w) as [access w1].
  cbn [fst snd] in *. rewrite Hgranted. cbn [negb].
  rewrite bool_decide_false by (rewrite Hdb, Hnone; simpl; lia).
  rewrite (create_enrollment_outcome new_id now userId courseId courseId
             "course" w1 v expires Hlookup Hlive).
  rewrite catching_world, create_enrollment_db, Hdb, Hinsert, Hfaults.
  split.
  - destruct Hfault as [-> | ->]; [done|].
    by destruct (faulty (w_redis w) KEYS).
  - pose proof (insert_enrollment_outcome new_id userId courseId w1)
      as [Hout _].
    pose proof (insert_enrollment_effect new_id userId courseId w1) as Hins.
    rewrite Hout, Hdb, Hinsert in Hins.
    destruct Hins as (_ & _ & _ & ->). cbn [w_db with_db].
    by apply existing_enrollments_new.
Qed.

Lemma enrollUser_row_survives_cache_fault_witness :
  (enrollUser "E1" 2000 "u1" "C1" (with_faults keys_fail orphan_world)).1
  = enroll_system_error
  ∧ existing_enrollments
      (w_db (enrollUser "E1" 2000 "u1" "C1"
               (with_faults keys_fail orphan_world)).2) "u1" "C1"
    = [new_enrollment "E1" "u1" "C1"].
Proof.
  apply (enrollUser_row_survives_cache_fault "E1" 2000 "u1" "C1"
           (with_faults keys_fail orphan_world) "E1").
  - vm_compute. reflexivity.
  - reflexivity.
  - vm_compute. reflexivity.
  - left. reflexivity.
Defined.

(** ** Progress and the level gate *)

Lemma round_div_mono a b den : 0 < den → a ≤ b → round_div a den ≤ round_div b den.
Proof. intros Hden Hle. unfold round_div. apply Z.div_le_mono; lia. Qed.

Lemma completedLessonCount_mono db ups userId courseId :
  (∀ l, lesson_completed db userId l →
        lesson_completed (with_progress ups db) userId l) →
  (completedLessonCount db userId courseId
   ≤ completedLessonCount (with_progress ups db) userId courseId)%nat.
Proof.
  intros Hkept. unfold completedLessonCount.
  change (course_lessons (with_progress ups db) courseId)
    with (course_lessons db courseId).
  apply length_filter_impl. intros [l m]. apply Hkept.
Qed.

Lemma calculate_course_completion_mono db ups userId courseId :
  one_record_per_lesson db →
  one_record_per_lesson (with_progress ups db) →
  (∀ l, lesson_completed db userId l →
        lesson_completed (with_progress ups db) userId l) →
  ∃ h h',
    calculate_course_completion db userId courseId = Ok h
    ∧ calculate_course_completion (with_progress ups db) userId courseId
      = Ok h'
    ∧ h ≤ h'.
Proof.
  intros Huniq Huniq' Hkept.
  pose proof (completedLessonCount_mono db ups userId courseId Hkept) as Hmono.
  pose proof (completed_le_total (with_progress ups db) userId courseId)
    as Hle.
  unfold calculate_course_completion.
  rewrite (completed_rows_count db userId courseId Huniq).
  rewrite (completed_rows_count _ userId courseId Huniq').
  change (course_lessons (with_progress ups db) courseId)
    with (course_lessons db courseId).
  change (totalLessonCount (with_progress ups db) courseId)
    with (totalLessonCount db courseId) in Hle.
  fold (totalLessonCount db courseId).
  set (total := Z.of_nat (totalLessonCount db courseId)) in *.
  set (done_before := Z.of_nat (completedLessonCount db userId courseId)) in *.
  set (done_after :=
         Z.of_nat (completedLessonCount (with_progress ups db) userId
                     courseId)) in *.
  assert (0 ≤ done_before ≤ done_after ∧ done_after ≤ total) as Hrange
    by (unfold done_before, done_after, total; lia).
  case_bool_decide as Hpos.
  - pose proof (round_div_bounds (done_before * 10000) total ltac:(lia)) as Hb.
    pose proof (round_div_bounds (done_after * 10000) total ltac:(lia)) as Ha.
    pose proof (round_div_mono (done_before * 10000) (done_after * 10000)
                  total ltac:(lia) ltac:(lia)) as Hm.
    set (h := round_div (done_before * 10000) total) in *.
    set (h' := round_div (done_after * 10000) total) in *.
    assert (h' ≤ 10000) as Hh by nia.
    exists h, h'. unfold to_decimal_5_2.
    by rewrite !bool_decide_true by lia.
  - exists 0, 0. unfold to_decimal_5_2. by rewrite bool_decide_true by lia.
Qed.

Lemma mapM_result_Forall2 {A B} (f g : A → result B) (R : B → B → Prop)
    (l : list A) :
  (∀ x, x ∈ l → ∃ y y', f x = Ok y ∧ g x = Ok y' ∧ R y y') →
  ∃ ys ys', mapM f l = Ok ys ∧ mapM g l = Ok ys' ∧ Forall2 R ys ys'.
Proof.
  induction l as [|x l IH]; intros Hall.
  - exists [], []. by split_and!.
  - destruct (Hall x ltac:(left)) as (y & y' & Hy & Hy' & HR).
    destruct IH as (ys & ys' & Hys & Hys' & HRs).
    { intros z Hz. apply Hall. by right. }
    exists (y :: ys), (y' :: ys'). simpl.
    rewrite Hy, Hy'. simpl. rewrite Hys, Hys'. simpl.
    split_and!; [done|done|by constructor].
Qed.

Lemma sum_hundredths_mono hs hs' :
  Forall2 Z.le hs hs' → sum_hundredths hs ≤ sum_hundredths hs'.
Proof.
  induction 1 as [|h h' hs hs' Hh _ IH]; [done|].
  unfold sum_hundredths in *. simpl. lia.
Qed.

Lemma getLevelCompletion_mono db ups userId lvl :
  one_record_per_lesson db →
  one_record_per_lesson (with_progress ups db) →
  (∀ l, lesson_completed db userId l →
        lesson_completed (with_progress ups db) userId l) →
  ∃ c c',
    getLevelCompletion db userId lvl = Ok c
    ∧ getLevelCompletion (with_progress ups db) userId lvl = Ok c'
    ∧ c ≤ c'.
Proof.
  intros Huniq Huniq' Hkept.
  destruct (mapM_result_Forall2
              (λ c, calculate_course_completion db userId (c_id c))
              (λ c, calculate_course_completion (with_progress ups db) userId
                      (c_id c))
              Z.le
              (filter (λ c, c_level c = lvl ∧ c_is_published c = true)
                      (courses db)))
    as (hs & hs' & Hmap & Hmap' & Hle).
  { intros c _. by apply calculate_course_completion_mono. }
  rewrite (getLevelCompletion_rounded _ _ _ _ Hmap).
  rewrite (getLevelCompletion_rounded (with_progress ups db) _ _ _ Hmap').
  eexists _, _. split_and!; [done|done|].
  pose proof (Forall2_length _ _ _ Hle) as Hlen.
  pose proof (sum_hundredths_mono _ _ Hle) as Hsum.
  destruct (decide (hs = [])) as [-> | Hne].
  { destruct hs'; [|done]. by rewrite decide_True. }
  rewrite decide_False by (intros ->; by destruct hs).
  rewrite <- Hlen. apply round_div_mono; [|done].
  destruct hs; simpl; [done|lia].
Qed.

(** X22.  A level that the user has unlocked stays unlocked as lessons get
    completed: with at most one progress record per user and lesson before
    and after, if the progress records change so that every lesson the user
    had completed is still completed, a level gate that granted access
    grants it still. *)
Theorem level_gate_kept_by_progress db ups now userId content lc :
  one_record_per_lesson db →
  one_record_per_lesson (with_progress ups db) →
  (∀ l, lesson_completed db userId l →
        lesson_completed (with_progress ups db) userId l) →
  checkLevelAccess db now userId content = Ok lc →
  hasAccess lc = true →
  checkLevelAccess (with_progress ups db) now userId content = Ok access_ok.
Proof.
  intros Huniq Huniq' Hkept.
  destruct (lower_level (level content)) as [[lower name]|] eqn:Hlower.
  2:{ unfold checkLevelAccess. by destruct (level content). }
  rewrite !(checkLevelAccess_lower _ _ _ _ _ _ Hlower).
  destruct (getLevelCompletion_mono db ups userId lower Huniq Huniq' Hkept)
    as (c & c' & -> & -> & Hle).
  simpl. case_bool_decide; intros [= <-]; [done|]. intros _.
  by rewrite bool_decide_false by lia.
Qed.

Lemma one_record_from_NoDup db :
  NoDup ((λ up, (up_user_id up, up_lesson_id up)) <$> user_progress db) →
  one_record_per_lesson db.
Proof.
  intros Hnodup userId lessonId.
  induction (user_progress db) as [|up ups IH]; [simpl; lia|].
  rewrite fmap_cons in Hnodup. apply NoDup_cons in Hnodup as [Hfresh Hnodup].
  destruct (decide (up_user_id up = userId ∧ up_lesson_id up = Some lessonId))
    as [[Hu Hl]|Hn].
  - rewrite filter_cons_True by done. simpl.
    rewrite filter_none; [simpl; lia|].
    intros up' Hin [Hu' Hl']. apply Hfresh.
    apply list_elem_of_fmap. exists up'. split; [|done]. congruence.
  - rewrite filter_cons_False by done. by apply IH.
Qed.

Lemma gate_db_one_record : one_record_per_lesson gate_db.
Proof. apply one_record_from_NoDup. compute_done. Defined.

Lemma graduate_db_one_record : one_record_per_lesson graduate_db.
Proof. apply one_record_from_NoDup. compute_done. Defined.

Lemma level_gate_kept_by_progress_witness :
  checkLevelAccess graduate_db 1000 "u1"
    (content_of_course (course "C2" intermediate true true false []))
  = Ok access_ok.
Proof.
  apply (level_gate_kept_by_progress gate_db
           (completed_lessons "u1" "A" "MA" 4
              ++ completed_lessons "u1" "B" "MB" 13)
           1000 "u1"
           (content_of_course (course "C2" intermediate true true false []))
           access_ok).
  - exact gate_db_one_record.
  - exact graduate_db_one_record.
  - intros l Hl. apply Exists_exists in Hl as (up & Hin & Hup).
    apply Exists_exists. exists up. split; [|done].
    assert (user_progress gate_db
              ⊆ (completed_lessons "u1" "A" "MA" 4
                   ++ completed_lessons "u1" "B" "MB" 13)%list) as Hsub
      by compute_done.
    by apply Hsub.
  - vm_compute. reflexivity.
  - reflexivity.
Defined.

(** ** Numeric overflow of the completion percentage *)

(** X23.  [calculate_course_completion] raises, with a numeric field
    overflow, exactly when the course has lessons and the completed progress
    rows joined to them number at least 9.99995 times the lessons, that is
    when the percentage rounds to 1000.00 or more; otherwise it returns the
    percentage rounded to two decimals, or 0 for a course without lessons,
    a value below 1000.00. *)
Theorem calculate_course_completion_overflow db p_user_id p_course_id :
  let total := Z.of_nat (length (course_lessons db p_course_id)) in
  let completed :=
    Z.of_nat (length (completed_progress db p_user_id p_course_id)) in
  (calculate_course_completion db p_user_id p_course_id
   = Throw NumericFieldOverflow
   ↔ 0 < total ∧ 199999 * total ≤ 20000 * completed)
  ∧ (¬ (0 < total ∧ 199999 * total ≤ 20000 * completed) →
     ∃ h, calculate_course_completion db p_user_id p_course_id = Ok h
          ∧ h = (if bool_decide (0 < total)
                 then round_div (completed * 10000) total else 0)
          ∧ 0 ≤ h < 100000).
Proof.
  intros total completed. unfold calculate_course_completion.
  fold total completed. unfold to_decimal_5_2.
  assert (0 ≤ completed) as Hc by (unfold completed; lia).
  case_bool_decide as Hpos.
  - rewrite (bool_decide_true (0 < total)) by lia.
    pose proof (round_div_bounds (completed * 10000) total ltac:(lia)) as Hb.
    set (h := round_div (completed * 10000) total) in *.
    case_bool_decide as Hfit.
    + split; [split; [done|nia]|].
      intros _. exists h. split_and!; [done|done|nia|done].
    + split; [split; [intros _; nia|done]|].
      intros Hn. exfalso. apply Hn. nia.
  - rewrite (bool_decide_false (0 < total)) by lia.
    rewrite bool_decide_true by lia.
    split; [split; [done|lia]|].
    intros _. exists 0. split_and!; [done|done|lia|lia].
Qed.

Lemma mapM_result_Throw {A B} (f : A → result B) (l : list A) x e :
  x ∈ l → f x = Throw e → ∃ e', mapM f l = Throw e'.
Proof.
  intros Hin Hx. induction l as [|y l IH]; [by apply elem_of_nil in Hin|].
  simpl. apply elem_of_cons in Hin as [<- | Hin].
  - rewrite Hx. by eexists.
  - destruct (f y) as [b|e1]; simpl; [|by eexists].
    destruct (IH Hin) as (e' & ->). by eexists.
Qed.

(** X24.  An overflow of the completion percentage of one published course
    of the lower level reaches the caller as SYSTEM_ERROR: for a verified
    user and published content of the next level that passes the
    subscription check, the evaluation answers SYSTEM_ERROR, whatever the
    completion of the other courses. *)
Theorem completion_overflow_is_system_error db now userId contentId
    contentType user content lower name c e :
  getUserWithSubscription db userId = Some user →
  getContentDetails db contentId contentType = Some content →
  is_published content = true →
  is_verified user = true →
  hasAccess (checkSubscriptionAccess now user content) = true →
  lower_level (level content) = Some (lower, name) →
  c ∈ courses db → c_level c = lower → c_is_published c = true →
  calculate_course_completion db userId (c_id c) = Throw e →
  evaluate db now userId contentId contentType = system_error now.
Proof.
  intros Hu Hc Hpub Hver Hsub Hlower Hin Hlevel Hcpub Hthrow.
  rewrite (evaluate_found _ _ _ _ _ _ _ Hu Hc).
  unfold performAccessChecks. rewrite Hpub, Hver, Hsub. cbn [negb].
  rewrite (getUserWithSubscription_id _ _ _ Hu).
  rewrite (checkLevelAccess_lower _ _ _ _ _ _ Hlower).
  unfold getLevelCompletion.
  destruct (mapM_result_Throw
              (λ c, calculate_course_completion db userId (c_id c))
              (filter (λ c, c_level c = lower ∧ c_is_published c = true)
                      (courses db)) c e) as (e' & ->); [|done|done].
  by apply list_elem_of_filter.
Qed.

Lemma completion_overflow_is_system_error_witness :
  evaluate overflow_db 1000 "u1" "C2" "course" = system_error 1000.
Proof.
  eapply (completion_overflow_is_system_error overflow_db 1000 "u1" "C2"
            "course" _ _ beginner "Beginner"
            (course "A" beginner true true false []) NumericFieldOverflow).
  - reflexivity.
  - reflexivity.
  - reflexivity.
  - reflexivity.
  - reflexivity.
  - reflexivity.
  - left.
  - reflexivity.
  - reflexivity.
  - vm_compute. reflexivity.
Defined.

(** ** The lookups *)

(** X25.  Under the primary keys of the schema the user lookup finds an
    active user by identifier and joins the row with the first subscription
    row of that user, or with none, in which case the plan, the status and
    the two dates are null; an identifier that no user row carries is not
    found. *)
Theorem user_lookup_joins_subscription db u :
  primary_keys db →
  u ∈ users db →
  u_is_active u = true →
  getUserWithSubscription db (u_id u)
  = Some (user_of_rows u
            (head (filter (λ s, s_user_id s = u_id u) (subscriptions db))))
  ∧ (filter (λ s, s_user_id s = u_id u) (subscriptions db) = [] →
     ∃ user, getUserWithSubscription db (u_id u) = Some user
             ∧ plan user = None ∧ subscription_status user = None
             ∧ current_period_end user = None ∧ trial_end user = None)
  ∧ ∀ userId, userId ∉ (u_id <$> users db) →
              getUserWithSubscription db userId = None.
Proof.
  intros Hpk Hu Hactive.
  pose proof (getUserWithSubscription_found db u Hpk Hu Hactive) as Hfound.
  split_and!; [done| |].
  - intros Hnone. rewrite Hfound, Hnone. by eexists.
  - intros userId Hfresh. apply getUserWithSubscription_none.
    intros u' Hu' Hid. exfalso. apply Hfresh. rewrite <- Hid.
    by apply list_elem_of_fmap_2.
Qed.

Lemma user_lookup_joins_subscription_witness :
  getUserWithSubscription academy_subscribed "u1"
  = Some {| user_id := "u1"; is_verified := true; plan := Some "pro";
            subscription_status := Some active;
            current_period_end := Some 5000; trial_end := None |}.
Proof.
  apply (user_lookup_joins_subscription academy_subscribed
           {| u_id := "u1"; u_is_active := true; u_is_verified := true |}).
  - split; compute_done.
  - left.
  - reflexivity.
Defined.

(** X26.  A content type other than ["course"], ["module"] and ["lesson"]
    names no content: the evaluation answers CONTENT_NOT_FOUND for every
    user that the user lookup finds, and USER_NOT_FOUND for the others,
    without reading any content table. *)
Theorem unknown_content_type_not_found db now userId contentId contentType :
  contentType ∉ ["course"; "module"; "lesson"] →
  getContentDetails db contentId contentType = None
  ∧ (is_Some (getUserWithSubscription db userId) →
     evaluate db now userId contentId contentType = content_not_found now)
  ∧ (getUserWithSubscription db userId = None →
     evaluate db now userId contentId contentType = user_not_found now).
Proof.
  intros Hunknown.
  assert (getContentDetails db contentId contentType = None) as Hnone.
  { unfold getContentDetails.
    rewrite !bool_decide_false; [done|..];
      intros ->; apply Hunknown; compute_done. }
  split_and!; [done| |].
  - intros [user Hu]. unfold evaluate. by rewrite Hu, Hnone.
  - by apply evaluate_user_not_found.
Qed.

Lemma unknown_content_type_not_found_witness :
  getContentDetails academy "C1" "Course" = None
  ∧ (is_Some (getUserWithSubscription academy "u1") →
     evaluate academy 1000 "u1" "C1" "Course" = content_not_found 1000)
  ∧ (getUserWithSubscription academy "u1" = None →
     evaluate academy 1000 "u1" "C1" "Course" = user_not_found 1000).
Proof.
  apply (unknown_content_type_not_found academy 1000 "u1" "C1" "Course").
  compute_done.
Defined.
